(** * Craft Amplify: the event discovery and classification pipeline

    A shallow embedding of the two edge functions of the repository,
    [scan-local-events] (candidate building, gatekeeper, enrichment and
    brief fan-out) and [ingest-raw-events] (asynchronous ingestion push),
    together with the properties the specification states about them.
    Three neighbours of the pipeline are embedded as far as the further
    properties need them: the link the dashboard reads back from a brief
    ([EventEngine.tsx]), the text cleaning of the scraper
    ([event-scraper.js]) and the title the writing function gives a
    generated draft ([sommelier-writer]).

    Conventions of the embedding.
    - A JavaScript string is a [string]; characters are single code units
      below 256, so [String.length] is the [.length] of the source.
    - A [Date] object is an [option Z]: milliseconds since the epoch, with
      [None] for an Invalid Date (a NaN time value).
    - A value that may be [undefined] is an [option]; where the source only
      ever tests a string for truthiness, the empty string stands for both
      the missing and the empty value.
    - What the runtime provides and the repository does not define (the
      date parser behind [new Date(string)], the locale formatter, the URL
      parser, the local time zone) is collected in the class [Host].
    - What the outside world answers during one request (the clock, the
      completion service, the storage backend) is collected in a record
      [World]; the clock is read once per request. *)

From Stdlib Require Import ZArith List String Ascii Bool Lia Arith Permutation.
Import ListNotations.

#[local] Open Scope string_scope.
#[local] Open Scope Z_scope.

(* ================================================================== *)
(** ** Characters and strings as the runtime sees them *)
(* ================================================================== *)

Module JS.

Definition code (a : ascii) : nat := nat_of_ascii a.

Definition is_digit (a : ascii) : bool :=
  ((48 <=? code a) && (code a <=? 57))%nat.

(** [\s] restricted to code units below 256. *)
Definition is_space (a : ascii) : bool :=
  let n := code a in
  ((n =? 9) || (n =? 10) || (n =? 11) || (n =? 12) || (n =? 13)
   || (n =? 32) || (n =? 160))%nat.

(** The dot of a regular expression: anything but a line terminator. *)
Definition is_dot (a : ascii) : bool :=
  negb ((code a =? 10) || (code a =? 13))%nat.

(** The lower-case form of a code unit below 256: the letters A-Z and
    the accented capitals of Latin-1 (all of 192-222 but the sign 215). *)
Definition lower (a : ascii) : ascii :=
  let n := code a in
  if ((65 <=? n) && (n <=? 90))%nat then ascii_of_nat (n + 32)
  else if ((192 <=? n) && (n <=? 222) && negb (n =? 215))%nat
       then ascii_of_nat (n + 32)
  else a.

Fixpoint toLowerCase (s : string) : string :=
  match s with
  | EmptyString => EmptyString
  | String a s' => String (lower a) (toLowerCase s')
  end.

Definition chr_eq (a b : ascii) : bool := Ascii.eqb a b.
Definition chr_eq_ci (a b : ascii) : bool := Ascii.eqb (lower a) (lower b).

Fixpoint startsWith (p s : string) : bool :=
  match p, s with
  | EmptyString, _ => true
  | String a p', String b s' => chr_eq a b && startsWith p' s'
  | String _ _, EmptyString => false
  end.

(** [s.includes(p)] *)
Fixpoint includes (s p : string) : bool :=
  startsWith p s ||
  match s with
  | EmptyString => false
  | String _ s' => includes s' p
  end.

Fixpoint drop (n : nat) (s : string) : string :=
  match n, s with
  | O, _ => s
  | S n', String _ s' => drop n' s'
  | S _, EmptyString => EmptyString
  end.

Fixpoint take (n : nat) (s : string) : string :=
  match n, s with
  | O, _ => EmptyString
  | S n', String a s' => String a (take n' s')
  | S _, EmptyString => EmptyString
  end.

Fixpoint trimStart (s : string) : string :=
  match s with
  | String a s' => if is_space a then trimStart s' else s
  | EmptyString => EmptyString
  end.

Fixpoint trimEnd (s : string) : string :=
  match s with
  | EmptyString => EmptyString
  | String a s' =>
      match trimEnd s' with
      | EmptyString => if is_space a then EmptyString else String a EmptyString
      | t => String a t
      end
  end.

Definition trim (s : string) : string := trimEnd (trimStart s).

(** Truthiness of a string: only the empty string is falsy. *)
Definition truthy (s : string) : bool :=
  match s with EmptyString => false | _ => true end.

(** [a || b] on strings. *)
Definition or_else (a b : string) : string := if truthy a then a else b.

(** [a || b] where [a] may be undefined. *)
Definition opt_or (a : option string) (b : string) : string :=
  match a with
  | Some s => or_else s b
  | None => b
  end.

Fixpoint repeat_string (a : ascii) (n : nat) : string :=
  match n with
  | O => EmptyString
  | S n' => String a (repeat_string a n')
  end.

(* ------------------------------------------------------------------ *)
(** *** Regular expressions

    A backtracking matcher with the constructs the source's patterns use:
    character classes, sequence, ordered alternation, greedy and lazy
    star, capture groups and negative lookahead.  Matching is written in
    continuation-passing style so that backtracking into a group or a
    quantifier follows the order the runtime tries the alternatives. *)

Inductive regex : Type :=
| Eps
| Chr (p : ascii -> bool)
| Seq (r1 r2 : regex)
| Alt (r1 r2 : regex)
| Star (greedy : bool) (r : regex)
| Group (n : nat) (r : regex)
| NotAhead (r : regex).

Definition captures := list (nat * string).

Fixpoint capture (c : captures) (n : nat) : option string :=
  match c with
  | [] => None
  | (k, v) :: c' => if Nat.eqb k n then Some v else capture c' n
  end.

Fixpoint rmatch (r : regex) (A : Type) (s : string) (c : captures)
  (k : string -> captures -> option A) {struct r} : option A :=
  match r with
  | Eps => k s c
  | Chr p =>
      match s with
      | String a s' => if p a then k s' c else None
      | EmptyString => None
      end
  | Seq r1 r2 => rmatch r1 A s c (fun s1 c1 => rmatch r2 A s1 c1 k)
  | Alt r1 r2 =>
      match rmatch r1 A s c k with
      | Some x => Some x
      | None => rmatch r2 A s c k
      end
  | Star greedy r' =>
      (fix loop (fuel : nat) (s : string) (c : captures) {struct fuel} : option A :=
         match fuel with
         | O => k s c
         | S fuel' =>
             let again :=
               rmatch r' A s c
                 (fun s1 c1 =>
                    if (String.length s1 <? String.length s)%nat
                    then loop fuel' s1 c1 else None) in
             if greedy
             then match again with Some x => Some x | None => k s c end
             else match k s c with Some x => Some x | None => again end
         end) (String.length s) s c
  | Group n r' =>
      rmatch r' A s c
        (fun s1 c1 =>
           k s1 ((n, take (String.length s - String.length s1) s) :: c1))
  | NotAhead r' =>
      match rmatch r' unit s c (fun _ _ => Some tt) with
      | Some _ => None
      | None => k s c
      end
  end.

(** One match: where it starts, the matched text ([match[0]]) and the
    groups ([match[n]]). *)
Record Match := {
  m_index : nat;
  m_text : string;
  m_groups : captures
}.

Definition grp (m : Match) (n : nat) : option string := capture (m_groups m) n.

(** The match of [r] anchored at the head of [s]: matched text, groups and
    the rest of the input. *)
Definition match_here (r : regex) (s : string) : option (string * captures * string) :=
  rmatch r _ s []
    (fun rest c => Some (take (String.length s - String.length rest) s, c, rest)).

(** The leftmost match in [s], whose head is at offset [pos] of the text. *)
Fixpoint search (r : regex) (fuel : nat) (pos : nat) (s : string)
  : option (Match * string) :=
  match match_here r s with
  | Some (txt, c, rest) =>
      Some ({| m_index := pos; m_text := txt; m_groups := c |}, rest)
  | None =>
      match fuel, s with
      | S fuel', String _ s' => search r fuel' (S pos) s'
      | _, _ => None
      end
  end.

(** [s.match(r)] for a pattern without the global flag, and each step of
    [r.exec(s)]. *)
Definition exec (r : regex) (s : string) : option Match :=
  option_map fst (search r (String.length s) 0 s).

(** [[...s.matchAll(r)]], and the loop [while ((m = r.exec(s)) !== null)]
    of a global pattern: successive leftmost matches; after an empty match
    the scan moves one character on. *)
Fixpoint matchAll_from (r : regex) (fuel : nat) (pos : nat) (s : string)
  : list Match :=
  match fuel with
  | O => []
  | S fuel' =>
      match search r (String.length s) pos s with
      | None => []
      | Some (m, rest) =>
          let endpos := (m_index m + String.length (m_text m))%nat in
          match m_text m, rest with
          | EmptyString, String _ rest' => m :: matchAll_from r fuel' (S endpos) rest'
          | EmptyString, EmptyString => [m]
          | _, _ => m :: matchAll_from r fuel' endpos rest
          end
      end
  end.

Definition matchAll (r : regex) (s : string) : list Match :=
  matchAll_from r (S (String.length s)) 0 s.

(** [s.replace(r, by)] for a global pattern that cannot match the empty
    string. *)
Fixpoint replace_from (r : regex) (by_ : string) (fuel : nat) (s : string) : string :=
  match fuel with
  | O => s
  | S fuel' =>
      match match_here r s with
      | Some (String _ _, _, rest) => by_ ++ replace_from r by_ fuel' rest
      | _ =>
          match s with
          | String a s' => String a (replace_from r by_ fuel' s')
          | EmptyString => EmptyString
          end
      end
  end.

Definition replace (r : regex) (by_ : string) (s : string) : string :=
  replace_from r by_ (S (String.length s)) s.

(** Pattern builders. *)
Definition ch (a : ascii) : regex := Chr (chr_eq a).
Definition chi (a : ascii) : regex := Chr (chr_eq_ci a).
Definition any_char : regex := Chr (fun _ => true).
Definition dot : regex := Chr is_dot.
Definition digit : regex := Chr is_digit.
Definition space : regex := Chr is_space.
Definition opt (r : regex) : regex := Alt r Eps.
Definition plus (r : regex) : regex := Seq r (Star true r).

Fixpoint seqs (rs : list regex) : regex :=
  match rs with
  | [] => Eps
  | [r] => r
  | r :: rs' => Seq r (seqs rs')
  end.

Fixpoint alts (rs : list regex) : regex :=
  match rs with
  | [] => NotAhead Eps
  | [r] => r
  | r :: rs' => Alt r (alts rs')
  end.

Fixpoint lit (s : string) : regex :=
  match s with
  | EmptyString => Eps
  | String a EmptyString => ch a
  | String a s' => Seq (ch a) (lit s')
  end.

(** A literal under the [i] flag. *)
Fixpoint liti (s : string) : regex :=
  match s with
  | EmptyString => Eps
  | String a EmptyString => chi a
  | String a s' => Seq (chi a) (liti s')
  end.

(* ------------------------------------------------------------------ *)
(** *** Numbers and their decimal notation *)

Definition digit_char (d : Z) : ascii := ascii_of_nat (48 + Z.to_nat d).

Fixpoint decimal_from (fuel : nat) (n : Z) (acc : string) : string :=
  match fuel with
  | O => acc
  | S fuel' =>
      let acc' := String (digit_char (n mod 10)) acc in
      if n <? 10 then acc' else decimal_from fuel' (n / 10) acc'
  end.

(** [String(n)] for an integer. *)
Definition string_of_Z (n : Z) : string :=
  if n <? 0 then String "-" (decimal_from (Z.to_nat (Z.log2 (- n) + 1)) (- n) "")
  else decimal_from (Z.to_nat (Z.log2 n + 1)) n "".

(** Decimal notation padded with zeros to [w] digits. *)
Definition pad (w : nat) (n : Z) : string :=
  let s := string_of_Z n in
  repeat_string "0" (w - String.length s) ++ s.

Fixpoint digits_value (s : string) (acc : Z) : Z * string :=
  match s with
  | String a s' =>
      if is_digit a then digits_value s' (acc * 10 + (Z.of_nat (code a) - 48))
      else (acc, s)
  | EmptyString => (acc, s)
  end.

(** [parseInt(s)] in radix 10: leading white space, an optional sign and
    the longest run of digits; [None] is NaN.  (The hexadecimal prefix is
    left out: the source only passes it runs of decimal digits.) *)
Definition parseInt (s : string) : option Z :=
  let t := trimStart s in
  let '(sign, u) :=
    match t with
    | String "-" u => (-1, u)
    | String "+" u => (1, u)
    | _ => (1, t)
    end in
  match u with
  | String a _ => if is_digit a then Some (sign * fst (digits_value u 0)) else None
  | EmptyString => None
  end.

(* ------------------------------------------------------------------ *)
(** *** Time values (ECMAScript, section "Date objects") *)

Definition msPerDay : Z := 86400000.

Definition Day (t : Z) : Z := t / msPerDay.
Definition TimeWithinDay (t : Z) : Z := t mod msPerDay.

Definition DayFromYear (y : Z) : Z :=
  365 * (y - 1970) + (y - 1969) / 4 - (y - 1901) / 100 + (y - 1601) / 400.

Definition isLeap (y : Z) : bool :=
  ((y mod 4 =? 0) && negb (y mod 100 =? 0)) || (y mod 400 =? 0).

Definition DaysInYear (y : Z) : Z := if isLeap y then 366 else 365.

(** The largest [y] with [DayFromYear y <= day]: an estimate from the mean
    year length, then one step of correction. *)
Definition YearFromDay (day : Z) : Z :=
  let y := 1970 + (day * 400) / 146097 in
  if DayFromYear (y + 1) <=? day then y + 1
  else if day <? DayFromYear y then y - 1
  else y.

Definition YearFromTime (t : Z) : Z := YearFromDay (Day t).

Definition DayWithinYear (t : Z) : Z := Day t - DayFromYear (YearFromTime t).

(** Days before the first of month [m] (0-based) in a year. *)
Definition daysBeforeMonth (leap : bool) (m : Z) : Z :=
  let l := if leap then 1 else 0 in
  match m with
  | 0 => 0 | 1 => 31 | 2 => 59 + l | 3 => 90 + l | 4 => 120 + l
  | 5 => 151 + l | 6 => 181 + l | 7 => 212 + l | 8 => 243 + l
  | 9 => 273 + l | 10 => 304 + l | _ => 334 + l
  end.

Definition MonthFromTime (t : Z) : Z :=
  let d := DayWithinYear t in
  let leap := isLeap (YearFromTime t) in
  let fix find (k : nat) (m : Z) : Z :=
    match k with
    | O => m
    | S k' => if daysBeforeMonth leap (m + 1) <=? d then find k' (m + 1) else m
    end in
  find 11%nat 0.

Definition DateFromTime (t : Z) : Z :=
  DayWithinYear t - daysBeforeMonth (isLeap (YearFromTime t)) (MonthFromTime t) + 1.

Definition MakeDay (year month date : Z) : Z :=
  let ym := year + month / 12 in
  let mn := month mod 12 in
  DayFromYear ym + daysBeforeMonth (isLeap ym) mn + date - 1.

Definition MakeDate (day time : Z) : Z := day * msPerDay + time.

Definition TimeClip (t : Z) : option Z :=
  if Z.abs t <=? 8640000000000000 then Some t else None.

(** [d.toISOString()]; the caller has checked that the date is valid. *)
Definition iso_of_time (t : Z) : string :=
  let y := YearFromTime t in
  let year :=
    if (0 <=? y) && (y <=? 9999) then pad 4 y
    else if y <? 0 then String "-" (pad 6 (- y))
    else String "+" (pad 6 y) in
  let w := TimeWithinDay t in
  year ++ "-" ++ pad 2 (MonthFromTime t + 1) ++ "-" ++ pad 2 (DateFromTime t)
  ++ "T" ++ pad 2 (w / 3600000) ++ ":" ++ pad 2 ((w / 60000) mod 60)
  ++ ":" ++ pad 2 ((w / 1000) mod 60) ++ "." ++ pad 3 (w mod 1000) ++ "Z".

(** [d.toISOString()]: [None] is the RangeError thrown for an Invalid Date. *)
Definition toISOString (d : option Z) : option string := option_map iso_of_time d.

(** [s.split('T')[0]] *)
Fixpoint before_T (s : string) : string :=
  match s with
  | EmptyString => EmptyString
  | String a s' => if chr_eq a "T" then EmptyString else String a (before_T s')
  end.

(** What the runtime provides. *)
Class Host := {
  (** offset of local time from UTC, in milliseconds; the offset is taken
      to be the same all year *)
  LocalTZA : Z;
  (** the time value of [new Date(s)]; [None] for an Invalid Date *)
  Date_parse : string -> option Z;
  (** [d.toLocaleDateString()] *)
  toLocaleDateString : option Z -> string;
  (** [new URL(s).hostname]; [None] when the constructor throws *)
  URL_hostname : string -> option string
}.

Section LocalTime.
Context {H : Host}.

Definition LocalTime (t : Z) : Z := t + LocalTZA.
Definition UTC (t : Z) : Z := t - LocalTZA.

Definition getFullYear (t : Z) : Z := YearFromTime (LocalTime t).
Definition getMonth (t : Z) : Z := MonthFromTime (LocalTime t).
Definition getDate (t : Z) : Z := DateFromTime (LocalTime t).

(** [new Date(year, month, day)] *)
Definition Date_of_fields (year month day : Z) : option Z :=
  let yr := if (0 <=? year) && (year <=? 99) then 1900 + year else year in
  TimeClip (UTC (MakeDate (MakeDay yr month day) 0)).

(** [d.setMonth(m)] on a valid date. *)
Definition setMonth (t : Z) (m : Z) : option Z :=
  let lt := LocalTime t in
  TimeClip (UTC (MakeDate (MakeDay (YearFromTime lt) m (DateFromTime lt))
                          (TimeWithinDay lt))).
End LocalTime.

(** [a >= b] and [a <= b] on Date objects: false as soon as one side is
    NaN. *)
Definition date_le (a b : option Z) : bool :=
  match a, b with
  | Some x, Some y => x <=? y
  | _, _ => false
  end.

End JS.

(* ================================================================== *)
(** ** scan-local-events: the candidate builder *)
(* ================================================================== *)

Module ScanLocalEvents.
Import JS.

Record PotentialEvent := {
  title : string;
  description : string;
  link : string;
  published : string;
  location : option string;
  source_name : string;
  source_url : string;
  event_date : option string
}.

Record FilteredEvent := {
  event_name : string;
  fe_event_date : string;
  event_location : string;
  event_summary : string;
  event_url : string;
  relevance_score : Z;
  fe_source_url : string;
  fe_source_name : string
}.

Record RawData := {
  rd_source_url : string;
  raw_content : string
}.

Record RequestPayload := {
  date_range : option (string * string);
  raw_data : option (list RawData)
}.

Definition monthNames : list string :=
  ["january"; "february"; "march"; "april"; "may"; "june";
   "july"; "august"; "september"; "october"; "november"; "december"].

Definition month : regex := alts (map liti monthNames).
Definition d12 : regex := Seq digit (opt digit).
Definition d4 : regex := seqs [digit; digit; digit; digit].
Definition slash_or_dash : regex :=
  Chr (fun a => chr_eq a "/" || chr_eq a "-").

Definition datePatterns : list regex :=
  [ (* MM/DD/YYYY or MM-DD-YYYY *)
    seqs [Group 1 d12; slash_or_dash; Group 2 d12; slash_or_dash; Group 3 d4];
    (* MM/DD or MM-DD (current year) *)
    seqs [Group 1 d12; slash_or_dash; Group 2 d12; NotAhead digit];
    (* Month DD, YYYY *)
    seqs [Group 1 month; plus space; Group 2 d12; opt (ch ","); Star true space;
          Group 3 d4];
    (* Month DD (current year) *)
    seqs [Group 1 month; plus space; Group 2 d12; NotAhead digit];
    (* DD Month YYYY *)
    seqs [Group 1 d12; plus space; Group 2 month; plus space; Group 3 d4];
    (* DD Month (current year) *)
    seqs [Group 1 d12; plus space; Group 2 month; NotAhead (Seq (plus space) d4)] ].

(** [monthNames.findIndex(m => s.toLowerCase().includes(m))] *)
Fixpoint findIndex_from (i : Z) (names : list string) (s : string) : Z :=
  match names with
  | [] => -1
  | m :: names' =>
      if includes (toLowerCase s) m then i else findIndex_from (i + 1) names' s
  end.

Definition monthIndexOf (s : string) : Z := findIndex_from 0 monthNames s.

(** [monthNames.includes(s)] *)
Definition isMonthName (s : string) : bool := existsb (String.eqb s) monthNames.

(** [match[3] ? parseInt(match[3]) : currentYear] *)
Definition yearOf (m : Match) (currentYear : Z) : option Z :=
  match grp m 3 with
  | Some g => if truthy g then parseInt g else Some currentYear
  | None => Some currentYear
  end.

Section CandidateBuilder.
Context {H : Host}.

(** [new Date(year, month, day)] on numbers any of which may be NaN. *)
Definition newDate (year monthIndex day : option Z) : option Z :=
  match year, monthIndex, day with
  | Some y, Some m, Some d => Date_of_fields y m d
  | _, _, _ => None
  end.

(** The body of the inner loop of [extractEventDate] up to the
    validation: the date one match stands for.  A match without its
    first or second group makes the source throw inside its [try]; the
    match is then skipped like an Invalid Date. *)
Definition eventDateOf (currentYear : Z) (m : Match) : option Z :=
  match grp m 1, grp m 2 with
  | Some g1, Some g2 =>
      if existsb (includes (m_text m)) monthNames then
        if truthy g2 && isMonthName (toLowerCase g2) then
          (* DD Month YYYY pattern *)
          newDate (yearOf m currentYear) (Some (monthIndexOf g2)) (parseInt g1)
        else
          (* Month DD YYYY pattern *)
          newDate (yearOf m currentYear) (Some (monthIndexOf g1)) (parseInt g2)
      else
        (* Numeric pattern *)
        newDate (yearOf m currentYear) (option_map (fun n => n - 1) (parseInt g1))
                (parseInt g2)
  | _, _ => None
  end.

(** The plausibility check on a constructed date. *)
Definition plausible (currentYear : Z) (d : option Z) : bool :=
  match d with
  | None => false
  | Some t =>
      let nextYear := currentYear + 1 in
      (currentYear <=? getFullYear t) && (getFullYear t <=? nextYear + 1)
      && (0 <=? getMonth t) && (getMonth t <=? 11)
      && (1 <=? getDate t) && (getDate t <=? 31)
  end.

Fixpoint firstPlausible (currentYear : Z) (ms : list Match) : option Z :=
  match ms with
  | [] => None
  | m :: ms' =>
      let d := eventDateOf currentYear m in
      if plausible currentYear d then d else firstPlausible currentYear ms'
  end.

(** The two nested loops over the patterns and their matches. *)
Fixpoint inTextDate (currentYear : Z) (patterns : list regex) (text : string)
  : option Z :=
  match patterns with
  | [] => None
  | p :: patterns' =>
      match firstPlausible currentYear (matchAll p text) with
      | Some t => Some t
      | None => inTextDate currentYear patterns' text
      end
  end.

(** The fall-back on the published date. *)
Definition pubDateDate (currentYear : Z) (pubDate : string) : option Z :=
  if truthy pubDate then
    match Date_parse pubDate with
    | Some t => if currentYear - 1 <=? getFullYear t then Some t else None
    | None => None
    end
  else None.

Definition extractEventDate (now : Z) (title description pubDate : string)
  : option string :=
  let text := toLowerCase (title ++ " " ++ description) in
  let currentYear := getFullYear now in
  match inTextDate currentYear datePatterns text with
  | Some t => Some (iso_of_time t)
  | None => option_map iso_of_time (pubDateDate currentYear pubDate)
  end.

Definition isEventInDateRange (eventDateStr : string) (startDate endDate : option Z)
  : bool :=
  let eventDate := Date_parse eventDateStr in
  date_le startDate eventDate && date_le eventDate endDate.

(** *** The lenient feed parser *)

Record Item := {
  item_title : option string;
  item_description : option string;
  item_link : option string;
  item_pubDate : option string
}.

Definition not_gt : regex := Chr (fun a => negb (chr_eq a ">")).

Definition itemRegex : regex :=
  seqs [liti "<item"; Star true not_gt; ch ">"; Group 1 (Star false any_char);
        liti "</item>"].

Definition titleRegex : regex :=
  seqs [liti "<title"; Star true not_gt; ch ">"; opt (liti "<![CDATA[");
        Group 1 (Star false dot); opt (liti "]]>"); liti "</title>"].

Definition descRegex : regex :=
  seqs [liti "<description"; Star true not_gt; ch ">"; opt (liti "<![CDATA[");
        Group 1 (Star false any_char); opt (liti "]]>"); liti "</description>"].

Definition linkRegex : regex :=
  seqs [liti "<link"; Star true not_gt; ch ">"; Group 1 (Star false dot);
        liti "</link>"].

Definition pubDateRegex : regex :=
  seqs [liti "<pubDate"; Star true not_gt; ch ">"; Group 1 (Star false dot);
        liti "</pubDate>"].

Definition guidRegex : regex :=
  seqs [liti "<guid"; Star true not_gt; ch ">"; Group 1 (Star false dot);
        liti "</guid>"].

(** [itemContent.match(r)] followed by [m[1].trim()] *)
Definition field (r : regex) (itemContent : string) : option string :=
  match exec r itemContent with
  | Some m => option_map trim (grp m 1)
  | None => None
  end.

Definition parseItem (itemContent : string) : Item :=
  let link := field linkRegex itemContent in
  {| item_title := field titleRegex itemContent;
     item_description := field descRegex itemContent;
     item_link :=
       match field guidRegex itemContent with
       | Some g => if truthy (opt_or link "") then link else Some g
       | None => link
       end;
     item_pubDate := field pubDateRegex itemContent |}.

Definition parseXML (xmlString : string) : list Item :=
  map (fun m => parseItem (opt_or (grp m 1) "")) (matchAll itemRegex xmlString).

Definition tagRegex : regex := seqs [ch "<"; Star true not_gt; ch ">"].
Definition entityRegex : regex :=
  seqs [ch "&"; plus (Chr (fun a => negb (chr_eq a ";"))); ch ";"].

(** Markup tags removed, entities blanked, ends trimmed. *)
Definition clean (s : string) : string :=
  trim (replace entityRegex " " (replace tagRegex "" s)).

(** [v || undefined] *)
Definition orUndefined (v : option string) : option string :=
  match v with
  | Some s => if truthy s then Some s else None
  | None => None
  end.

(** The body of the [forEach] of [extractRSSEvents] for one item: the
    event it contributes, if any. *)
Definition eventOfItem (now : Z) (sourceUrl sourceName : string)
  (startDate endDate : option Z) (item : Item) : option PotentialEvent :=
  let cleanTitle := clean (opt_or (item_title item) "") in
  let cleanDescription := clean (opt_or (item_description item) "") in
  if truthy cleanTitle && (5 <? String.length cleanTitle)%nat then
    let eventDate :=
      extractEventDate now cleanTitle cleanDescription (opt_or (item_pubDate item) "") in
    let event :=
      {| title := cleanTitle;
         description := cleanDescription;
         link := opt_or (item_link item) sourceUrl;
         published := opt_or (item_pubDate item) "";
         location := None;
         source_name := sourceName;
         source_url := sourceUrl;
         event_date := orUndefined eventDate |} in
    match orUndefined eventDate with
    | None => Some event
    | Some d => if isEventInDateRange d startDate endDate then Some event else None
    end
  else None.

Fixpoint collect {A B : Type} (f : A -> option B) (l : list A) : list B :=
  match l with
  | [] => []
  | x :: l' =>
      match f x with
      | Some y => y :: collect f l'
      | None => collect f l'
      end
  end.

(** Nothing in the body can throw on the typed input, so the [catch]
    that would return the empty list is never taken. *)
Definition extractRSSEvents (now : Z) (rssXml sourceUrl sourceName : string)
  (startDate endDate : option Z) : list PotentialEvent :=
  collect (eventOfItem now sourceUrl sourceName startDate endDate)
          (firstn 100 (parseXML rssXml)).

End CandidateBuilder.

(* ------------------------------------------------------------------ *)
(** *** The completion service, as one request sees it *)

(** A JSON value as far as the pipeline looks into it: [null], a scalar
    or array (no named members), or an object whose members are listed
    in order of appearance.  A member holds an array of [A] or a falsy
    value ([None]); a member that is truthy without being an array of
    such events is outside this type. *)
Inductive Json (A : Type) : Type :=
| JNull
| JScalar
| JObject (members : list (string * option (list A))).
Arguments JNull {A}.
Arguments JScalar {A}.
Arguments JObject {A} members.

(** The message content, a string, as [JSON.parse] reads it. *)
Inductive Content (A : Type) : Type :=
| Blank                 (* the empty string *)
| Malformed             (* not JSON text: JSON.parse throws *)
| Text (j : Json A).    (* JSON text of the value j *)
Arguments Blank {A}.
Arguments Malformed {A}.
Arguments Text {A} j.

Record Message (A : Type) := { content : option (Content A) }.
Arguments content {A} _.
Record Choice (A : Type) := { message : option (Message A) }.
Arguments message {A} _.

(** The outcome of [fetch] on the completions endpoint. *)
Inductive Reply (A : Type) : Type :=
| Unreachable                                  (* fetch rejects *)
| HttpError                                    (* response.ok is false *)
| NotJson                                      (* response.json() rejects *)
| Completion (choices : option (list (Choice A))).
Arguments Unreachable {A}.
Arguments HttpError {A}.
Arguments NotJson {A}.
Arguments Completion {A} choices.

(** Property lookup on a parsed object: the last member of that name. *)
Fixpoint member {A : Type} (key : string) (ms : list (string * option (list A)))
  : option (option (list A)) :=
  match ms with
  | [] => None
  | (k, v) :: ms' =>
      match member key ms' with
      | Some w => Some w
      | None => if String.eqb k key then Some v else None
      end
  end.

(** [choices[0]?.message?.content] *)
Definition firstContent {A : Type} (choices : list (Choice A)) : option (Content A) :=
  match choices with
  | [] => None
  | c :: _ =>
      match message c with
      | Some m => content m
      | None => None
      end
  end.

(** [JSON.parse(content || '{"key":[]}').key || []]; [None] when the
    expression throws. *)
Definition parsedArray {A : Type} (key : string) (c : option (Content A))
  : option (list A) :=
  let parsed :=
    match c with
    | None | Some Blank => Some (JObject [(key, Some [])])
    | Some Malformed => None
    | Some (Text j) => Some j
    end in
  match parsed with
  | None => None
  | Some JNull => None
  | Some JScalar => Some []
  | Some (JObject ms) =>
      match member key ms with
      | Some (Some l) => Some l
      | _ => Some []
      end
  end.

(** The [try] block around one call of the service: [None] when control
    reaches the [catch] or the [else] of [response.ok]. *)
Definition completionArray {A : Type} (key : string) (r : Reply A) : option (list A) :=
  match r with
  | Unreachable => None
  | HttpError => None
  | NotJson => None
  | Completion None => None
  | Completion (Some choices) => parsedArray key (firstContent choices)
  end.

(* ------------------------------------------------------------------ *)
(** *** Storage *)

Record RawEvent := {
  id : string;
  created_at : Z;
  re_source_url : string;
  re_source_name : option string;
  re_raw_content : string;
  content_length : Z;
  is_processed : bool;
  scrape_timestamp : Z;
  apify_run_id : option string;
  error_message : option string
}.

Record Winery := {
  w_id : string;
  winery_name : string;
  w_location : string
}.

Record WineryBrief := {
  winery_id : string;
  suggested_theme : string;
  key_points : list string;
  local_event_name : string;
  local_event_date : option string;
  local_event_location : string;
  seasonal_context : string
}.

Inductive InsertResult := Inserted | Rejected | Threw.

Record Store := {
  raw_events : list RawEvent;
  research_briefs : list WineryBrief
}.

(** The statements a run sends to the storage backend. *)
Inductive DbOp :=
| SelectUnprocessed
| UpdateProcessed (row : string)
| SelectWineries
| InsertBrief (b : WineryBrief) (r : InsertResult).

(** What the world outside answers during one request. *)
Record World := {
  now : Z;
  OPENAI_API_KEY : option string;
  raw_events_readable : bool;
  winery_profiles : list Winery;
  wineries_error : option string;
  gatekeeperReply : Reply PotentialEvent;
  enhancedReply : Reply FilteredEvent;
  (** the outcome of the k-th insertion of the run *)
  insertBrief : nat -> WineryBrief -> InsertResult;
  (** whether the backend applies the update of the row with this [id];
      the run reads neither the error an update returns nor, past the
      [catch] of its loop, the exception it throws *)
  updateProcessed : string -> bool
}.

(** The trigger [trigger_set_content_length] of the schema, run before
    every insert or update of a row. *)
Definition set_content_length (r : RawEvent) : RawEvent :=
  {| id := id r; created_at := created_at r; re_source_url := re_source_url r;
     re_source_name := re_source_name r; re_raw_content := re_raw_content r;
     content_length := Z.of_nat (String.length (re_raw_content r));
     is_processed := is_processed r; scrape_timestamp := scrape_timestamp r;
     apify_run_id := apify_run_id r; error_message := error_message r |}.

Definition set_is_processed (v : bool) (r : RawEvent) : RawEvent :=
  {| id := id r; created_at := created_at r; re_source_url := re_source_url r;
     re_source_name := re_source_name r; re_raw_content := re_raw_content r;
     content_length := content_length r;
     is_processed := v; scrape_timestamp := scrape_timestamp r;
     apify_run_id := apify_run_id r; error_message := error_message r |}.

(** [update({ is_processed: true }).eq('id', row)] *)
Definition markProcessed (row : string) (table : list RawEvent) : list RawEvent :=
  map (fun r => if String.eqb (id r) row
                then set_content_length (set_is_processed true r) else r) table.

Fixpoint insertByCreatedAt (r : RawEvent) (l : list RawEvent) : list RawEvent :=
  match l with
  | [] => [r]
  | x :: l' =>
      if created_at r <=? created_at x then r :: l
      else x :: insertByCreatedAt r l'
  end.

(** [select('*').eq('is_processed', false).order('created_at')]; rows
    with the same time stamp stay in the order of the table. *)
Definition selectUnprocessed (table : list RawEvent) : list RawEvent :=
  fold_right insertByCreatedAt [] (filter (fun r => negb (is_processed r)) table).

(* ------------------------------------------------------------------ *)
(** *** The request handler *)

Record Request := {
  method : string;
  (** [await req.json()]; [None] when it rejects or yields [null] *)
  json : option RequestPayload
}.

Record DateRange := {
  dr_start : string;
  dr_end : string;
  duration_days : option Z
}.

Record EventLine := {
  el_name : string;
  el_date : string;
  el_location : option string;
  el_relevance : Z;
  el_source : string;
  el_url : string
}.

(** The JSON body of a successful response; a member a given response
    does not carry is [None].  The constant members [content_generated]
    and [automatic_content_generation] of the last response are left
    out. *)
Record Summary := {
  success : bool;
  summary_message : string;
  data_source : string;
  raw_sources_processed : option Z;
  events_extracted : option Z;
  events_after_gatekeeper : option Z;
  competitor_events_filtered : option Z;
  events_final : option Z;
  events_found : option Z;
  wineries_processed : option Z;
  briefs_created : option Z;
  out_date_range : DateRange;
  events : option (list EventLine);
  sources_processed : option (list (string * Z))
}.

Inductive Failure :=
| BadRequestBody                 (* req.json() rejected, or the body is null *)
| InvalidTimeValue               (* toISOString on an Invalid Date *)
| WineriesUnreadable (msg : string).

Inductive Response :=
| Preflight                      (* OPTIONS: 200, no body *)
| MethodNotAllowed               (* 405 *)
| Ok (body : Summary)            (* 200 *)
| InternalError (why : Failure). (* 500 *)

Definition status (r : Response) : Z :=
  match r with
  | Preflight => 200
  | MethodNotAllowed => 405
  | Ok _ => 200
  | InternalError _ => 500
  end.

Definition len {A : Type} (l : list A) : Z := Z.of_nat (List.length l).

Section Handler.
Context {H : Host}.

(** The date range of the request, or the next three months. *)
Definition resolveDateRange (now : Z) (requestBody : RequestPayload)
  : option Z * option Z :=
  match date_range requestBody with
  | Some (start_date, end_date) => (Date_parse start_date, Date_parse end_date)
  | None => (Some now, setMonth now (getMonth now + 3))
  end.

(** The source label of an inline payload; [None] when [new URL] throws. *)
Definition sourceNameOf (source_url : string) : option string :=
  if truthy source_url then
    if includes source_url "visitloudoun" then Some "Visit Loudoun Events"
    else if includes source_url "fxva.com" then Some "FXVA Events"
    else if includes source_url "virginia.org" then Some "Virginia Tourism Events"
    else if includes source_url "visitpwc" then Some "Prince William County Events"
    else if includes source_url "visitfauquier" then Some "Visit Fauquier Events"
    else if includes source_url "northernvirginiamag"
         then Some "Northern Virginia Magazine Events"
    else if includes source_url "discoverclarkecounty"
         then Some "Discover Clarke County Events"
    else URL_hostname source_url
  else Some "Unknown Source".

(** The loop over [requestBody.raw_data]; a payload whose label cannot
    be resolved throws inside the [try] and contributes nothing. *)
Fixpoint inlineEvents (now : Z) (startDate endDate : option Z) (raw : list RawData)
  : list PotentialEvent :=
  match raw with
  | [] => []
  | rawDataItem :: raw' =>
      (match sourceNameOf (rd_source_url rawDataItem) with
      | Some sourceName =>
          extractRSSEvents now (raw_content rawDataItem) (rd_source_url rawDataItem)
                           sourceName startDate endDate
      | None => []
      end ++ inlineEvents now startDate endDate raw')%list
  end.

(** The loop over the stored rows: extract, then mark as processed.
    [applied] tells which updates the backend applies; the update is the
    last statement of the [try], so one that is refused or throws leaves
    the run where an applied one does, with the row as it was. *)
Fixpoint storedEvents (applied : string -> bool) (now : Z)
  (startDate endDate : option Z)
  (rawEvents : list RawEvent) (table : list RawEvent)
  : list PotentialEvent * list RawEvent * list DbOp :=
  match rawEvents with
  | [] => ([], table, [])
  | rawEvent :: rest =>
      let extractedEvents :=
        extractRSSEvents now (re_raw_content rawEvent) (re_source_url rawEvent)
          (opt_or (re_source_name rawEvent) (re_source_url rawEvent))
          startDate endDate in
      let table1 :=
        if applied (id rawEvent) then markProcessed (id rawEvent) table else table in
      let '(events, table2, ops) :=
        storedEvents applied now startDate endDate rest table1 in
      ((extractedEvents ++ events)%list, table2, UpdateProcessed (id rawEvent) :: ops)
  end.

Definition sampleEvents (now : Z) : list PotentialEvent :=
  [ {| title := "Loudoun County Wine & Food Festival";
       description := "Annual celebration featuring local wineries, craft breweries, and artisan food vendors. Perfect opportunity for wine tourism and local partnerships.";
       link := "https://visitloudoun.org/events/wine-food-festival";
       published := iso_of_time now;
       location := None;
       source_name := "Visit Loudoun";
       source_url := "https://visitloudoun.org";
       event_date := Some (iso_of_time (now + 30 * 24 * 60 * 60 * 1000)) |};
    {| title := "Fall Harvest Market at Historic Downtown";
       description := "Weekly farmers market featuring local produce, artisan goods, and live music. Great venue for wine tastings and community engagement.";
       link := "https://example.com/harvest-market";
       published := iso_of_time now;
       location := None;
       source_name := "Local Events";
       source_url := "https://example.com";
       event_date := Some (iso_of_time (now + 14 * 24 * 60 * 60 * 1000)) |} ].

(** The first stage: the candidate set, the data-source tag, the table
    of raw events afterwards and the statements sent. *)
Definition gatherEvents (w : World) (requestBody : RequestPayload)
  (startDate endDate : option Z) (table : list RawEvent)
  : list PotentialEvent * string * list RawEvent * list DbOp :=
  match raw_data requestBody with
  | Some raw =>
      (inlineEvents (now w) startDate endDate raw, "google_apps_script_direct",
       table, [])
  | None =>
      let rawEvents :=
        if raw_events_readable w then selectUnprocessed table else [] in
      match rawEvents with
      | _ :: _ =>
          let '(events, table', ops) :=
            storedEvents (updateProcessed w) (now w) startDate endDate rawEvents table in
          (events, "database_stored", table', SelectUnprocessed :: ops)
      | [] => (sampleEvents (now w), "sample_events", table, [SelectUnprocessed])
      end
  end.

Definition hasKey (w : World) : bool := truthy (opt_or (OPENAI_API_KEY w) "").

(** Stage A.  [filteredEvents] starts as the whole candidate set and is
    only overwritten once the reply has been parsed. *)
Definition gatekeeper (w : World) (allPotentialEvents : list PotentialEvent)
  : list PotentialEvent :=
  if hasKey w then
    match completionArray "relevant_events" (gatekeeperReply w) with
    | Some relevant_events => relevant_events
    | None => allPotentialEvents
    end
  else allPotentialEvents.

(** The "basic event" the three fall-back branches of stage B build. *)
Definition basicEvent (now : Z) (event : PotentialEvent) : FilteredEvent :=
  {| event_name := title event;
     fe_event_date :=
       opt_or (event_date event)
              (before_T (iso_of_time (now + 30 * 24 * 60 * 60 * 1000)));
     event_location := opt_or (location event) "Location TBD";
     event_summary :=
       or_else (description event)
               "Marketing opportunity discovered through event scanning";
     event_url := link event;
     relevance_score := 7;
     fe_source_url := source_url event;
     fe_source_name := source_name event |}.

(** Stage B. *)
Definition enrichment (w : World) (filteredEvents : list PotentialEvent)
  : list FilteredEvent :=
  if hasKey w then
    match enhancedReply w with
    | Unreachable | NotJson | Completion None => map (basicEvent (now w)) filteredEvents
    | HttpError => map (basicEvent (now w)) filteredEvents
    | Completion (Some choices) =>
        match parsedArray "events" (firstContent choices) with
        | Some events => events
        | None => map (basicEvent (now w)) filteredEvents
        end
    end
  else map (basicEvent (now w)) filteredEvents.

(** [local_event_date]: [None] when [toISOString] throws, [Some None]
    for [null]. *)
Definition localEventDate (event : FilteredEvent) : option (option string) :=
  if truthy (fe_event_date event) then
    match toISOString (Date_parse (fe_event_date event)) with
    | Some s => Some (Some s)
    | None => None
    end
  else Some None.

(** The brief of one pair; [None] when building it throws. *)
Definition wineryBrief (w : World) (dataSource : string)
  (startDate endDate : option Z) (event : FilteredEvent) (winery : Winery)
  : option WineryBrief :=
  match localEventDate event with
  | None => None
  | Some date =>
      Some
        {| winery_id := w_id winery;
           suggested_theme := "Event Opportunity: " ++ event_name event;
           key_points :=
             [ "Event: " ++ event_name event;
               "Date: " ++ fe_event_date event;
               "Location: " ++ event_location event;
               "Summary: " ++ event_summary event;
               "Event URL: " ++ event_url event;
               "Relevance Score: " ++ string_of_Z (relevance_score event) ++ "/10";
               "Source: " ++ fe_source_url event;
               "Source Name: " ++ fe_source_name event;
               "Discovered: " ++ toLocaleDateString (Some (now w));
               "Data Source: " ++ dataSource;
               "Status: Non-competitor event - safe for marketing";
               "Date Range: " ++ toLocaleDateString startDate ++ " to "
                 ++ toLocaleDateString endDate ];
           local_event_name := event_name event;
           local_event_date := date;
           local_event_location := event_location event;
           seasonal_context :=
             "REAL NON-COMPETITOR EVENT discovered by Event Engine with AI Gatekeeper filtering. "
             ++ event_summary event
             ++ " This is a verified non-competitive opportunity happening "
             ++ fe_event_date event ++ " for " ++ winery_name winery
             ++ " to engage with the local wine community and create relevant marketing content. Event details and registration: "
             ++ event_url event |}
  end.

(** The state of the fan-out loops. *)
Record FanOut := {
  briefsCreatedCount : Z;
  briefs : list WineryBrief;
  sent : list DbOp
}.

Definition attempts (ops : list DbOp) : nat :=
  List.length (filter (fun o => match o with InsertBrief _ _ => true | _ => false end) ops).

(** The body of the inner loop for one pair. *)
Definition fanOutPair (w : World) (dataSource : string) (startDate endDate : option Z)
  (event : FilteredEvent) (st : FanOut) (winery : Winery) : FanOut :=
  match wineryBrief w dataSource startDate endDate event winery with
  | None => st
  | Some b =>
      let r := insertBrief w (attempts (sent st)) b in
      match r with
      | Inserted =>
          {| briefsCreatedCount := briefsCreatedCount st + 1;
             briefs := (briefs st ++ [b])%list;
             sent := (sent st ++ [InsertBrief b r])%list |}
      | Rejected | Threw =>
          {| briefsCreatedCount := briefsCreatedCount st;
             briefs := briefs st;
             sent := (sent st ++ [InsertBrief b r])%list |}
      end
  end.

Definition fanOutEvent (w : World) (dataSource : string) (startDate endDate : option Z)
  (wineries : list Winery) (st : FanOut) (event : FilteredEvent) : FanOut :=
  fold_left (fanOutPair w dataSource startDate endDate event) wineries st.

Definition fanOut (w : World) (dataSource : string) (startDate endDate : option Z)
  (finalEvents : list FilteredEvent) (wineries : list Winery) (st : FanOut) : FanOut :=
  fold_left (fanOutEvent w dataSource startDate endDate wineries) finalEvents st.

(** The [date_range] member of a response; [None] when [toISOString]
    throws on an Invalid Date. *)
Definition dateRangeOut (withDuration : bool) (startDate endDate : option Z)
  : option DateRange :=
  match startDate, endDate with
  | Some s, Some e =>
      Some {| dr_start := iso_of_time s;
              dr_end := iso_of_time e;
              duration_days :=
                if withDuration
                then Some (- ((- (e - s)) / (1000 * 60 * 60 * 24)))
                else None |}
  | _, _ => None
  end.

(** A response whose body needs the date range in ISO notation: a throw
    while the body is built reaches the outer [catch]. *)
Definition respond (dr : option DateRange) (body : DateRange -> Summary) : Response :=
  match dr with
  | Some d => Ok (body d)
  | None => InternalError InvalidTimeValue
  end.

Definition eventLine (withLocation : bool) (e : FilteredEvent) : EventLine :=
  {| el_name := event_name e;
     el_date := fe_event_date e;
     el_location := if withLocation then Some (event_location e) else None;
     el_relevance := relevance_score e;
     el_source := fe_source_name e;
     el_url := event_url e |}.

(** [requestBody.raw_data?.length || 0] *)
Definition rawSourcesProcessed (requestBody : RequestPayload) : Z :=
  match raw_data requestBody with
  | Some raw => len raw
  | None => 0
  end.

Definition noEventsBody (dataSource : string) (requestBody : RequestPayload)
  (d : DateRange) : Summary :=
  {| success := true;
     summary_message := "No events found in the specified date range";
     data_source := dataSource;
     raw_sources_processed := Some (rawSourcesProcessed requestBody);
     events_extracted := Some 0;
     events_after_gatekeeper := Some 0;
     competitor_events_filtered := None;
     events_final := Some 0;
     events_found := None;
     wineries_processed := None;
     briefs_created := None;
     out_date_range := d;
     events := None;
     sources_processed := None |}.

Definition noneRelevantBody (dataSource : string) (requestBody : RequestPayload)
  (allPotentialEvents : list PotentialEvent) (d : DateRange) : Summary :=
  {| success := true;
     summary_message := "No relevant non-competitor events found after filtering";
     data_source := dataSource;
     raw_sources_processed := Some (rawSourcesProcessed requestBody);
     events_extracted := Some (len allPotentialEvents);
     events_after_gatekeeper := Some 0;
     competitor_events_filtered := Some (len allPotentialEvents);
     events_final := Some 0;
     events_found := None;
     wineries_processed := None;
     briefs_created := None;
     out_date_range := d;
     events := None;
     sources_processed := None |}.

Definition noneFinalBody (dataSource : string) (requestBody : RequestPayload)
  (allPotentialEvents filteredEvents : list PotentialEvent) (d : DateRange) : Summary :=
  {| success := true;
     summary_message := "No events met final quality standards";
     data_source := dataSource;
     raw_sources_processed := Some (rawSourcesProcessed requestBody);
     events_extracted := Some (len allPotentialEvents);
     events_after_gatekeeper := Some (len filteredEvents);
     competitor_events_filtered := None;
     events_final := Some 0;
     events_found := None;
     wineries_processed := None;
     briefs_created := None;
     out_date_range := d;
     events := None;
     sources_processed := None |}.

Definition noWineriesBody (dataSource : string) (finalEvents : list FilteredEvent)
  (d : DateRange) : Summary :=
  {| success := true;
     summary_message := "Events found but no wineries to generate briefs for";
     data_source := dataSource;
     raw_sources_processed := None;
     events_extracted := None;
     events_after_gatekeeper := None;
     competitor_events_filtered := None;
     events_final := None;
     events_found := Some (len finalEvents);
     wineries_processed := None;
     briefs_created := None;
     out_date_range := d;
     events := Some (map (eventLine false) finalEvents);
     sources_processed := None |}.

Definition completeBody (dataSource : string) (requestBody : RequestPayload)
  (allPotentialEvents filteredEvents : list PotentialEvent)
  (finalEvents : list FilteredEvent) (wineries : list Winery)
  (briefsCreatedCount : Z) (d : DateRange) : Summary :=
  {| success := true;
     summary_message :=
       "FIXED Event Engine complete: processed " ++ string_of_Z (len finalEvents)
       ++ " non-competitor events from "
       ++ string_of_Z (rawSourcesProcessed requestBody)
       ++ " sources for " ++ string_of_Z (len wineries) ++ " wineries";
     data_source := dataSource;
     raw_sources_processed := Some (rawSourcesProcessed requestBody);
     events_extracted := Some (len allPotentialEvents);
     events_after_gatekeeper := Some (len filteredEvents);
     competitor_events_filtered :=
       Some (len allPotentialEvents - len filteredEvents);
     events_final := Some (len finalEvents);
     events_found := None;
     wineries_processed := Some (len wineries);
     briefs_created := Some briefsCreatedCount;
     out_date_range := d;
     events := Some (map (eventLine true) finalEvents);
     sources_processed :=
       match raw_data requestBody with
       | Some raw =>
           Some (map (fun r => (rd_source_url r,
                                Z.of_nat (String.length (raw_content r)))) raw)
       | None => Some []
       end |}.

(** The result of one request: the response, the store afterwards and
    the statements sent to it, in order. *)
Record Run := {
  response : Response;
  store : Store;
  statements : list DbOp
}.

(** The handler from the gatekeeper on, once the candidate set, the
    data-source tag and the table of raw events are known. *)
Definition classifyAndFanOut (w : World) (db : Store) (requestBody : RequestPayload)
  (startDate endDate : option Z) (allPotentialEvents : list PotentialEvent)
  (dataSource : string) (table : list RawEvent) (ops : list DbOp) : Run :=
  let db1 := {| raw_events := table; research_briefs := research_briefs db |} in
  match allPotentialEvents with
  | [] =>
      {| response := respond (dateRangeOut true startDate endDate)
                             (noEventsBody dataSource requestBody);
         store := db1; statements := ops |}
  | _ :: _ =>
      let filteredEvents := gatekeeper w allPotentialEvents in
      match filteredEvents with
      | [] =>
          {| response :=
               respond (dateRangeOut false startDate endDate)
                       (noneRelevantBody dataSource requestBody allPotentialEvents);
             store := db1; statements := ops |}
      | _ :: _ =>
          let finalEvents := enrichment w filteredEvents in
          match finalEvents with
          | [] =>
              {| response :=
                   respond (dateRangeOut false startDate endDate)
                           (noneFinalBody dataSource requestBody
                                          allPotentialEvents filteredEvents);
                 store := db1; statements := ops |}
          | _ :: _ =>
              let ops1 := (ops ++ [SelectWineries])%list in
              match wineries_error w, winery_profiles w with
              | Some msg, _ =>
                  {| response := InternalError (WineriesUnreadable msg);
                     store := db1; statements := ops1 |}
              | None, [] =>
                  {| response :=
                       respond (dateRangeOut false startDate endDate)
                               (noWineriesBody dataSource finalEvents);
                     store := db1; statements := ops1 |}
              | None, (_ :: _) as wineries =>
                  let st :=
                    fanOut w dataSource startDate endDate finalEvents wineries
                      {| briefsCreatedCount := 0;
                         briefs := research_briefs db;
                         sent := ops1 |} in
                  {| response :=
                       respond (dateRangeOut true startDate endDate)
                               (completeBody dataSource requestBody
                                  allPotentialEvents filteredEvents finalEvents
                                  wineries (briefsCreatedCount st));
                     store := {| raw_events := table; research_briefs := briefs st |};
                     statements := sent st |}
              end
          end
      end
  end.

Definition serve (w : World) (db : Store) (req : Request) : Run :=
  if String.eqb (method req) "OPTIONS" then
    {| response := Preflight; store := db; statements := [] |}
  else if negb (String.eqb (method req) "POST") then
    {| response := MethodNotAllowed; store := db; statements := [] |}
  else
    match json req with
    | None =>
        {| response := InternalError BadRequestBody; store := db; statements := [] |}
    | Some requestBody =>
        let '(startDate, endDate) := resolveDateRange (now w) requestBody in
        let '(allPotentialEvents, dataSource, table, ops) :=
          gatherEvents w requestBody startDate endDate (raw_events db) in
        classifyAndFanOut w db requestBody startDate endDate
                          allPotentialEvents dataSource table ops
    end.

End Handler.

End ScanLocalEvents.

(* ================================================================== *)
(** ** ingest-raw-events: the asynchronous ingestion push *)
(* ================================================================== *)

Module IngestRawEvents.
Import JS.

Record GoogleAppsScriptEvent := {
  title : string;
  link : string;
  description : string;
  pubDate : string
}.

(** The [events] member of the payload. *)
Inductive EventsField :=
| Missing                                   (* absent or falsy *)
| NotAnArray                                (* truthy, but not an array *)
| Events (l : list GoogleAppsScriptEvent).

Record Request := {
  method : string;
  (** [await req.json()]; [None] when it rejects or yields [null] *)
  json : option EventsField
}.

(** A row as the function hands it to the storage backend. *)
Record NewRawEvent := {
  source_url : string;
  source_name : string;
  raw_content : string;
  is_processed : bool;
  scrape_timestamp : string;
  apify_run_id : string
}.

(** What the backend answers for one batch: the rows it stored, an error,
    or a thrown exception. *)
Inductive BatchResult :=
| Stored
| BatchError
| BatchThrew.

Record World := {
  now : Z;
  insertBatch : nat -> list NewRawEvent -> BatchResult
}.

Record Body := {
  success : bool;
  body_message : string;
  events_received : option Z;
  events_processed : Z;
  events_skipped : option Z;
  batches_processed : option Z;
  sources_summary : option (list string)
}.

Inductive Response :=
| Preflight                              (* OPTIONS: 200, no body *)
| MethodNotAllowed                       (* 405 *)
| BadRequest                             (* 400: events is not an array *)
| Ok (body : Body)                       (* 200 *)
| InternalError.                         (* 500 *)

Definition status (r : Response) : Z :=
  match r with
  | Preflight => 200
  | MethodNotAllowed => 405
  | BadRequest => 400
  | Ok _ => 200
  | InternalError => 500
  end.

Definition len {A : Type} (l : list A) : Z := Z.of_nat (List.length l).

Definition newline : string := String (ascii_of_nat 10) EmptyString.

Section Handler.
Context {H : Host}.

Definition sourceNameOf (link : string) : string :=
  if truthy link then
    match URL_hostname link with
    | Some h =>
        let hostname := toLowerCase h in
        if includes hostname "visitloudoun" then "Visit Loudoun Events"
        else if includes hostname "fxva.com" then "FXVA Events"
        else if includes hostname "virginia.org" then "Virginia Tourism Events"
        else if includes hostname "visitpwc" then "Prince William County Events"
        else if includes hostname "visitfauquier" then "Visit Fauquier Events"
        else if includes hostname "northernvirginiamag"
             then "Northern Virginia Magazine Events"
        else if includes hostname "discoverclarkecounty"
             then "Discover Clarke County Events"
        else hostname
    | None => "Invalid URL Source"
    end
  else "Unknown Source".

(** The body of the validation loop for one event: the row to insert,
    or [None] when the event is skipped. *)
Definition rowOf (now : Z) (event : GoogleAppsScriptEvent) : option NewRawEvent :=
  if negb (truthy (title event)) || negb (truthy (description event)) then None
  else if ((String.length (title event) <? 5)
           || (500 <? String.length (title event)))%nat then None
  else
    Some {| source_url := or_else (link event) "https://google-apps-script-source";
            source_name := sourceNameOf (link event);
            raw_content :=
              "Title: " ++ title event ++ newline
              ++ "Description: " ++ description event ++ newline
              ++ "Link: " ++ or_else (link event) "No link provided" ++ newline
              ++ "Published: " ++ or_else (pubDate event) "No date provided";
            is_processed := false;
            scrape_timestamp := iso_of_time now;
            apify_run_id := "google-apps-script-" ++ string_of_Z now |}.

Fixpoint rowsOf (now : Z) (events : list GoogleAppsScriptEvent) : list NewRawEvent :=
  match events with
  | [] => []
  | e :: events' =>
      match rowOf now e with
      | Some r => r :: rowsOf now events'
      | None => rowsOf now events'
      end
  end.

Definition batchSize : nat := 50.

(** The batch loop: the table afterwards and the rows inserted. *)
Fixpoint insertBatches (w : World) (fuel : nat) (k : nat) (rows : list NewRawEvent)
  (table : list NewRawEvent) (inserted : list NewRawEvent)
  : list NewRawEvent * list NewRawEvent :=
  match fuel, rows with
  | S fuel', _ :: _ =>
      let batch := firstn batchSize rows in
      match insertBatch w k batch with
      | Stored =>
          insertBatches w fuel' (S k) (skipn batchSize rows)
                        (table ++ batch)%list (inserted ++ batch)%list
      | BatchError | BatchThrew =>
          insertBatches w fuel' (S k) (skipn batchSize rows) table inserted
      end
  | _, _ => (table, inserted)
  end.

(** [[...new Set(names)]]: the distinct names in order of first
    appearance. *)
Fixpoint distinct (names seen : list string) : list string :=
  match names with
  | [] => []
  | n :: names' =>
      if existsb (String.eqb n) seen then distinct names' seen
      else n :: distinct names' (n :: seen)
  end.

Definition serve (w : World) (table : list NewRawEvent) (req : Request)
  : Response * list NewRawEvent :=
  if String.eqb (method req) "OPTIONS" then (Preflight, table)
  else if negb (String.eqb (method req) "POST") then (MethodNotAllowed, table)
  else
    match json req with
    | None => (InternalError, table)
    | Some Missing | Some NotAnArray => (BadRequest, table)
    | Some (Events []) =>
        (Ok {| success := true;
               body_message := "No events to process";
               events_received := None;
               events_processed := 0;
               events_skipped := None;
               batches_processed := None;
               sources_summary := None |}, table)
    | Some (Events ((_ :: _) as events)) =>
        let rawEventsToInsert := rowsOf (now w) events in
        let skippedEventCount := len events - len rawEventsToInsert in
        match rawEventsToInsert with
        | [] =>
            (Ok {| success := true;
                   body_message := "No valid events found to process";
                   events_received := Some (len events);
                   events_processed := 0;
                   events_skipped := Some skippedEventCount;
                   batches_processed := None;
                   sources_summary := None |}, table)
        | _ :: _ =>
            let '(table', insertedEvents) :=
              insertBatches w (List.length rawEventsToInsert) 0 rawEventsToInsert
                            table [] in
            let totalInserted := len insertedEvents in
            (Ok {| success := true;
                   body_message :=
                     "Successfully ingested " ++ string_of_Z totalInserted
                     ++ " events from Google Apps Script";
                   events_received := Some (len events);
                   events_processed := totalInserted;
                   events_skipped := Some skippedEventCount;
                   batches_processed :=
                     Some (- ((- len rawEventsToInsert) / Z.of_nat batchSize));
                   sources_summary :=
                     Some (distinct (map source_name insertedEvents) []) |}, table')
        end
    end.

End Handler.

End IngestRawEvents.

(* ================================================================== *)
(** ** src/components/dashboard/EventEngine.tsx

    The dashboard lists the rows of [research_briefs]; the link it shows
    for a row is read back from the row's key points. *)

Module EventEngine.
Import JS.

Definition non_space : regex := Chr (fun a => negb (is_space a)).

(** [/https?:\/\/[^\s]+/] *)
Definition urlRegex : regex :=
  seqs [lit "http"; opt (ch "s"); lit "://"; plus non_space].

(** The predicate of [key_points.find]. *)
Definition mentionsUrl (point : string) : bool :=
  includes point "http" || includes point "Event URL:" || includes point "Source:".

(** [getEventUrl]: [None] is [null].  A point that passes the predicate
    is never the empty string, so the test [if (urlPoint)] is that of a
    point having been found. *)
Definition getEventUrl (brief : ScanLocalEvents.WineryBrief) : option string :=
  match find mentionsUrl (ScanLocalEvents.key_points brief) with
  | Some urlPoint =>
      match exec urlRegex urlPoint with
      | Some urlMatch => Some (m_text urlMatch)
      | None => None
      end
  | None => None
  end.

End EventEngine.

(* ================================================================== *)
(** ** google-apps-script/event-scraper.js

    The text cleaning the scraper applies to the titles and descriptions
    it pushes to the ingestion function. *)

Module EventScraper.
Import JS.

Definition quote : string := String (ascii_of_nat 34) EmptyString.

(** [cleanText] *)
Definition cleanText (text : string) : string :=
  if negb (truthy text) then ""
  else
    let text := replace ScanLocalEvents.tagRegex " " text in
    let text := replace (lit "&amp;") "&" text in
    let text := replace (lit "&lt;") "<" text in
    let text := replace (lit "&gt;") ">" text in
    let text := replace (lit "&quot;") quote text in
    let text := replace (lit "&#39;") "'" text in
    let text := replace (lit "&nbsp;") " " text in
    trim (replace (plus space) " " text).

End EventScraper.

(* ================================================================== *)
(** ** supabase/functions/sommelier-writer

    The title the writing function gives a generated draft before it
    stores it. *)

Module SommelierWriter.
Import JS.

Definition lineFeed : ascii := ascii_of_nat 10.

(** [s.split(sep)] for a separator of one character. *)
Fixpoint split (sep : ascii) (s : string) : list string :=
  match s with
  | EmptyString => [EmptyString]
  | String a s' =>
      if chr_eq sep a then EmptyString :: split sep s'
      else match split sep s' with
           | l :: ls => String a l :: ls
           | [] => [String a EmptyString]
           end
  end.

(** [/^#+\s*/] *)
Definition hashesRegex : regex := Seq (plus (ch "#")) (Star true space).

Definition one_to_six : regex :=
  Chr (fun a => ((49 <=? code a) && (code a <=? 54))%nat).

(** [/<h[1-6][^>]*>(.*?)<\/h[1-6]>/i] *)
Definition headingRegex : regex :=
  seqs [ch "<"; chi "h"; one_to_six; Star true ScanLocalEvents.not_gt; ch ">";
        Group 1 (Star false dot);
        lit "</"; chi "h"; one_to_six; ch ">"].

(** [s.replace(r, by)] for a pattern without the global flag that is
    anchored at the start of the input. *)
Definition replace_head (r : regex) (by_ : string) (s : string) : string :=
  match match_here r s with
  | Some (_, _, rest) => by_ ++ rest
  | None => s
  end.

(** [contentTitle], from the topic of the request and the generated
    text.  The group of the heading pattern takes part in every match,
    so [match[1]] is a string. *)
Definition contentTitle (primary_topic generatedContent : string) : string :=
  let lines :=
    filter (fun line => truthy (trim line)) (split lineFeed generatedContent) in
  match lines with
  | [] => primary_topic
  | line :: _ =>
      let firstLine := trim line in
      if startsWith "#" firstLine then replace_head hashesRegex "" firstLine
      else
        match exec headingRegex firstLine with
        | Some m => opt_or (grp m 1) ""
        | None =>
            if ((10 <? String.length firstLine)
                && (String.length firstLine <? 100))%nat
            then firstLine
            else primary_topic
        end
  end.

End SommelierWriter.

(* ================================================================== *)
(** ** A concrete runtime for closed examples *)
(* ================================================================== *)

(** The edge runtime with its local time zone set to UTC.  The date
    parser is restricted to the two ISO notations the pipeline itself
    writes, [YYYY-MM-DD] and [YYYY-MM-DDTHH:mm:ss.sssZ]; the examples
    below pass it no other date text. *)
Module Runtime.
Import JS.

Definition dd : regex := Seq digit digit.

Definition isoRegex : regex :=
  seqs [Group 1 (Seq dd dd); ch "-"; Group 2 dd; ch "-"; Group 3 dd;
        opt (seqs [ch "T"; Group 4 dd; ch ":"; Group 5 dd; ch ":"; Group 6 dd;
                   opt (seqs [ch "."; Group 7 (Seq digit dd)]); ch "Z"]);
        NotAhead any_char].

Definition num (c : captures) (n : nat) : Z :=
  match capture c n with
  | Some g => match parseInt g with Some v => v | None => 0 end
  | None => 0
  end.

Definition isoParse (s : string) : option Z :=
  match match_here isoRegex s with
  | Some (_, c, _) =>
      if (1 <=? num c 2) && (num c 2 <=? 12) && (1 <=? num c 3) && (num c 3 <=? 31)
         && (num c 4 <=? 23) && (num c 5 <=? 59) && (num c 6 <=? 59)
      then Some (MakeDate (MakeDay (num c 1) (num c 2 - 1) (num c 3))
                          (num c 4 * 3600000 + num c 5 * 60000 + num c 6 * 1000 + num c 7))
      else None
  | None => None
  end.

(** The [en-US] notation, [M/D/YYYY]. *)
Definition usDate (d : option Z) : string :=
  match d with
  | Some t =>
      string_of_Z (MonthFromTime t + 1) ++ "/" ++ string_of_Z (DateFromTime t)
      ++ "/" ++ string_of_Z (YearFromTime t)
  | None => "Invalid Date"
  end.

Definition hostRegex : regex :=
  seqs [plus (Chr (fun a => negb (chr_eq a ":"))); lit "://";
        Group 1 (plus (Chr (fun a => negb (chr_eq a "/" || chr_eq a ":"
                                             || chr_eq a "?" || chr_eq a "#"))))].

Definition hostnameOf (s : string) : option string :=
  match match_here hostRegex s with
  | Some (_, c, _) => option_map toLowerCase (capture c 1)
  | None => None
  end.

#[local] Instance utc : Host :=
  {| LocalTZA := 0;
     Date_parse := isoParse;
     toLocaleDateString := usDate;
     URL_hostname := hostnameOf |}.

End Runtime.

(* ================================================================== *)
(** ** Vocabulary of the properties *)
(* ================================================================== *)

Import JS ScanLocalEvents.

(** The ways a call of the completion service leaves its [try] block
    without a parsed reply: the request fails, the status is an error,
    the body is not JSON or has no [choices], or the message content is
    not JSON text or is the text [null]. *)
Inductive Fails {A : Type} : Reply A -> Prop :=
| fails_unreachable : Fails Unreachable
| fails_status : Fails HttpError
| fails_body : Fails NotJson
| fails_no_choices : Fails (Completion None)
| fails_malformed choices :
    firstContent choices = Some Malformed -> Fails (Completion (Some choices))
| fails_null choices :
    firstContent choices = Some (Text JNull) -> Fails (Completion (Some choices)).

(** The replies the source reads as an empty array: no message content
    (the literal default is parsed instead), or JSON text without a
    truthy member [key]. *)
Inductive ReadsEmpty {A : Type} (key : string) : Reply A -> Prop :=
| empty_no_content choices :
    firstContent choices = None -> ReadsEmpty key (Completion (Some choices))
| empty_blank choices :
    firstContent choices = Some Blank -> ReadsEmpty key (Completion (Some choices))
| empty_scalar choices :
    firstContent choices = Some (Text JScalar) ->
    ReadsEmpty key (Completion (Some choices))
| empty_no_member choices ms :
    firstContent choices = Some (Text (JObject ms)) ->
    member key ms = None \/ member key ms = Some None ->
    ReadsEmpty key (Completion (Some choices)).

(** The reply has the structure the prompt asks for: a first choice whose
    message content is JSON text of an object with an array under [key]. *)
Definition structured {A : Type} (key : string) (r : Reply A) : bool :=
  match r with
  | Completion (Some choices) =>
      match firstContent choices with
      | Some (Text (JObject ms)) =>
          match member key ms with
          | Some (Some _) => true
          | _ => false
          end
      | _ => false
      end
  | _ => false
  end.

(** A reply whose first choice carries the content [c]. *)
Definition replyWith {A : Type} (c : Content A) : Reply A :=
  Completion (Some [ {| message := Some {| content := Some c |} |} ]).

(** The date the fall-back of stage B assigns to an undated candidate:
    the calendar day thirty days after the request. *)
Definition thirtyDaysOut (now : Z) : string :=
  before_T (iso_of_time (now + 30 * msPerDay)).

(** The enriched event the specification describes for the fall-back. *)
Definition mappedAsSpecified (now : Z) (c : PotentialEvent) (e : FilteredEvent) : Prop :=
  event_name e = title c
  /\ event_summary e = description c
  /\ event_url e = link c
  /\ relevance_score e = 7
  /\ fe_event_date e = match event_date c with
                       | Some d => d
                       | None => thirtyDaysOut now
                       end.

(** A candidate and worlds for closed examples. *)
Definition noon : Z := 1750000000000.

Definition fair : PotentialEvent :=
  {| title := "Loudoun County Fair";
     description := "";
     link := "https://visitloudoun.org/fair";
     published := "";
     location := None;
     source_name := "Visit Loudoun Events";
     source_url := "https://visitloudoun.org/feed";
     event_date := None |}.

Definition quietWorld : World :=
  {| now := noon;
     OPENAI_API_KEY := None;
     raw_events_readable := true;
     winery_profiles := [ {| w_id := "w1"; winery_name := "Stone Tower";
                             w_location := "Leesburg" |} ];
     wineries_error := None;
     gatekeeperReply := Unreachable;
     enhancedReply := Unreachable;
     insertBrief := fun _ _ => Inserted;
     updateProcessed := fun _ => true |}.

(** The same world with a service credential and the given replies. *)
Definition withService (g : Reply PotentialEvent) (e : Reply FilteredEvent) : World :=
  {| now := noon;
     OPENAI_API_KEY := Some "sk-test";
     raw_events_readable := true;
     winery_profiles := winery_profiles quietWorld;
     wineries_error := None;
     gatekeeperReply := g;
     enhancedReply := e;
     insertBrief := fun _ _ => Inserted;
     updateProcessed := fun _ => true |}.

(** What the fall-back of stage B does build from a candidate. *)
Definition mappedByFallback (now : Z) (c : PotentialEvent) (e : FilteredEvent) : Prop :=
  event_name e = title c
  /\ event_summary e =
       (if truthy (description c) then description c
        else "Marketing opportunity discovered through event scanning")
  /\ event_url e = link c
  /\ relevance_score e = 7
  /\ fe_event_date e = match event_date c with
                       | Some d => if truthy d then d else thirtyDaysOut now
                       | None => thirtyDaysOut now
                       end.

Definition emptyStore : Store := {| raw_events := []; research_briefs := [] |}.

(** A scan request without a date range and without inline payloads. *)
Definition scanStored : Request :=
  {| method := "POST"; json := Some {| date_range := None; raw_data := None |} |}.

Definition lowScore : FilteredEvent :=
  {| event_name := "Loudoun County Wine & Food Festival";
     fe_event_date := "2025-07-15";
     event_location := "Leesburg";
     event_summary := "A county festival.";
     event_url := "https://visitloudoun.org/events/wine-food-festival";
     relevance_score := 3;
     fe_source_url := "https://visitloudoun.org";
     fe_source_name := "Visit Loudoun" |}.

Definition lowScoreWorld : World :=
  withService Unreachable (replyWith (Text (JObject [("events", Some [lowScore])]))).

(** A feed with a dated item inside the window used below, an undated
    item and a dated item outside the window. *)
Definition festivalFeed : string :=
  "<rss><channel><item><title>Loudoun Wine Festival 3/15/2025</title><link>https://visitloudoun.org/wine</link></item><item><title>Harvest Market</title><description>Weekly &amp; local</description></item><item><title>Gala 12/31/2025</title></item></channel></rss>".

Definition festival : PotentialEvent :=
  {| title := "Loudoun Wine Festival 3/15/2025";
     description := "";
     link := "https://visitloudoun.org/wine";
     published := "";
     location := None;
     source_name := "Visit Loudoun Events";
     source_url := "https://visitloudoun.org/feed";
     event_date := Some "2025-03-15T00:00:00.000Z" |}.




(** An ingestion push with an empty array of events, and a table with
    one row stored earlier. *)
Definition emptyPush : IngestRawEvents.Request :=
  {| IngestRawEvents.method := "POST";
     IngestRawEvents.json := Some (IngestRawEvents.Events []) |}.

Definition ingestWorld : IngestRawEvents.World :=
  {| IngestRawEvents.now := noon;
     IngestRawEvents.insertBatch := fun _ _ => IngestRawEvents.Stored |}.

Definition storedEarlier : list IngestRawEvents.NewRawEvent :=
  [ {| IngestRawEvents.source_url := "https://visitloudoun.org/fair";
       IngestRawEvents.source_name := "Visit Loudoun Events";
       IngestRawEvents.raw_content := "Title: Loudoun County Fair";
       IngestRawEvents.is_processed := false;
       IngestRawEvents.scrape_timestamp := "2025-06-01T00:00:00.000Z";
       IngestRawEvents.apify_run_id := "google-apps-script-1748736000000" |} ].

(** Names for the values one run of the handler computes on its way. *)
Section RunVocabulary.
Context {H : Host}.

Definition gathered (w : World) (db : Store) (requestBody : RequestPayload)
  : list PotentialEvent * string * list RawEvent * list DbOp :=
  gatherEvents w requestBody
    (fst (resolveDateRange (now w) requestBody))
    (snd (resolveDateRange (now w) requestBody)) (raw_events db).

Definition candidatesOf (w : World) (db : Store) (requestBody : RequestPayload)
  : list PotentialEvent :=
  fst (fst (fst (gathered w db requestBody))).

Definition dataSourceOf (w : World) (db : Store) (requestBody : RequestPayload)
  : string :=
  snd (fst (fst (gathered w db requestBody))).

Definition tableOf (w : World) (db : Store) (requestBody : RequestPayload)
  : list RawEvent :=
  snd (fst (gathered w db requestBody)).

Definition finalEventsOf (w : World) (db : Store) (requestBody : RequestPayload)
  : list FilteredEvent :=
  enrichment w (gatekeeper w (candidatesOf w db requestBody)).

(** The run gets as far as the fan-out loops. *)
Definition reachesFanOut (w : World) (db : Store) (requestBody : RequestPayload)
  : Prop :=
  candidatesOf w db requestBody <> []
  /\ gatekeeper w (candidatesOf w db requestBody) <> []
  /\ finalEventsOf w db requestBody <> []
  /\ wineries_error w = None
  /\ winery_profiles w <> [].

(** Both ends of the date window are valid dates. *)
Definition validWindow (w : World) (requestBody : RequestPayload) : Prop :=
  exists a b, resolveDateRange (now w) requestBody = (Some a, Some b).

(** The event date of an enriched event is empty or parses as a date, so
    that its briefs can be built. *)
Definition usable (e : FilteredEvent) : bool :=
  match localEventDate e with
  | Some _ => true
  | None => false
  end.

End RunVocabulary.

(** Insertions that succeeded and insertions that failed, among the
    statements of a run. *)
Definition created (ops : list DbOp) : nat :=
  List.length (filter (fun o => match o with
                                | InsertBrief _ Inserted => true
                                | _ => false
                                end) ops).

Definition failed (ops : list DbOp) : nat :=
  List.length (filter (fun o => match o with
                                | InsertBrief _ Rejected | InsertBrief _ Threw => true
                                | _ => false
                                end) ops).

(** The fan-out state [st'] continues [st] by [n] insertions (and no
    other statement), counting those that succeeded. *)
Definition continues (n : nat) (st st' : FanOut) : Prop :=
  exists tail,
    sent st' = (sent st ++ tail)%list
    /\ Forall (fun o => match o with InsertBrief _ _ => True | _ => False end) tail
    /\ List.length tail = n
    /\ briefsCreatedCount st' = briefsCreatedCount st + Z.of_nat (created tail).

(** The rows a run asked the backend to mark as processed. *)
Fixpoint updatesOf (ops : list DbOp) : list string :=
  match ops with
  | [] => []
  | UpdateProcessed row :: ops' => row :: updatesOf ops'
  | _ :: ops' => updatesOf ops'
  end.

(** The row as the update leaves it: the flag set, then the trigger. *)
Definition afterUpdate (r : RawEvent) : RawEvent :=
  set_content_length (set_is_processed true r).

(** The row's [id] is among [ids]. *)
Definition isOneOf (ids : list string) (r : RawEvent) : bool :=
  existsb (String.eqb (id r)) ids.

(** The table obeys its schema: [id] is a key and [content_length] is
    what the trigger derives from [raw_content]. *)
Definition obeysSchema (table : list RawEvent) : Prop :=
  NoDup (map id table)
  /\ Forall (fun r => content_length r = Z.of_nat (String.length (re_raw_content r)))
            table.

(** The row [r'] is the row [r] in every field but the flag. *)
Definition sameButFlag (r r' : RawEvent) : Prop :=
  id r' = id r /\ created_at r' = created_at r
  /\ re_source_url r' = re_source_url r /\ re_source_name r' = re_source_name r
  /\ re_raw_content r' = re_raw_content r /\ content_length r' = content_length r
  /\ scrape_timestamp r' = scrape_timestamp r /\ apify_run_id r' = apify_run_id r
  /\ error_message r' = error_message r.

(** The quiet world with a backend that refuses every update. *)
Definition refusingWorld : World :=
  {| now := noon;
     OPENAI_API_KEY := None;
     raw_events_readable := true;
     winery_profiles := winery_profiles quietWorld;
     wineries_error := None;
     gatekeeperReply := Unreachable;
     enhancedReply := Unreachable;
     insertBrief := fun _ _ => Inserted;
     updateProcessed := fun _ => false |}.

(** A scan request with inline payloads whose date range is not made of
    dates. *)
Definition scanInvalidWindow : Request :=
  {| method := "POST";
     json := Some {| date_range := Some ("soon", "later");
                     raw_data := Some [ {| rd_source_url := "https://visitloudoun.org/feed";
                                           raw_content := festivalFeed |} ] |} |}.

(** An enriched event whose date the service left as free text. *)
Definition undatedByService : FilteredEvent :=
  {| event_name := "Loudoun County Wine & Food Festival";
     fe_event_date := "TBD";
     event_location := "Leesburg";
     event_summary := "A county festival.";
     event_url := "https://visitloudoun.org/events/wine-food-festival";
     relevance_score := 8;
     fe_source_url := "https://visitloudoun.org";
     fe_source_name := "Visit Loudoun" |}.

Definition freeTextDateWorld : World :=
  withService Unreachable
              (replyWith (Text (JObject [("events", Some [undatedByService])]))).

Definition scanStoredBody : RequestPayload :=
  {| date_range := None; raw_data := None |}.

(** Two stored rows, one of them consumed by an earlier run. *)
Definition pendingRow : RawEvent :=
  {| id := "row-1"; created_at := 1749000000000;
     re_source_url := "https://visitloudoun.org/fair";
     re_source_name := Some "Visit Loudoun Events";
     re_raw_content := "Title: Loudoun County Fair";
     content_length := 26;
     is_processed := false;
     scrape_timestamp := 1749000000000;
     apify_run_id := Some "google-apps-script-1749000000000";
     error_message := None |}.

Definition consumedRow : RawEvent :=
  {| id := "row-0"; created_at := 1748000000000;
     re_source_url := "https://fxva.com/gala";
     re_source_name := None;
     re_raw_content := "Title: Spring Gala";
     content_length := 18;
     is_processed := true;
     scrape_timestamp := 1748000000000;
     apify_run_id := None;
     error_message := None |}.

Definition twoRows : Store :=
  {| raw_events := [consumedRow; pendingRow]; research_briefs := [] |}.

(** No character of the string is a decimal digit. *)
Fixpoint noDigit (s : string) : bool :=
  match s with
  | EmptyString => true
  | String a s' => negb (is_digit a) && noDigit s'
  end.

(** The first of the date patterns, and the match it finds in
    [3/15/2025]. *)
Definition numericWithYear : regex :=
  seqs [Group 1 d12; slash_or_dash; Group 2 d12; slash_or_dash; Group 3 d4].

Definition march15 : Match :=
  {| m_index := 0; m_text := "3/15/2025";
     m_groups := [(3%nat, "2025"); (2%nat, "15"); (1%nat, "3")] |}.

(** An instant in November 2026. *)
Definition nextAutumn : Z := 1794000000000.

(** *** Vocabulary of the further properties *)

(** Every match of the pattern takes in a character of the class [q]. *)
Fixpoint needs (q : ascii -> bool) (r : regex) : Prop :=
  match r with
  | Chr p => forall a, p a = true -> q a = true
  | Seq r1 r2 => needs q r1 \/ needs q r2
  | Alt r1 r2 => needs q r1 /\ needs q r2
  | Group _ r' => needs q r'
  | _ => False
  end.

(** No character of the string is in the class [q]. *)
Fixpoint lacks (q : ascii -> bool) (s : string) : bool :=
  match s with
  | EmptyString => true
  | String a s' => negb (q a) && lacks q s'
  end.

(** The loop of a starred pattern, by name. *)
Definition starLoop (g : bool) (r : regex) (A : Type)
  (k : string -> captures -> option A) : nat -> string -> captures -> option A :=
  fix loop (fuel : nat) (s : string) (c : captures) {struct fuel} : option A :=
    match fuel with
    | O => k s c
    | S fuel' =>
        let again :=
          rmatch r A s c
            (fun s1 c1 =>
               if (String.length s1 <? String.length s)%nat
               then loop fuel' s1 c1 else None) in
        if g
        then match again with Some x => Some x | None => k s c end
        else match k s c with Some x => Some x | None => again end
    end.

(** The backtracking of a greedy star over one character class, written
    on the string: the longest run first, then shorter ones. *)
Fixpoint greedyRun (p : ascii -> bool) (A : Type) (k : string -> option A)
  (s : string) : option A :=
  match s with
  | String a s' =>
      if p a
      then match greedyRun p A k s' with Some x => Some x | None => k s end
      else k s
  | EmptyString => k s
  end.

(** [s'] is what is left of [s] after some prefix. *)
Definition restOf (s' s : string) : Prop := exists p, s = p ++ s'.

(** The character is the opening angle bracket. *)
Definition isLt (a : ascii) : bool := chr_eq "<" a.

(** The briefs the backend stored, among the statements of a run. *)
Fixpoint insertedBriefs (ops : list DbOp) : list WineryBrief :=
  match ops with
  | [] => []
  | InsertBrief b Inserted :: ops' => b :: insertedBriefs ops'
  | _ :: ops' => insertedBriefs ops'
  end.

(** The string starts, or ends, with a white-space character. *)
Definition startsWithSpace (s : string) : bool :=
  match s with
  | String a _ => is_space a
  | EmptyString => false
  end.

Fixpoint endsWithSpace (s : string) : bool :=
  match s with
  | EmptyString => false
  | String a EmptyString => is_space a
  | String _ s' => endsWithSpace s'
  end.

(** The character is the closing angle bracket. *)
Definition isGt (a : ascii) : bool := chr_eq ">" a.

(** No opening angle bracket of the string is followed, anywhere later,
    by a closing one: the string holds no markup tag. *)
Fixpoint tagFree (s : string) : bool :=
  match s with
  | EmptyString => true
  | String a s' => (negb (isLt a) || lacks isGt s') && tagFree s'
  end.

(** The fan-out state [st'] continues [st] by insertions only, and holds
    the briefs and the count of those that succeeded. *)
Definition appends (st st' : FanOut) : Prop :=
  exists tail,
    sent st' = (sent st ++ tail)%list
    /\ Forall (fun o => match o with InsertBrief _ _ => True | _ => False end) tail
    /\ briefs st' = (briefs st ++ insertedBriefs tail)%list
    /\ briefsCreatedCount st' = briefsCreatedCount st + len (insertedBriefs tail).

Section MoreRunVocabulary.
Context {H : Host}.

(** The run gets as far as reading the tenant profiles. *)
Definition readsWineries (w : World) (db : Store) (requestBody : RequestPayload)
  : Prop :=
  candidatesOf w db requestBody <> []
  /\ gatekeeper w (candidatesOf w db requestBody) <> []
  /\ finalEventsOf w db requestBody <> [].

(** The briefs of all pairs, event by event and, within an event, profile
    by profile. *)
Definition pairBriefs (w : World) (dataSource : string) (startDate endDate : option Z)
  (finalEvents : list FilteredEvent) (wineries : list Winery)
  : list (option WineryBrief) :=
  flat_map (fun event =>
              map (wineryBrief w dataSource startDate endDate event) wineries)
           finalEvents.

End MoreRunVocabulary.

(** Every insertion of the run succeeds. *)
Definition allInserted (w : World) : Prop :=
  forall k b, insertBrief w k b = Inserted.

(** Every batch handed to the ingestion store is stored. *)
Definition allStored (w : IngestRawEvents.World) : Prop :=
  forall k batch, IngestRawEvents.insertBatch w k batch = IngestRawEvents.Stored.

(** The event passes the validation of the ingestion push. *)
Definition accepted (e : IngestRawEvents.GoogleAppsScriptEvent) : Prop :=
  IngestRawEvents.title e <> "" /\ IngestRawEvents.description e <> ""
  /\ (5 <= String.length (IngestRawEvents.title e) <= 500)%nat.

(** The character is the letter the address pattern starts with. *)
Definition isH (a : ascii) : bool := chr_eq "h" a.

(** Every white-space character of the string is a space that no
    white-space character follows. *)
Fixpoint singleSpaced (s : string) : bool :=
  match s with
  | EmptyString => true
  | String a s' =>
      (negb (is_space a) || (chr_eq " " a && negb (startsWithSpace s')))
      && singleSpaced s'
  end.

(** The character is the line feed. *)
Definition isLineFeed (a : ascii) : bool := chr_eq SommelierWriter.lineFeed a.

(** A scan request that carries the festival feed inline, with the year
    2025 as its window. *)
Definition scanFestival : Request :=
  {| method := "POST";
     json := Some {| date_range := Some ("2025-01-01", "2025-12-31");
                     raw_data := Some [ {| rd_source_url := "https://visitloudoun.org/feed";
                                           raw_content := festivalFeed |} ] |} |}.

Definition festivalPayload : RequestPayload :=
  {| date_range := Some ("2025-01-01", "2025-12-31");
     raw_data := Some [ {| rd_source_url := "https://visitloudoun.org/feed";
                           raw_content := festivalFeed |} ] |}.

(** The undated candidate of the festival feed. *)
Definition harvestMarket : PotentialEvent :=
  {| title := "Harvest Market";
     description := "Weekly   local";
     link := "https://visitloudoun.org/feed";
     published := "";
     location := None;
     source_name := "Visit Loudoun Events";
     source_url := "https://visitloudoun.org/feed";
     event_date := None |}.

(** The last item of the festival feed, as the parser reads it. *)
Definition galaItem : Item :=
  {| item_title := Some "Gala 12/31/2025";
     item_description := None;
     item_link := None;
     item_pubDate := None |}.

(** A payload whose address is no address. *)
Definition strayPayload : RawData :=
  {| rd_source_url := "not a url"; raw_content := festivalFeed |}.

Definition feedPayload : RawData :=
  {| rd_source_url := "https://visitloudoun.org/feed"; raw_content := festivalFeed |}.

Definition stoneTower : Winery :=
  {| w_id := "w1"; winery_name := "Stone Tower"; w_location := "Leesburg" |}.

(** An enriched event without an address of its own. *)
Definition noLink : FilteredEvent :=
  {| event_name := "Harvest Market";
     fe_event_date := "2025-07-15";
     event_location := "Leesburg";
     event_summary := "Weekly and local.";
     event_url := "";
     relevance_score := 7;
     fe_source_url := "https://visitloudoun.org/feed";
     fe_source_name := "Visit Loudoun Events" |}.

(** A push of two events, the second with a title too short to pass. *)
Definition marketEvent : IngestRawEvents.GoogleAppsScriptEvent :=
  {| IngestRawEvents.title := "Harvest Market";
     IngestRawEvents.link := "https://visitloudoun.org/market";
     IngestRawEvents.description := "Weekly and local.";
     IngestRawEvents.pubDate := "2025-06-01" |}.

Definition shortEvent : IngestRawEvents.GoogleAppsScriptEvent :=
  {| IngestRawEvents.title := "Gala";
     IngestRawEvents.link := "";
     IngestRawEvents.description := "Black tie.";
     IngestRawEvents.pubDate := "" |}.

Definition marketPush : IngestRawEvents.Request :=
  {| IngestRawEvents.method := "POST";
     IngestRawEvents.json := Some (IngestRawEvents.Events [marketEvent; shortEvent]) |}.

(** The character is a heading level, one of the digits 1 to 6. *)
Definition headingLevel (a : ascii) : bool :=
  ((49 <=? code a) && (code a <=? 54))%nat.

(** The character is a line terminator, which the dot of a pattern does
    not take in. *)
Definition isTerminator (a : ascii) : bool := negb (is_dot a).

(* ================================================================== *)
(** ** The classification pipeline *)
(* ================================================================== *)

Lemma completionArray_fails {A : Type} (key : string) (r : Reply A) :
  Fails r -> completionArray key r = None.
Proof.
  intros F. destruct F as [ | | | | choices E | choices E ]; simpl; try reflexivity.
  - unfold parsedArray. now rewrite E.
  - unfold parsedArray. now rewrite E.
Qed.

Lemma completionArray_empty {A : Type} (key : string) (r : Reply A) :
  ReadsEmpty key r -> completionArray key r = Some [].
Proof.
  intros R.
  destruct R as [choices E | choices E | choices E | choices ms E M];
    simpl; unfold parsedArray; rewrite E; cbn; rewrite ?String.eqb_refl;
    try reflexivity.
  destruct M as [M | M]; now rewrite M.
Qed.

(** C1, as the specification states it, fails: a reply that is JSON text
    but lacks the expected member makes the gatekeeper drop every
    candidate instead of passing them through. *)
Lemma gatekeeper_unstructured_reply_drops_all :
  ~ (forall (w : World) (allPotentialEvents : list PotentialEvent),
        structured "relevant_events" (gatekeeperReply w) = false ->
        gatekeeper w allPotentialEvents = allPotentialEvents).
Proof.
  intros claim.
  specialize (claim (withService (replyWith (Text (JObject []))) Unreachable) [fair]).
  simpl in claim. specialize (claim eq_refl). discriminate claim.
Qed.

(** C1 (amended).  The gatekeeper passes the whole candidate set through,
    unchanged, when no credential is configured or the call fails: the
    service is unreachable, answers with an error status, or answers with
    a body or a message content on which parsing throws.  When the content
    is missing, empty, or JSON text without a [relevant_events] array, its
    output is empty instead. *)
Theorem gatekeeper_fails_open (w : World) (allPotentialEvents : list PotentialEvent) :
  (hasKey w = false \/ Fails (gatekeeperReply w) ->
   gatekeeper w allPotentialEvents = allPotentialEvents)
  /\ (hasKey w = true -> ReadsEmpty "relevant_events" (gatekeeperReply w) ->
      gatekeeper w allPotentialEvents = []).
Proof.
  unfold gatekeeper. split.
  - intros [K | F].
    + now rewrite K.
    + rewrite (completionArray_fails _ _ F). now destruct (hasKey w).
  - intros K R. rewrite K, (completionArray_empty _ _ R). reflexivity.
Qed.

Lemma gatekeeper_fails_open_witness :
  gatekeeper (withService Unreachable Unreachable) [fair] = [fair]
  /\ gatekeeper (withService (replyWith Blank) Unreachable) [fair] = [].
Proof.
  split.
  - apply (proj1 (gatekeeper_fails_open (withService Unreachable Unreachable) [fair])).
    right. simpl. constructor.
  - apply (proj2 (gatekeeper_fails_open (withService (replyWith Blank) Unreachable) [fair])).
    + reflexivity.
    + simpl. apply empty_blank. reflexivity.
Defined.

Lemma enrichment_fallback (w : World) (filteredEvents : list PotentialEvent) :
  hasKey w = false \/ Fails (enhancedReply w) ->
  enrichment w filteredEvents = map (basicEvent (now w)) filteredEvents.
Proof.
  unfold enrichment. intros [K | F].
  - now rewrite K.
  - destruct (hasKey w); [ | reflexivity ].
    destruct F as [ | | | | choices E | choices E ]; try reflexivity;
      unfold parsedArray; now rewrite E.
Qed.

Lemma basicEvent_mapped (now : Z) (c : PotentialEvent) :
  mappedByFallback now c (basicEvent now c).
Proof.
  unfold mappedByFallback, basicEvent, opt_or, or_else; simpl.
  repeat split.
Qed.

Lemma Forall2_map_r {A B : Type} (P : A -> B -> Prop) (f : A -> B) (l : list A) :
  (forall x, P x (f x)) -> Forall2 P l (map f l).
Proof.
  intros HP. induction l as [ | x l IH ]; simpl; constructor; auto.
Qed.

(** C8, as the specification states it, fails: a candidate without a
    description is not given its (empty) description as summary. *)
Lemma fallback_summary_is_not_always_description :
  ~ (forall (w : World) (filteredEvents : list PotentialEvent),
        hasKey w = false \/ Fails (enhancedReply w) ->
        Forall2 (mappedAsSpecified (now w)) filteredEvents
                (enrichment w filteredEvents)).
Proof.
  intros claim.
  specialize (claim quietWorld [fair] (or_introl eq_refl)).
  inversion claim as [ | c e cs es M _ ]; subst.
  destruct M as (_ & S & _). discriminate S.
Qed.

(** C8 (amended).  When no credential is configured or the enrichment
    call fails (service unreachable, error status, or a body or message
    content on which parsing throws), every candidate that survived the
    gatekeeper is mapped, in order, to an enriched event whose name is its
    title, whose url is its link, whose score is 7, whose summary is its
    description when that is not empty and a fixed sentence otherwise, and
    whose date is the date derived upstream or, without one, the calendar
    day thirty days after the request. *)
Theorem enrichment_falls_back (w : World) (filteredEvents : list PotentialEvent) :
  hasKey w = false \/ Fails (enhancedReply w) ->
  Forall2 (mappedByFallback (now w)) filteredEvents (enrichment w filteredEvents).
Proof.
  intros F. rewrite (enrichment_fallback _ _ F).
  apply Forall2_map_r. apply basicEvent_mapped.
Qed.

Lemma enrichment_falls_back_witness :
  Forall2 (mappedByFallback noon) [fair]
          (enrichment (withService Unreachable HttpError) [fair]).
Proof.
  apply (enrichment_falls_back (withService Unreachable HttpError) [fair]).
  right. simpl. constructor.
Defined.

(** C5, as the specification states it, fails: an event the service
    returns with score 3 is taken over as it is and gets its brief. *)
Lemma low_score_reaches_fan_out :
  (exists e,
      In e (enrichment lowScoreWorld (gatekeeper lowScoreWorld (sampleEvents noon)))
      /\ relevance_score e < 6)
  /\ (exists b,
         research_briefs (store (serve (H := Runtime.utc) lowScoreWorld emptyStore
                                       scanStored)) = [b]
         /\ In "Relevance Score: 3/10" (key_points b)).
Proof.
  split.
  - exists lowScore. split; [ left; reflexivity | reflexivity ].
  - eexists. split; [ vm_compute; reflexivity | ].
    simpl. do 5 right. left. reflexivity.
Qed.

(** C5 (amended).  The events built by the local fall-back all carry the
    score 7.  The events parsed from the service's reply are taken over
    as the service returned them, whatever their score: the floor of 6 is
    asked of the service in the prompt and not checked afterwards. *)
Theorem enrichment_scores (w : World) (filteredEvents : list PotentialEvent) :
  (hasKey w = false \/ Fails (enhancedReply w) ->
   forall e, In e (enrichment w filteredEvents) -> relevance_score e = 7)
  /\ (forall choices ms events,
         hasKey w = true ->
         enhancedReply w = Completion (Some choices) ->
         firstContent choices = Some (Text (JObject ms)) ->
         member "events" ms = Some (Some events) ->
         enrichment w filteredEvents = events).
Proof.
  split.
  - intros F e I. rewrite (enrichment_fallback _ _ F) in I.
    apply in_map_iff in I. destruct I as (c & <- & _). reflexivity.
  - intros choices ms events K R C M. unfold enrichment.
    rewrite K, R. unfold parsedArray. rewrite C, M. reflexivity.
Qed.

Lemma enrichment_scores_witness :
  (forall e, In e (enrichment quietWorld [fair]) -> relevance_score e = 7)
  /\ enrichment lowScoreWorld [fair] = [lowScore].
Proof.
  split.
  - apply (proj1 (enrichment_scores quietWorld [fair])). left. reflexivity.
  - apply (proj2 (enrichment_scores lowScoreWorld [fair])
             [ {| message := Some {| content :=
                    Some (Text (JObject [("events", Some [lowScore])])) |} |} ]
             [("events", Some [lowScore])] [lowScore]);
      reflexivity.
Defined.

(* ================================================================== *)
(** ** The candidate builder *)
(* ================================================================== *)

Section CandidateProperties.
Context {H : Host}.

Lemma collect_In {A B : Type} (f : A -> option B) (l : list A) (y : B) :
  In y (collect f l) <-> exists x, In x l /\ f x = Some y.
Proof.
  induction l as [ | a l IH ]; simpl.
  - split; [ tauto | intros (x & [] & _) ].
  - destruct (f a) as [ b | ] eqn:E; simpl; rewrite IH; split.
    + intros [ <- | (x & I & F) ]; [ exists a | exists x ]; auto.
    + intros (x & [ <- | I ] & F).
      * left. congruence.
      * right. exists x. auto.
    + intros (x & I & F). exists x. auto.
    + intros (x & [ <- | I ] & F); [ congruence | exists x; auto ].
Qed.

Lemma orUndefined_Some (v : option string) (d : string) :
  orUndefined v = Some d -> v = Some d /\ truthy d = true.
Proof.
  destruct v as [ s | ]; simpl; [ | discriminate ].
  destruct (truthy s) eqn:T; [ | discriminate ].
  intros [= <-]. auto.
Qed.

(** What an item has to satisfy to contribute an event. *)
Lemma eventOfItem_Some (now : Z) (sourceUrl sourceName : string)
  (startDate endDate : option Z) (item : Item) (ev : PotentialEvent) :
  eventOfItem now sourceUrl sourceName startDate endDate item = Some ev ->
  title ev = clean (opt_or (item_title item) "")
  /\ (5 < String.length (title ev))%nat
  /\ (event_date ev = None
      \/ exists d, event_date ev = Some d
                   /\ isEventInDateRange d startDate endDate = true).
Proof.
  unfold eventOfItem.
  destruct (truthy (clean (opt_or (item_title item) ""))
            && (5 <? String.length (clean (opt_or (item_title item) "")))%nat)
    eqn:G; [ | discriminate ].
  apply andb_prop in G. destruct G as [_ L]. apply Nat.ltb_lt in L.
  destruct (orUndefined _) as [ d | ] eqn:D.
  - destruct (isEventInDateRange d startDate endDate) eqn:R; [ | discriminate ].
    intros [= <-]. simpl. repeat split; auto. right. exists d. auto.
  - intros [= <-]. simpl. auto.
Qed.

Lemma date_le_true (a b : option Z) :
  date_le a b = true -> exists x y, a = Some x /\ b = Some y /\ x <= y.
Proof.
  destruct a as [ x | ], b as [ y | ]; simpl; try discriminate.
  intros L. apply Z.leb_le in L. eauto.
Qed.

(** The date of a candidate is the date the heuristic derives from the
    candidate's own title, description and published-date hint. *)
Lemma eventOfItem_date (now : Z) (sourceUrl sourceName : string)
  (startDate endDate : option Z) (item : Item) (ev : PotentialEvent) :
  eventOfItem now sourceUrl sourceName startDate endDate item = Some ev ->
  event_date ev
  = orUndefined (extractEventDate now (title ev) (description ev) (published ev)).
Proof.
  unfold eventOfItem.
  destruct (truthy _ && _); [ | discriminate ].
  destruct (orUndefined _) as [ d | ] eqn:D.
  - destruct (isEventInDateRange d startDate endDate); [ | discriminate ].
    intros [= <-]. simpl. now rewrite D.
  - intros [= <-]. simpl. now rewrite D.
Qed.

(** C3.  The event date of every candidate the builder produces from a
    feed is the date the heuristic derives from the candidate's own
    title, description and published-date hint; and the candidate either
    has no such date, or has one that denotes an instant [d] with
    start <= d <= end.  So no candidate with a derivable date outside the
    window is produced, and a dated candidate is only produced when both
    ends of the window are valid dates. *)
Theorem candidates_within_window (now : Z) (rssXml sourceUrl sourceName : string)
  (startDate endDate : option Z) (ev : PotentialEvent) :
  In ev (extractRSSEvents now rssXml sourceUrl sourceName startDate endDate) ->
  event_date ev
  = orUndefined (extractEventDate now (title ev) (description ev) (published ev))
  /\ (event_date ev = None
      \/ exists s d a b,
           event_date ev = Some s /\ Date_parse s = Some d
           /\ startDate = Some a /\ endDate = Some b /\ a <= d <= b).
Proof.
  unfold extractRSSEvents. intros I.
  apply collect_In in I. destruct I as (item & _ & E).
  split; [ exact (eventOfItem_date _ _ _ _ _ _ _ E) | ].
  apply eventOfItem_Some in E. destruct E as (_ & _ & [ N | (s & S & R) ]).
  - left. exact N.
  - right. unfold isEventInDateRange in R. apply andb_prop in R.
    destruct R as [R1 R2].
    apply date_le_true in R1. destruct R1 as (a & d & Ea & Ed & L1).
    apply date_le_true in R2. destruct R2 as (d' & b & Ed' & Eb & L2).
    rewrite Ed in Ed'. injection Ed' as <-.
    exists s, d, a, b. repeat split; auto.
Qed.


End CandidateProperties.

Lemma candidates_within_window_witness :
  event_date festival
  = orUndefined (extractEventDate (H := Runtime.utc) noon (title festival)
                   (description festival) (published festival))
  /\ (event_date festival = None
      \/ exists s d a b,
           event_date festival = Some s /\ Runtime.isoParse s = Some d
           /\ Runtime.isoParse "2025-01-01" = Some a
           /\ Runtime.isoParse "2025-06-30" = Some b /\ a <= d <= b).
Proof.
  apply (candidates_within_window (H := Runtime.utc) noon festivalFeed
           "https://visitloudoun.org/feed" "Visit Loudoun Events"
           (Runtime.isoParse "2025-01-01") (Runtime.isoParse "2025-06-30") festival).
  vm_compute. left. reflexivity.
Defined.



(* ================================================================== *)
(** ** The asynchronous ingestion push *)
(* ================================================================== *)

(** C10.  A push whose [events] member is an empty array is answered with
    status 200 and a body reporting success and zero events processed,
    and the table of raw events is left as it was. *)
Theorem empty_push_changes_nothing {H : Host} (w : IngestRawEvents.World)
  (table : list IngestRawEvents.NewRawEvent) (req : IngestRawEvents.Request) :
  IngestRawEvents.method req = "POST" ->
  IngestRawEvents.json req = Some (IngestRawEvents.Events []) ->
  exists body,
    IngestRawEvents.serve w table req = (IngestRawEvents.Ok body, table)
    /\ IngestRawEvents.status (IngestRawEvents.Ok body) = 200
    /\ IngestRawEvents.success body = true
    /\ IngestRawEvents.events_processed body = 0.
Proof.
  intros M J. unfold IngestRawEvents.serve. rewrite M, J. simpl.
  eexists. repeat split.
Qed.

Lemma empty_push_changes_nothing_witness :
  exists body,
    IngestRawEvents.serve (H := Runtime.utc) ingestWorld storedEarlier emptyPush
    = (IngestRawEvents.Ok body, storedEarlier)
    /\ IngestRawEvents.status (IngestRawEvents.Ok body) = 200
    /\ IngestRawEvents.success body = true
    /\ IngestRawEvents.events_processed body = 0.
Proof.
  apply (empty_push_changes_nothing (H := Runtime.utc) ingestWorld storedEarlier
           emptyPush); reflexivity.
Defined.

(* ================================================================== *)
(** ** One run of the scan handler *)
(* ================================================================== *)

Section RunProperties.
Context {H : Host}.

Lemma serve_post (w : World) (db : Store) (req : Request) (requestBody : RequestPayload) :
  method req = "POST" -> json req = Some requestBody ->
  serve w db req
  = classifyAndFanOut w db requestBody
      (fst (resolveDateRange (now w) requestBody))
      (snd (resolveDateRange (now w) requestBody))
      (candidatesOf w db requestBody) (dataSourceOf w db requestBody)
      (tableOf w db requestBody) (snd (gathered w db requestBody)).
Proof.
  intros M J. unfold serve, candidatesOf, dataSourceOf, tableOf, gathered.
  rewrite M, J. simpl.
  destruct (resolveDateRange (now w) requestBody) as [startDate endDate]. simpl.
  destruct (gatherEvents w requestBody startDate endDate (raw_events db))
    as [[[all ds] table] ops].
  reflexivity.
Qed.

Lemma respond_Ok (dr : option DateRange) (f : DateRange -> Summary) (body : Summary) :
  respond dr f = Ok body -> exists d, dr = Some d /\ body = f d.
Proof.
  destruct dr as [ d | ]; simpl; [ | discriminate ].
  intros [= <-]. eauto.
Qed.

(** Whatever branch answers, a successful body carries the tag of the
    data source and, if it reports the number of extracted events at all,
    the size of the candidate set; the table of raw events is the one the
    first stage left. *)
Lemma classifyAndFanOut_reports (w : World) (db : Store) (requestBody : RequestPayload)
  (startDate endDate : option Z) (all : list PotentialEvent) (ds : string)
  (table : list RawEvent) (ops : list DbOp) :
  let run := classifyAndFanOut w db requestBody startDate endDate all ds table ops in
  raw_events (store run) = table
  /\ forall body, response run = Ok body ->
       data_source body = ds
       /\ (events_extracted body = Some (len all) \/ events_extracted body = None).
Proof.
  unfold classifyAndFanOut.
  destruct all as [ | c cs ].
  { simpl. split; [ reflexivity | ].
    intros body R. apply respond_Ok in R. destruct R as (d & _ & ->). simpl. auto. }
  destruct (gatekeeper w (c :: cs)) as [ | f fs ].
  { simpl. split; [ reflexivity | ].
    intros body R. apply respond_Ok in R. destruct R as (d & _ & ->). simpl. auto. }
  destruct (enrichment w (f :: fs)) as [ | e es ].
  { simpl. split; [ reflexivity | ].
    intros body R. apply respond_Ok in R. destruct R as (d & _ & ->). simpl. auto. }
  destruct (wineries_error w) as [ msg | ].
  { simpl. split; [ reflexivity | ]. intros body R. discriminate R. }
  destruct (winery_profiles w) as [ | y ys ].
  { simpl. split; [ reflexivity | ].
    intros body R. apply respond_Ok in R. destruct R as (d & _ & ->). simpl. auto. }
  simpl. split; [ reflexivity | ].
  intros body R. apply respond_Ok in R. destruct R as (d & _ & ->). simpl. auto.
Qed.

Lemma filter_none {A : Type} (f : A -> bool) (l : list A) :
  Forall (fun x => f x = false) l -> filter f l = [].
Proof.
  induction 1 as [ | x l E _ IH ]; simpl; [ reflexivity | ].
  now rewrite E.
Qed.

Lemma selectUnprocessed_none (table : list RawEvent) :
  Forall (fun r => is_processed r = true) table -> selectUnprocessed table = [].
Proof.
  intros A. unfold selectUnprocessed. rewrite filter_none; [ reflexivity | ].
  eapply Forall_impl; [ | exact A ]. intros r E. simpl in E. now rewrite E.
Qed.

(** C4 (amended).  When the request carries no inline payloads and the
    store holds no unprocessed row, the candidate set of the run is the
    two built-in sample events, which then go through the pipeline like
    any other candidates; the table of raw events is not touched; every
    successful response carries the tag [sample_events] and, where it
    reports [events_extracted], reports 2. *)
Theorem no_stored_rows_runs_on_samples (w : World) (db : Store) (req : Request)
  (requestBody : RequestPayload) :
  method req = "POST" -> json req = Some requestBody ->
  raw_data requestBody = None ->
  Forall (fun r => is_processed r = true) (raw_events db) ->
  candidatesOf w db requestBody = sampleEvents (now w)
  /\ List.length (candidatesOf w db requestBody) = 2%nat
  /\ raw_events (store (serve w db req)) = raw_events db
  /\ forall body, response (serve w db req) = Ok body ->
       data_source body = "sample_events"
       /\ (events_extracted body = Some 2 \/ events_extracted body = None).
Proof.
  intros M J R P.
  assert (G : gathered w db requestBody
              = (sampleEvents (now w), "sample_events", raw_events db,
                 [SelectUnprocessed])).
  { unfold gathered, gatherEvents. rewrite R.
    rewrite (selectUnprocessed_none _ P).
    destruct (raw_events_readable w); reflexivity. }
  assert (C : candidatesOf w db requestBody = sampleEvents (now w)).
  { unfold candidatesOf. now rewrite G. }
  split; [ exact C | ]. split; [ now rewrite C | ].
  rewrite (serve_post _ _ _ _ M J).
  pose proof (classifyAndFanOut_reports w db requestBody
                (fst (resolveDateRange (now w) requestBody))
                (snd (resolveDateRange (now w) requestBody))
                (candidatesOf w db requestBody) (dataSourceOf w db requestBody)
                (tableOf w db requestBody) (snd (gathered w db requestBody))) as Rep.
  cbv zeta in Rep. destruct Rep as [T B].
  split.
  - rewrite T. unfold tableOf. now rewrite G.
  - intros body E. specialize (B body E). destruct B as [D X].
    split.
    + rewrite D. unfold dataSourceOf. now rewrite G.
    + rewrite C in X. exact X.
Qed.

(** *** Counting the insertions of the fan-out *)

Lemma attempts_app (ops ops' : list DbOp) :
  attempts (ops ++ ops') = (attempts ops + attempts ops')%nat.
Proof. unfold attempts. now rewrite filter_app, length_app. Qed.

Lemma created_app (ops ops' : list DbOp) :
  created (ops ++ ops') = (created ops + created ops')%nat.
Proof. unfold created. now rewrite filter_app, length_app. Qed.

Lemma failed_app (ops ops' : list DbOp) :
  failed (ops ++ ops') = (failed ops + failed ops')%nat.
Proof. unfold failed. now rewrite filter_app, length_app. Qed.

Lemma attempts_created_failed (ops : list DbOp) :
  attempts ops = (created ops + failed ops)%nat.
Proof.
  unfold attempts, created, failed.
  induction ops as [ | o ops IH ]; simpl; [ reflexivity | ].
  destruct o as [ | row | | b [ | | ] ]; simpl; lia.
Qed.

Lemma attempts_inserts (tail : list DbOp) :
  Forall (fun o => match o with InsertBrief _ _ => True | _ => False end) tail ->
  attempts tail = List.length tail.
Proof.
  unfold attempts. induction 1 as [ | o tail O _ IH ]; simpl; [ reflexivity | ].
  destruct o; try contradiction. simpl. now rewrite IH.
Qed.

Lemma continues_refl (st : FanOut) : continues 0 st st.
Proof.
  exists []. rewrite app_nil_r. repeat split; auto. simpl. lia.
Qed.

Lemma continues_trans (n m : nat) (st1 st2 st3 : FanOut) :
  continues n st1 st2 -> continues m st2 st3 -> continues (n + m) st1 st3.
Proof.
  intros (t1 & S1 & F1 & L1 & C1) (t2 & S2 & F2 & L2 & C2).
  exists (t1 ++ t2)%list. repeat split.
  - now rewrite S2, S1, app_assoc.
  - apply Forall_app. auto.
  - rewrite length_app. lia.
  - rewrite C2, C1, created_app. lia.
Qed.

Lemma fanOutPair_continues (w : World) (ds : string) (startDate endDate : option Z)
  (event : FilteredEvent) (st : FanOut) (winery : Winery) :
  continues (if usable event then 1 else 0) st
            (fanOutPair w ds startDate endDate event st winery).
Proof.
  unfold fanOutPair, wineryBrief, usable.
  destruct (localEventDate event) as [ date | ]; [ | apply continues_refl ].
  set (b := {| winery_id := w_id winery |}). cbv zeta.
  destruct (insertBrief w (attempts (sent st)) b) eqn:R.
  - exists [InsertBrief b Inserted]. simpl.
    split; [ reflexivity | ]. split; [ repeat constructor | ].
    split; [ reflexivity | ]. unfold created. simpl. lia.
  - exists [InsertBrief b Rejected]. simpl.
    split; [ reflexivity | ]. split; [ repeat constructor | ].
    split; [ reflexivity | ]. unfold created. simpl. lia.
  - exists [InsertBrief b Threw]. simpl.
    split; [ reflexivity | ]. split; [ repeat constructor | ].
    split; [ reflexivity | ]. unfold created. simpl. lia.
Qed.

Lemma fanOutEvent_continues (w : World) (ds : string) (startDate endDate : option Z)
  (wineries : list Winery) (event : FilteredEvent) (st : FanOut) :
  continues (if usable event then List.length wineries else 0) st
            (fanOutEvent w ds startDate endDate wineries st event).
Proof.
  unfold fanOutEvent. revert st.
  induction wineries as [ | y ys IH ]; intros st; simpl.
  - destruct (usable event); apply continues_refl.
  - pose proof (fanOutPair_continues w ds startDate endDate event st y) as P.
    pose proof (IH (fanOutPair w ds startDate endDate event st y)) as Q.
    pose proof (continues_trans _ _ _ _ _ P Q) as R.
    destruct (usable event); exact R.
Qed.

Lemma fanOut_continues (w : World) (ds : string) (startDate endDate : option Z)
  (finalEvents : list FilteredEvent) (wineries : list Winery) (st : FanOut) :
  Forall (fun e => usable e = true) finalEvents ->
  continues (List.length finalEvents * List.length wineries) st
            (fanOut w ds startDate endDate finalEvents wineries st).
Proof.
  unfold fanOut. intros U. revert st.
  induction U as [ | e es Ue _ IH ]; intros st; simpl.
  - apply continues_refl.
  - pose proof (fanOutEvent_continues w ds startDate endDate wineries e st) as P.
    rewrite Ue in P.
    exact (continues_trans _ _ _ _ _ P (IH _)).
Qed.

Lemma storedEvents_statements (applied : string -> bool) (now : Z)
  (startDate endDate : option Z) (rows table : list RawEvent) :
  snd (storedEvents applied now startDate endDate rows table)
  = map (fun r => UpdateProcessed (id r)) rows.
Proof.
  revert table. induction rows as [ | r rows IH ]; intros table; simpl.
  - reflexivity.
  - set (table1 := if applied (id r) then markProcessed (id r) table else table).
    specialize (IH table1).
    destruct (storedEvents applied now startDate endDate rows table1)
      as [[events table2] ops].
    simpl in *. now rewrite IH.
Qed.

Lemma attempts_updates (rows : list RawEvent) :
  attempts (map (fun r => UpdateProcessed (id r)) rows) = 0%nat.
Proof. induction rows; simpl; auto. Qed.

(** The first stage sends no insertion. *)
Lemma gathered_no_inserts (w : World) (db : Store) (requestBody : RequestPayload) :
  attempts (snd (gathered w db requestBody)) = 0%nat.
Proof.
  unfold gathered, gatherEvents.
  destruct (raw_data requestBody) as [ raw | ]; [ reflexivity | ].
  destruct (if raw_events_readable w then selectUnprocessed (raw_events db) else [])
    as [ | r rows ] eqn:E; [ reflexivity | ].
  pose proof (storedEvents_statements (updateProcessed w) (now w)
                (fst (resolveDateRange (now w) requestBody))
                (snd (resolveDateRange (now w) requestBody))
                (r :: rows) (raw_events db)) as S.
  destruct (storedEvents (updateProcessed w) (now w)
              (fst (resolveDateRange (now w) requestBody))
              (snd (resolveDateRange (now w) requestBody)) (r :: rows) (raw_events db))
    as [[events table'] ops].
  simpl in S. subst ops. simpl. unfold attempts. simpl.
  apply (attempts_updates rows).
Qed.

(** C2 (amended).  For a run that reaches the fan-out with N final
    events and M >= 1 profiles, whose date window is valid and whose final
    events all have an event date that is empty or parses as a date:
    exactly N*M insertions are sent, whether or not some of them fail;
    the response is a success with status 200; and with K failed
    insertions [briefs_created] is N*M - K.  (A final event whose date
    text does not parse makes the building of its briefs throw: its pairs
    are skipped without an insertion.  With an invalid window the
    insertions are made and the response is then an error.) *)
Theorem fan_out_counts (w : World) (db : Store) (req : Request)
  (requestBody : RequestPayload) :
  method req = "POST" -> json req = Some requestBody ->
  reachesFanOut w db requestBody ->
  validWindow w requestBody ->
  Forall (fun e => usable e = true) (finalEventsOf w db requestBody) ->
  let run := serve w db req in
  let N := List.length (finalEventsOf w db requestBody) in
  let M := List.length (winery_profiles w) in
  attempts (statements run) = (N * M)%nat
  /\ attempts (statements run) = (created (statements run) + failed (statements run))%nat
  /\ exists body,
       response run = Ok body
       /\ status (response run) = 200
       /\ success body = true
       /\ briefs_created body
          = Some (Z.of_nat (N * M) - Z.of_nat (failed (statements run))).
Proof.
  intros Mth J (C & G & F & WE & WP) (a & b & V) U. cbv zeta.
  rewrite (serve_post _ _ _ _ Mth J).
  pose proof (gathered_no_inserts w db requestBody) as NI.
  unfold finalEventsOf in *.
  set (all := candidatesOf w db requestBody) in *.
  set (ops := snd (gathered w db requestBody)) in *.
  rewrite V. simpl fst. simpl snd.
  unfold classifyAndFanOut.
  destruct all as [ | c cs ]; [ contradiction | ].
  destruct (gatekeeper w (c :: cs)) as [ | f fs ]; [ contradiction | ].
  destruct (enrichment w (f :: fs)) as [ | e es ] eqn:E; [ contradiction | ].
  rewrite WE.
  destruct (winery_profiles w) as [ | y ys ] eqn:W; [ contradiction | ].
  set (st0 := {| briefsCreatedCount := 0; briefs := research_briefs db;
                 sent := (ops ++ [SelectWineries])%list |}).
  pose proof (fanOut_continues w (dataSourceOf w db requestBody) (Some a) (Some b)
                (e :: es) (y :: ys) st0 U) as (tail & S & I & L & K).
  set (st := fanOut w (dataSourceOf w db requestBody) (Some a) (Some b)
               (e :: es) (y :: ys) st0) in *.
  assert (A : attempts (sent st) = (List.length (e :: es) * List.length (y :: ys))%nat).
  { rewrite S. unfold st0. simpl sent. rewrite !attempts_app, NI.
    rewrite (attempts_inserts _ I), L. reflexivity. }
  assert (Cr : created (sent st) = created tail).
  { rewrite S. unfold st0. simpl sent. rewrite !created_app.
    pose proof (attempts_created_failed ops) as X. rewrite NI in X.
    assert (created ops = 0%nat) by lia. unfold created at 2. simpl. lia. }
  simpl statements. simpl response.
  split; [ exact A | ]. split; [ apply attempts_created_failed | ].
  eexists. split; [ reflexivity | ]. split; [ reflexivity | ].
  split; [ reflexivity | ].
  simpl briefs_created. f_equal. rewrite K. unfold st0. simpl briefsCreatedCount.
  pose proof (attempts_created_failed (sent st)) as X.
  rewrite A, Cr in X. lia.
Qed.

(** *** The processed flag on the stored-data path *)

Lemma updatesOf_app (ops ops' : list DbOp) :
  updatesOf (ops ++ ops') = (updatesOf ops ++ updatesOf ops')%list.
Proof.
  induction ops as [ | o ops IH ]; simpl; [ reflexivity | ].
  destruct o; simpl; now rewrite IH.
Qed.

Lemma updatesOf_inserts (tail : list DbOp) :
  Forall (fun o => match o with InsertBrief _ _ => True | _ => False end) tail ->
  updatesOf tail = [].
Proof.
  induction 1 as [ | o tail O _ IH ]; simpl; [ reflexivity | ].
  destruct o; try contradiction. exact IH.
Qed.

Lemma updatesOf_updates (rows : list RawEvent) :
  updatesOf (map (fun r => UpdateProcessed (id r)) rows) = map id rows.
Proof. induction rows as [ | r rows IH ]; simpl; [ | rewrite IH ]; reflexivity. Qed.

Lemma fanOut_continues_any (w : World) (ds : string) (startDate endDate : option Z)
  (finalEvents : list FilteredEvent) (wineries : list Winery) (st : FanOut) :
  exists n, continues n st (fanOut w ds startDate endDate finalEvents wineries st).
Proof.
  unfold fanOut. revert st.
  induction finalEvents as [ | e es IH ]; intros st; simpl.
  - exists 0%nat. apply continues_refl.
  - destruct (IH (fanOutEvent w ds startDate endDate wineries st e)) as (n & Q).
    eexists.
    exact (continues_trans _ _ _ _ _
             (fanOutEvent_continues w ds startDate endDate wineries e st) Q).
Qed.

(** The later stages send no update of a raw event. *)
Lemma classifyAndFanOut_updates (w : World) (db : Store) (requestBody : RequestPayload)
  (startDate endDate : option Z) (all : list PotentialEvent) (ds : string)
  (table : list RawEvent) (ops : list DbOp) :
  updatesOf (statements
               (classifyAndFanOut w db requestBody startDate endDate all ds table ops))
  = updatesOf ops.
Proof.
  unfold classifyAndFanOut.
  destruct all as [ | c cs ]; [ reflexivity | ].
  destruct (gatekeeper w (c :: cs)) as [ | f fs ]; [ reflexivity | ].
  destruct (enrichment w (f :: fs)) as [ | e es ]; [ reflexivity | ].
  assert (S : updatesOf (ops ++ [SelectWineries]) = updatesOf ops).
  { rewrite updatesOf_app. simpl. apply app_nil_r. }
  destruct (wineries_error w) as [ msg | ]; [ exact S | ].
  destruct (winery_profiles w) as [ | y ys ]; [ exact S | ].
  cbn [statements].
  destruct (fanOut_continues_any w ds startDate endDate (e :: es) (y :: ys)
              {| briefsCreatedCount := 0; briefs := research_briefs db;
                 sent := (ops ++ [SelectWineries])%list |})
    as (n & tail & E & I & _).
  rewrite E. simpl sent. rewrite updatesOf_app, (updatesOf_inserts _ I), app_nil_r.
  exact S.
Qed.

Lemma insertByCreatedAt_perm (r : RawEvent) (l : list RawEvent) :
  Permutation (insertByCreatedAt r l) (r :: l).
Proof.
  induction l as [ | x l IH ]; simpl; [ reflexivity | ].
  destruct (created_at r <=? created_at x); [ reflexivity | ].
  rewrite IH. apply perm_swap.
Qed.

Lemma selectUnprocessed_perm (table : list RawEvent) :
  Permutation (selectUnprocessed table)
              (filter (fun r => negb (is_processed r)) table).
Proof.
  unfold selectUnprocessed.
  induction (filter (fun r => negb (is_processed r)) table) as [ | x l IH ]; simpl.
  - reflexivity.
  - rewrite insertByCreatedAt_perm. now apply perm_skip.
Qed.

(** Filtering keeps the keys of a table distinct. *)
Lemma unprocessed_keys_distinct (table : list RawEvent) :
  NoDup (map id table) ->
  NoDup (map id (filter (fun r => negb (is_processed r)) table)).
Proof.
  induction table as [ | x table IH ]; simpl; intros N; [ constructor | ].
  apply NoDup_cons_iff in N. destruct N as [X N].
  destruct (is_processed x); simpl; auto.
  constructor; auto.
  intros I. apply X. apply in_map_iff in I. destruct I as (y & E & I).
  apply filter_In in I. apply in_map_iff. exists y. tauto.
Qed.

Lemma NoDup_map_injective {A B : Type} (f : A -> B) (l : list A) (x y : A) :
  NoDup (map f l) -> In x l -> In y l -> f x = f y -> x = y.
Proof.
  induction l as [ | a l IH ]; simpl; intros N Ix Iy E; [ contradiction | ].
  apply NoDup_cons_iff in N. destruct N as [X N].
  destruct Ix as [ -> | Ix ], Iy as [ -> | Iy ]; auto.
  - exfalso. apply X. rewrite E. now apply in_map.
  - exfalso. apply X. rewrite <- E. now apply in_map.
Qed.

Lemma afterUpdate_twice (r : RawEvent) : afterUpdate (afterUpdate r) = afterUpdate r.
Proof. reflexivity. Qed.

Lemma afterUpdate_obeying (r : RawEvent) :
  content_length r = Z.of_nat (String.length (re_raw_content r)) ->
  afterUpdate r = set_is_processed true r.
Proof.
  intros E. unfold afterUpdate, set_content_length, set_is_processed. simpl.
  now rewrite <- E.
Qed.

Lemma storedEvents_table (applied : string -> bool) (now : Z)
  (startDate endDate : option Z) (rows table : list RawEvent) :
  snd (fst (storedEvents applied now startDate endDate rows table))
  = map (fun r => if isOneOf (filter applied (map id rows)) r
                  then afterUpdate r else r) table.
Proof.
  revert table. induction rows as [ | x rows IH ]; intros table; simpl.
  - symmetry. apply map_id.
  - set (table1 := if applied (id x) then markProcessed (id x) table else table).
    specialize (IH table1).
    destruct (storedEvents applied now startDate endDate rows table1)
      as [[events table2] ops].
    simpl in *. rewrite IH. unfold table1.
    destruct (applied (id x)); [ | reflexivity ].
    unfold markProcessed. rewrite map_map.
    apply map_ext. intros r. unfold isOneOf. simpl.
    destruct (String.eqb (id r) (id x)) eqn:E; simpl.
    + change (id (afterUpdate r)) with (id r).
      destruct (existsb (String.eqb (id r)) (filter applied (map id rows)));
        reflexivity.
    + reflexivity.
Qed.

(** Among the rows a run read, those whose update the backend applied. *)
Lemma isOneOf_applied (applied : string -> bool) (ids : list string) (r : RawEvent) :
  isOneOf (filter applied ids) r = isOneOf ids r && applied (id r).
Proof.
  unfold isOneOf. induction ids as [ | i ids IH ]; [ reflexivity | ].
  simpl. destruct (String.eqb (id r) i) eqn:E.
  - apply String.eqb_eq in E. subst i.
    destruct (applied (id r)); simpl.
    + now rewrite String.eqb_refl.
    + rewrite IH. now rewrite andb_false_r.
  - destruct (applied i); simpl; [ rewrite E | ]; exact IH.
Qed.

Lemma rows_pointwise (P : RawEvent -> RawEvent -> Prop) (f : RawEvent -> RawEvent)
  (table : list RawEvent) :
  (forall r, In r table -> P r (f r)) -> Forall2 P table (map f table).
Proof.
  induction table as [ | x table IH ]; intros HP; simpl; constructor.
  - apply HP. now left.
  - apply IH. intros r I. apply HP. now right.
Qed.

Lemma sameButFlag_refl (r : RawEvent) : sameButFlag r r.
Proof. repeat split. Qed.

Lemma isOneOf_In (ids : list string) (r : RawEvent) :
  isOneOf ids r = true <-> In (id r) ids.
Proof.
  unfold isOneOf. rewrite existsb_exists. split.
  - intros (i & I & E). apply String.eqb_eq in E. now rewrite E.
  - intros I. exists (id r). split; [ exact I | apply String.eqb_refl ].
Qed.

(** In a table that obeys its schema, the rows selected as unprocessed
    are recognised by their [id]. *)
Lemma selected_iff_unprocessed (table : list RawEvent) (r : RawEvent) :
  NoDup (map id table) -> In r table ->
  isOneOf (map id (selectUnprocessed table)) r = negb (is_processed r).
Proof.
  intros N I.
  destruct (is_processed r) eqn:P; simpl.
  - destruct (isOneOf _ r) eqn:O; [ | reflexivity ].
    apply isOneOf_In in O. apply in_map_iff in O. destruct O as (r' & E & I').
    apply (Permutation_in _ (selectUnprocessed_perm table)) in I'.
    apply filter_In in I'. destruct I' as [I' P'].
    rewrite (NoDup_map_injective id table r' r N I' I E) in P'.
    rewrite P in P'. discriminate.
  - apply isOneOf_In. apply in_map.
    apply (Permutation_in _ (Permutation_sym (selectUnprocessed_perm table))).
    apply filter_In. rewrite P. auto.
Qed.

(** C9 (amended).  On the stored-data path, over a table that obeys its
    schema, the run sends exactly one update for every row it read as
    unprocessed and none for any other row, whatever the extraction from
    the row yields.  The run does not read what becomes of an update:
    afterwards a row has its flag set exactly if it had it before or the
    backend applied its update, and every row is in all other fields as
    before.  So when the backend applies the updates, every row is
    processed afterwards. *)
Theorem unprocessed_rows_flagged_once (w : World) (db : Store) (req : Request)
  (requestBody : RequestPayload) :
  method req = "POST" -> json req = Some requestBody ->
  raw_data requestBody = None ->
  raw_events_readable w = true ->
  obeysSchema (raw_events db) ->
  let run := serve w db req in
  (forall r, In r (raw_events db) ->
     count_occ string_dec (updatesOf (statements run)) (id r)
     = if is_processed r then 0%nat else 1%nat)
  /\ Forall2 (fun r r' =>
                sameButFlag r r'
                /\ is_processed r' = (is_processed r || updateProcessed w (id r)))
             (raw_events db) (raw_events (store run))
  /\ ((forall row, updateProcessed w row = true) ->
      Forall (fun r' => is_processed r' = true) (raw_events (store run))).
Proof.
  intros M J R A (N & L). cbv zeta.
  rewrite (serve_post _ _ _ _ M J).
  rewrite classifyAndFanOut_updates.
  rewrite (proj1 (classifyAndFanOut_reports w db requestBody _ _ _ _ _ _)).
  unfold tableOf, gathered, gatherEvents. rewrite R, A.
  set (startDate := fst (resolveDateRange (now w) requestBody)).
  set (endDate := snd (resolveDateRange (now w) requestBody)).
  pose proof (selected_iff_unprocessed (raw_events db)) as Sel.
  rewrite Forall_forall in L.
  assert (Table :
            snd (fst (let '(events, table', ops) :=
                        storedEvents (updateProcessed w) (now w) startDate endDate
                          (selectUnprocessed (raw_events db)) (raw_events db) in
                      (events, "database_stored", table', SelectUnprocessed :: ops)))
            = map (fun r => if negb (is_processed r) && updateProcessed w (id r)
                            then afterUpdate r else r) (raw_events db)).
  { pose proof (storedEvents_table (updateProcessed w) (now w) startDate endDate
                  (selectUnprocessed (raw_events db)) (raw_events db)) as T.
    destruct (storedEvents (updateProcessed w) (now w) startDate endDate
                (selectUnprocessed (raw_events db)) (raw_events db))
      as [[events table'] ops].
    simpl fst in *. simpl snd in *. subst table'.
    apply map_ext_in. intros r I.
    now rewrite isOneOf_applied, (Sel r N I). }
  assert (Rows :
            Forall2 (fun r r' =>
                       sameButFlag r r'
                       /\ is_processed r'
                          = (is_processed r || updateProcessed w (id r)))
                    (raw_events db)
                    (map (fun r => if negb (is_processed r) && updateProcessed w (id r)
                                   then afterUpdate r else r) (raw_events db))).
  { apply rows_pointwise. intros r I.
    destruct (is_processed r) eqn:P; cbn [negb andb orb].
    - split; [ apply sameButFlag_refl | exact P ].
    - destruct (updateProcessed w (id r)).
      + split; [ | reflexivity ].
        rewrite (afterUpdate_obeying r (L r I)). repeat split.
      + split; [ apply sameButFlag_refl | exact P ]. }
  assert (All : (forall row, updateProcessed w row = true) ->
                Forall (fun r' => is_processed r' = true)
                       (map (fun r => if negb (is_processed r)
                                         && updateProcessed w (id r)
                                      then afterUpdate r else r) (raw_events db))).
  { intros U. apply Forall_forall. intros r' I'.
    apply in_map_iff in I'. destruct I' as (r & <- & _). rewrite U.
    destruct (is_processed r) eqn:P; [ exact P | reflexivity ]. }
  destruct (selectUnprocessed (raw_events db)) as [ | x rows ] eqn:E.
  - (* no unprocessed row: nothing is read and nothing is sent *)
    assert (P : forall r, In r (raw_events db) -> is_processed r = true).
    { intros r I. specialize (Sel r N I). simpl in Sel.
      destruct (is_processed r); [ reflexivity | discriminate ]. }
    assert (Same : map (fun r => if negb (is_processed r) && updateProcessed w (id r)
                                 then afterUpdate r else r) (raw_events db)
                   = raw_events db).
    { rewrite <- (map_id (raw_events db)) at 2.
      apply map_ext_in. intros r I. now rewrite (P r I). }
    simpl. rewrite Same in Rows, All. split; [ | split ].
    + intros r I. now rewrite (P r I).
    + exact Rows.
    + exact All.
  - rewrite Table.
    pose proof (storedEvents_statements (updateProcessed w) (now w) startDate endDate
                  (x :: rows) (raw_events db)) as S.
    destruct (storedEvents (updateProcessed w) (now w) startDate endDate
                (x :: rows) (raw_events db))
      as [[events table'] ops].
    simpl snd in *. subst ops. split; [ | split; [ exact Rows | exact All ] ].
    intros r I.
    change (updatesOf (SelectUnprocessed
                         :: map (fun r0 => UpdateProcessed (id r0)) (x :: rows)))
      with (updatesOf (map (fun r0 => UpdateProcessed (id r0)) (x :: rows))).
    rewrite updatesOf_updates.
    assert (ND : NoDup (map id (x :: rows))).
    { rewrite <- E.
      apply (Permutation_NoDup
               (Permutation_map id (Permutation_sym (selectUnprocessed_perm _)))).
      now apply unprocessed_keys_distinct. }
    specialize (Sel r N I).
    destruct (is_processed r); cbn [negb] in Sel.
    * apply count_occ_not_In. intros X. apply isOneOf_In in X.
      rewrite X in Sel. discriminate.
    * apply isOneOf_In in Sel.
      now apply (proj1 (NoDup_count_occ' string_dec _) ND).
Qed.

End RunProperties.

Lemma unprocessed_rows_flagged_once_witness :
  (forall r, In r (raw_events twoRows) ->
     count_occ string_dec
       (updatesOf (statements (serve (H := Runtime.utc) quietWorld twoRows scanStored)))
       (id r)
     = if is_processed r then 0%nat else 1%nat)
  /\ Forall2 (fun r r' =>
                sameButFlag r r'
                /\ is_processed r'
                   = (is_processed r || updateProcessed quietWorld (id r)))
             (raw_events twoRows)
             (raw_events (store (serve (H := Runtime.utc) quietWorld twoRows
                                       scanStored)))
  /\ ((forall row, updateProcessed quietWorld row = true) ->
      Forall (fun r' => is_processed r' = true)
             (raw_events (store (serve (H := Runtime.utc) quietWorld twoRows
                                       scanStored)))).
Proof.
  apply (unprocessed_rows_flagged_once (H := Runtime.utc) quietWorld twoRows
           scanStored scanStoredBody).
  - reflexivity.
  - reflexivity.
  - reflexivity.
  - reflexivity.
  - split.
    + simpl. repeat constructor; simpl; intuition discriminate.
    + simpl. repeat constructor.
Defined.

(** C9, as the specification states it, fails: the run reads the pending
    row and sends its update, the backend refuses the update, and the row
    is still unprocessed afterwards; the run does not notice. *)
Lemma refused_update_leaves_row_unprocessed :
  ~ (forall (w : World) (db : Store) (req : Request) (requestBody : RequestPayload),
        method req = "POST" -> json req = Some requestBody ->
        raw_data requestBody = None ->
        raw_events_readable w = true ->
        obeysSchema (raw_events db) ->
        forall r, In r (raw_events db) -> is_processed r = false ->
          exists r', In r' (raw_events (store (serve (H := Runtime.utc) w db req)))
                     /\ id r' = id r /\ is_processed r' = true).
Proof.
  intros claim.
  assert (S : obeysSchema (raw_events twoRows)).
  { split.
    - simpl. repeat constructor; simpl; intuition discriminate.
    - simpl. repeat constructor. }
  destruct (claim refusingWorld twoRows scanStored scanStoredBody
                  eq_refl eq_refl eq_refl eq_refl S pendingRow
                  (or_intror (or_introl eq_refl)) eq_refl)
    as (r' & I & E & P).
  assert (T : raw_events (store (serve (H := Runtime.utc) refusingWorld twoRows
                                       scanStored))
              = [consumedRow; pendingRow]) by (vm_compute; reflexivity).
  rewrite T in I. destruct I as [ <- | [ <- | [] ] ]; discriminate.
Qed.

(** C2, as the specification states it, fails: for a final event whose
    date is free text no insertion is attempted, although the run reaches
    the fan-out with one event and one profile. *)
Lemma free_text_date_skips_insertion :
  ~ (forall (w : World) (db : Store) (req : Request) (requestBody : RequestPayload),
        method req = "POST" -> json req = Some requestBody ->
        reachesFanOut (H := Runtime.utc) w db requestBody ->
        attempts (statements (serve (H := Runtime.utc) w db req))
        = (List.length (finalEventsOf (H := Runtime.utc) w db requestBody)
           * List.length (winery_profiles w))%nat).
Proof.
  intros claim.
  specialize (claim freeTextDateWorld emptyStore scanStored scanStoredBody
                    eq_refl eq_refl).
  assert (R : reachesFanOut (H := Runtime.utc) freeTextDateWorld emptyStore
                            scanStoredBody).
  { unfold reachesFanOut. vm_compute. repeat split; discriminate. }
  specialize (claim R). vm_compute in claim. discriminate claim.
Qed.

(** With a date range that does not parse, the undated candidate still
    gets its brief, and the response is an error all the same. *)
Example invalid_window_fails_after_the_insertions :
  attempts (statements (serve (H := Runtime.utc) quietWorld emptyStore scanInvalidWindow))
  = 1%nat
  /\ response (serve (H := Runtime.utc) quietWorld emptyStore scanInvalidWindow)
     = InternalError InvalidTimeValue.
Proof. split; vm_compute; reflexivity. Qed.

Lemma fan_out_counts_witness :
  attempts (statements (serve (H := Runtime.utc) quietWorld emptyStore scanStored))
  = (List.length (finalEventsOf (H := Runtime.utc) quietWorld emptyStore scanStoredBody)
     * List.length (winery_profiles quietWorld))%nat
  /\ attempts (statements (serve (H := Runtime.utc) quietWorld emptyStore scanStored))
     = (created (statements (serve (H := Runtime.utc) quietWorld emptyStore scanStored))
        + failed (statements (serve (H := Runtime.utc) quietWorld emptyStore scanStored)))%nat
  /\ exists body,
       response (serve (H := Runtime.utc) quietWorld emptyStore scanStored) = Ok body
       /\ status (response (serve (H := Runtime.utc) quietWorld emptyStore scanStored))
          = 200
       /\ success body = true
       /\ briefs_created body
          = Some (Z.of_nat
                    (List.length (finalEventsOf (H := Runtime.utc) quietWorld emptyStore
                                                scanStoredBody)
                     * List.length (winery_profiles quietWorld))
                  - Z.of_nat (failed (statements
                       (serve (H := Runtime.utc) quietWorld emptyStore scanStored)))).
Proof.
  apply (fan_out_counts (H := Runtime.utc) quietWorld emptyStore scanStored
           scanStoredBody).
  - reflexivity.
  - reflexivity.
  - unfold reachesFanOut. vm_compute. repeat split; discriminate.
  - unfold validWindow. vm_compute. eauto.
  - apply Forall_forall. intros e I. vm_compute in I.
    destruct I as [ <- | [ <- | [] ] ]; vm_compute; reflexivity.
Defined.

(** C4, as the specification states it, fails: without inline payloads
    and without unprocessed rows the run does not extract zero events; it
    reports two and creates their briefs. *)
Lemma sample_events_are_processed :
  exists body,
    response (serve (H := Runtime.utc) quietWorld emptyStore scanStored) = Ok body
    /\ data_source body = "sample_events"
    /\ events_extracted body = Some 2
    /\ events_extracted body <> Some 0
    /\ briefs_created body = Some 2
    /\ List.length
         (research_briefs (store (serve (H := Runtime.utc) quietWorld emptyStore
                                        scanStored))) = 2%nat.
Proof.
  eexists. split; [ vm_compute; reflexivity | ].
  split; [ reflexivity | ]. split; [ reflexivity | ].
  split; [ discriminate | ]. split; [ reflexivity | ].
  vm_compute. reflexivity.
Qed.

Lemma no_stored_rows_runs_on_samples_witness :
  candidatesOf (H := Runtime.utc) quietWorld emptyStore scanStoredBody
  = sampleEvents noon
  /\ List.length (candidatesOf (H := Runtime.utc) quietWorld emptyStore scanStoredBody)
     = 2%nat
  /\ raw_events (store (serve (H := Runtime.utc) quietWorld emptyStore scanStored))
     = raw_events emptyStore
  /\ forall body,
       response (serve (H := Runtime.utc) quietWorld emptyStore scanStored) = Ok body ->
       data_source body = "sample_events"
       /\ (events_extracted body = Some 2 \/ events_extracted body = None).
Proof.
  apply (no_stored_rows_runs_on_samples (H := Runtime.utc) quietWorld emptyStore
           scanStored scanStoredBody).
  - reflexivity.
  - reflexivity.
  - reflexivity.
  - simpl. constructor.
Defined.

(* ================================================================== *)
(** ** The date heuristic *)
(* ================================================================== *)

Section DateHeuristic.
Context {H : Host}.

Lemma toLowerCase_app (a b : string) :
  toLowerCase (a ++ b) = toLowerCase a ++ toLowerCase b.
Proof. induction a as [ | c a IH ]; simpl; [ | rewrite IH ]; reflexivity. Qed.

Lemma is_digit_lower (a : ascii) : is_digit (lower a) = is_digit a.
Proof.
  destruct a as [[|] [|] [|] [|] [|] [|] [|] [|]]; reflexivity.
Qed.

Lemma noDigit_toLowerCase (s : string) : noDigit (toLowerCase s) = noDigit s.
Proof.
  induction s as [ | a s IH ]; simpl; [ reflexivity | ].
  now rewrite is_digit_lower, IH.
Qed.

Lemma sub_1 (n : nat) : (S n - n = 1)%nat. Proof. lia. Qed.
Lemma sub_2 (n : nat) : (S (S n) - n = 2)%nat. Proof. lia. Qed.
Lemma sub_4 (n : nat) : (S (S (S (S n))) - n = 4)%nat. Proof. lia. Qed.
Lemma sub_9 (n : nat) :
  (S (S (S (S (S (S (S (S (S n)))))))) - n = 9)%nat.
Proof. lia. Qed.

Lemma match_here_march15 (rest : string) :
  match_here numericWithYear ("3/15/2025" ++ rest)
  = Some ("3/15/2025", m_groups march15, rest).
Proof.
  unfold match_here, numericWithYear.
  lazy beta iota zeta delta -[Nat.sub take String.length].
  cbn [String.length]. repeat rewrite Nat.sub_succ.
  rewrite sub_9, sub_4, sub_2, sub_1. reflexivity.
Qed.

Lemma match_here_no_digit (a : ascii) (s : string) :
  is_digit a = false -> match_here numericWithYear (String a s) = None.
Proof.
  intros D. unfold match_here, numericWithYear.
  lazy beta iota zeta delta -[is_digit]. now rewrite D.
Qed.

Lemma search_march15 (prefix rest : string) (fuel pos : nat) :
  noDigit prefix = true -> (String.length prefix <= fuel)%nat ->
  search numericWithYear fuel pos (prefix ++ "3/15/2025" ++ rest)
  = Some ({| m_index := pos + String.length prefix; m_text := "3/15/2025";
             m_groups := m_groups march15 |}, rest).
Proof.
  revert fuel pos. induction prefix as [ | a prefix IH ]; intros fuel pos N L.
  - change ("" ++ "3/15/2025" ++ rest) with ("3/15/2025" ++ rest).
    destruct fuel; unfold search; fold search; rewrite match_here_march15;
      simpl; now rewrite Nat.add_0_r.
  - simpl in N. apply andb_prop in N. destruct N as [D N].
    apply negb_true_iff in D.
    destruct fuel as [ | fuel ]; [ simpl in L; lia | ].
    change (String a prefix ++ "3/15/2025" ++ rest)
      with (String a (prefix ++ "3/15/2025" ++ rest)).
    unfold search; fold search. rewrite (match_here_no_digit _ _ D).
    rewrite IH; [ | exact N | simpl in L; lia ].
    simpl String.length. now rewrite Nat.add_succ_r.
Qed.

Lemma length_append (a b : string) :
  String.length (a ++ b) = (String.length a + String.length b)%nat.
Proof. induction a as [ | c a IH ]; simpl; [ | rewrite IH ]; reflexivity. Qed.

Lemma append_assoc (a b c : string) : (a ++ b) ++ c = a ++ b ++ c.
Proof. induction a as [ | x a IH ]; simpl; [ | rewrite IH ]; reflexivity. Qed.

Lemma matchAll_march15 (prefix rest : string) :
  noDigit prefix = true ->
  exists m ms,
    matchAll numericWithYear (prefix ++ "3/15/2025" ++ rest) = m :: ms
    /\ m_text m = "3/15/2025" /\ m_groups m = m_groups march15.
Proof.
  intros N. unfold matchAll.
  set (text := prefix ++ "3/15/2025" ++ rest).
  unfold matchAll_from; fold matchAll_from.
  unfold text at 2. rewrite (search_march15 prefix rest _ 0 N).
  - cbn [m_text m_index]. eexists. eexists. split; [ reflexivity | ].
    split; reflexivity.
  - unfold text. rewrite length_append. lia.
Qed.

Lemma eventDateOf_march15 (currentYear : Z) (m : Match) :
  m_text m = "3/15/2025" -> m_groups m = m_groups march15 ->
  eventDateOf currentYear m = Date_of_fields 2025 2 15.
Proof.
  intros T G. unfold eventDateOf, yearOf, grp. rewrite T, G. reflexivity.
Qed.

Lemma Date_of_fields_march15 :
  Z.abs LocalTZA <= msPerDay ->
  Date_of_fields 2025 2 15 = Some (UTC 1741996800000).
Proof.
  intros B. unfold Date_of_fields, TimeClip.
  change (MakeDate (MakeDay (if (0 <=? 2025) && (2025 <=? 99) then 1900 + 2025 else 2025) 2 15) 0)
    with 1741996800000.
  unfold UTC, msPerDay in *.
  destruct (Z.abs (1741996800000 - LocalTZA) <=? 8640000000000000) eqn:E;
    [ reflexivity | ].
  apply Z.leb_gt in E. lia.
Qed.

Lemma LocalTime_UTC (t : Z) : LocalTime (UTC t) = t.
Proof. unfold LocalTime, UTC. lia. Qed.

Lemma plausible_march15 (currentYear : Z) :
  2023 <= currentYear <= 2025 ->
  plausible currentYear (Some (UTC 1741996800000)) = true.
Proof.
  intros B. unfold plausible, getFullYear, getMonth, getDate.
  rewrite LocalTime_UTC.
  change (YearFromTime 1741996800000) with 2025.
  change (MonthFromTime 1741996800000) with 2.
  change (DateFromTime 1741996800000) with 15.
  replace (currentYear <=? 2025) with true by (symmetry; apply Z.leb_le; lia).
  replace (2025 <=? currentYear + 1 + 1) with true by (symmetry; apply Z.leb_le; lia).
  reflexivity.
Qed.

Lemma plausible_bounds (currentYear t : Z) :
  plausible currentYear (Some t) = true ->
  currentYear <= getFullYear t <= currentYear + 2
  /\ 0 <= getMonth t <= 11 /\ 1 <= getDate t <= 31.
Proof.
  unfold plausible. intros P.
  repeat (apply andb_prop in P; destruct P as [P ?]).
  repeat match goal with
         | E : (_ <=? _) = true |- _ => apply Z.leb_le in E
         end.
  lia.
Qed.

Lemma firstPlausible_plausible (currentYear : Z) (ms : list Match) (t : Z) :
  firstPlausible currentYear ms = Some t -> plausible currentYear (Some t) = true.
Proof.
  induction ms as [ | m ms IH ]; simpl; [ discriminate | ].
  destruct (plausible currentYear (eventDateOf currentYear m)) eqn:P; [ | exact IH ].
  intros E. now rewrite E in P.
Qed.

Lemma inTextDate_plausible (currentYear : Z) (patterns : list regex) (text : string)
  (t : Z) :
  inTextDate currentYear patterns text = Some t ->
  plausible currentYear (Some t) = true.
Proof.
  induction patterns as [ | p patterns IH ]; simpl; [ discriminate | ].
  destruct (firstPlausible currentYear (matchAll p text)) as [ t' | ] eqn:F;
    [ | exact IH ].
  intros [= <-]. exact (firstPlausible_plausible _ _ _ F).
Qed.

Lemma truthy_iff (s : string) : truthy s = true <-> s <> "".
Proof. destruct s; simpl; split; congruence. Qed.

Lemma pubDateDate_Some (currentYear : Z) (pubDate : string) (t : Z) :
  pubDateDate currentYear pubDate = Some t
  <-> pubDate <> "" /\ Date_parse pubDate = Some t /\ currentYear - 1 <= getFullYear t.
Proof.
  unfold pubDateDate. split.
  - destruct (truthy pubDate) eqn:T; [ | discriminate ].
    destruct (Date_parse pubDate) as [ t' | ]; [ | discriminate ].
    destruct (currentYear - 1 <=? getFullYear t') eqn:Y; [ | discriminate ].
    intros [= <-]. apply Z.leb_le in Y. apply truthy_iff in T. auto.
  - intros (T & D & Y). apply truthy_iff in T. rewrite T, D.
    apply Z.leb_le in Y. now rewrite Y.
Qed.

(** C6 (amended).  (1) A date found in the text is accepted only if the
    year of the calendar date read from it lies between the current year
    and the current year + 2; the heuristic then returns that date.
    Nothing is stated here about a date in the text whose month or day
    number is out of range.  (2) If no date in the
    text is accepted, the heuristic returns the published-date hint
    exactly when the hint is not empty, parses as a date and has a year
    not more than one before the current year; otherwise it returns none.
    (3) For a title with [3/15/2025] after a prefix without digits, the
    heuristic returns local midnight of 15 March 2025, which under UTC
    reads 2025-03-15T00:00:00.000Z, provided the current year is 2023,
    2024 or 2025. *)
Theorem date_heuristic (now : Z) (title description pubDate : string) :
  let currentYear := getFullYear now in
  let text := toLowerCase (title ++ " " ++ description) in
  (forall t,
      inTextDate currentYear datePatterns text = Some t ->
      extractEventDate now title description pubDate = Some (iso_of_time t)
      /\ currentYear <= getFullYear t <= currentYear + 2)
  /\ (inTextDate currentYear datePatterns text = None ->
      forall s,
        extractEventDate now title description pubDate = Some s
        <-> exists t,
              pubDate <> "" /\ Date_parse pubDate = Some t
              /\ currentYear - 1 <= getFullYear t /\ s = iso_of_time t)
  /\ (forall prefix suffix,
         title = prefix ++ "3/15/2025" ++ suffix ->
         noDigit prefix = true ->
         2023 <= currentYear <= 2025 ->
         Z.abs LocalTZA <= msPerDay ->
         exists t,
           extractEventDate now title description pubDate = Some (iso_of_time t)
           /\ getFullYear t = 2025 /\ getMonth t = 2 /\ getDate t = 15
           /\ (LocalTZA = 0 -> iso_of_time t = "2025-03-15T00:00:00.000Z")).
Proof.
  cbv zeta. split; [ | split ].
  - intros t I. unfold extractEventDate. rewrite I.
    split; [ reflexivity | ].
    exact (proj1 (plausible_bounds _ _ (inTextDate_plausible _ _ _ _ I))).
  - intros I s. unfold extractEventDate. rewrite I. split.
    + destruct (pubDateDate (getFullYear now) pubDate) as [ t | ] eqn:P;
        [ | discriminate ].
      intros [= <-]. apply pubDateDate_Some in P. exists t. tauto.
    + intros (t & T & D & Y & ->).
      now rewrite (proj2 (pubDateDate_Some _ _ _) (conj T (conj D Y))).
  - intros prefix suffix -> N Y B.
    exists (UTC 1741996800000).
    assert (E : extractEventDate now (prefix ++ "3/15/2025" ++ suffix) description pubDate
                = Some (iso_of_time (UTC 1741996800000))).
    { unfold extractEventDate.
      replace (toLowerCase ((prefix ++ "3/15/2025" ++ suffix) ++ " " ++ description))
        with (toLowerCase prefix ++ "3/15/2025"
              ++ toLowerCase (suffix ++ " " ++ description)).
      2:{ rewrite (toLowerCase_app suffix).
          rewrite (toLowerCase_app (prefix ++ "3/15/2025" ++ suffix)).
          rewrite (toLowerCase_app prefix), append_assoc. reflexivity. }
      change datePatterns with (numericWithYear :: tl datePatterns).
      unfold inTextDate; fold inTextDate.
      rewrite <- noDigit_toLowerCase in N.
      destruct (matchAll_march15 (toLowerCase prefix)
                  (toLowerCase (suffix ++ " " ++ description)) N)
        as (m & ms & -> & T & G).
      unfold firstPlausible; fold firstPlausible.
      rewrite (eventDateOf_march15 _ _ T G), (Date_of_fields_march15 B).
      rewrite (plausible_march15 _ Y). reflexivity. }
    split; [ exact E | ].
    unfold getFullYear, getMonth, getDate. rewrite LocalTime_UTC.
    repeat split.
    intros Z0. unfold UTC. rewrite Z0. reflexivity.
Qed.

End DateHeuristic.

(** C6, as the specification states it, fails: in 2026 the text
    [3/15/2025] is read as 15 March 2026, since the match with its year
    is rejected as past and the pattern without a year then matches the
    first two numbers. *)
Lemma march15_depends_on_the_current_year :
  JS.getFullYear (H := Runtime.utc) nextAutumn = 2026
  /\ extractEventDate (H := Runtime.utc) nextAutumn "3/15/2025" "" ""
     = Some "2026-03-15T00:00:00.000Z"
  /\ extractEventDate (H := Runtime.utc) nextAutumn "3/15/2025" "" ""
     <> Some "2025-03-15T00:00:00.000Z".
Proof.
  split; [ reflexivity | ].
  assert (E : extractEventDate (H := Runtime.utc) nextAutumn "3/15/2025" "" ""
              = Some "2026-03-15T00:00:00.000Z") by (vm_compute; reflexivity).
  split; [ exact E | ]. rewrite E. discriminate.
Qed.

(** A month and a day out of range are rolled over, not rejected. *)
Example month_and_day_roll_over :
  extractEventDate (H := Runtime.utc) noon "Gala 13/45/2025" "" ""
  = Some "2026-02-14T00:00:00.000Z".
Proof. vm_compute. reflexivity. Qed.

Lemma date_heuristic_witness :
  (extractEventDate (H := Runtime.utc) noon "Gala 12/31/2025" "" ""
   = Some (iso_of_time 1767139200000)
   /\ 2025 <= JS.getFullYear (H := Runtime.utc) 1767139200000 <= 2025 + 2)
  /\ (extractEventDate (H := Runtime.utc) noon "Harvest Market" "" "2025-06-01"
      = Some "2025-06-01T00:00:00.000Z")
  /\ (exists t,
         extractEventDate (H := Runtime.utc) noon "Loudoun Wine Festival 3/15/2025" "" ""
         = Some (iso_of_time t)
         /\ JS.getFullYear (H := Runtime.utc) t = 2025
         /\ JS.getMonth (H := Runtime.utc) t = 2
         /\ JS.getDate (H := Runtime.utc) t = 15
         /\ (@JS.LocalTZA Runtime.utc = 0 ->
             iso_of_time t = "2025-03-15T00:00:00.000Z")).
Proof.
  split; [ | split ].
  - pose proof (proj1 (date_heuristic (H := Runtime.utc) noon "Gala 12/31/2025" "" "")
                  1767139200000) as P.
    cbv zeta in P.
    assert (I : inTextDate (H := Runtime.utc) (JS.getFullYear (H := Runtime.utc) noon)
                  datePatterns (toLowerCase ("Gala 12/31/2025" ++ " " ++ ""))
                = Some 1767139200000) by (vm_compute; reflexivity).
    destruct (P I) as (E & Y). split; [ exact E | exact Y ].
  - apply (proj1 (proj2 (date_heuristic (H := Runtime.utc) noon "Harvest Market" ""
                           "2025-06-01"))).
    + vm_compute. reflexivity.
    + exists 1748736000000. repeat split.
      * discriminate.
      * vm_compute. discriminate.
  - apply (proj2 (proj2 (date_heuristic (H := Runtime.utc) noon
                           "Loudoun Wine Festival 3/15/2025" "" ""))
             "Loudoun Wine Festival " "").
    + reflexivity.
    + reflexivity.
    + vm_compute. split; discriminate.
    + vm_compute. discriminate.
Defined.

(* ================================================================== *)
(** ** The pattern engine *)
(* ================================================================== *)

Lemma star_unfold (g : bool) (r : regex) (A : Type) (s : string) (c : captures)
  (k : string -> captures -> option A) :
  rmatch (Star g r) A s c k = starLoop g r A k (String.length s) s c.
Proof. reflexivity. Qed.

Lemma starLoop_S (g : bool) (r : regex) (A : Type)
  (k : string -> captures -> option A) (fuel : nat) (s : string) (c : captures) :
  starLoop g r A k (S fuel) s c
  = let again :=
      rmatch r A s c
        (fun s1 c1 =>
           if (String.length s1 <? String.length s)%nat
           then starLoop g r A k fuel s1 c1 else None) in
    if g
    then match again with Some x => Some x | None => k s c end
    else match k s c with Some x => Some x | None => again end.
Proof. reflexivity. Qed.

Section Engine.
Variable q : ascii -> bool.

Lemma rmatch_lacks_cont (r : regex) :
  forall (A : Type) (s : string) (c : captures) (k : string -> captures -> option A),
    lacks q s = true ->
    (forall s' c', lacks q s' = true -> k s' c' = None) ->
    rmatch r A s c k = None.
Proof.
  induction r as [ | p | r1 IH1 r2 IH2 | r1 IH1 r2 IH2 | g r IH | n r IH | r IH ];
    intros A s c k L K.
  - now apply K.
  - destruct s as [ | a s ]; [ reflexivity | ]. simpl.
    simpl in L. apply andb_prop in L. destruct L as [_ L].
    destruct (p a); [ now apply K | reflexivity ].
  - simpl. apply IH1; [ exact L | ]. intros s1 c1 L1. now apply IH2.
  - simpl. rewrite IH1 by assumption. now apply IH2.
  - rewrite star_unfold. generalize (String.length s). intros fuel. revert s c L.
    induction fuel as [ | fuel IHf ]; intros s c L.
    + now apply K.
    + rewrite starLoop_S. cbv zeta.
      rewrite IH; [ | exact L | ].
      * rewrite (K s c L). now destruct g.
      * intros s1 c1 L1.
        destruct (String.length s1 <? String.length s)%nat; [ | reflexivity ].
        now apply IHf.
  - simpl. apply IH; [ exact L | ]. intros s1 c1 L1. now apply K.
  - simpl.
    destruct (rmatch r unit s c (fun _ _ => Some tt)); [ reflexivity | now apply K ].
Qed.

Lemma rmatch_needs (r : regex) :
  needs q r ->
  forall (A : Type) (s : string) (c : captures) (k : string -> captures -> option A),
    lacks q s = true -> rmatch r A s c k = None.
Proof.
  induction r as [ | p | r1 IH1 r2 IH2 | r1 IH1 r2 IH2 | g r IH | n r IH | r IH ];
    simpl; intros N A s c k L; try contradiction.
  - destruct s as [ | a s ]; [ reflexivity | ].
    simpl in L. apply andb_prop in L. destruct L as [Q _].
    destruct (p a) eqn:P; [ | reflexivity ].
    rewrite (N a P) in Q. discriminate.
  - destruct N as [N | N].
    + now apply IH1.
    + apply rmatch_lacks_cont; [ exact L | ]. intros s1 c1 L1. now apply IH2.
  - destruct N as [N1 N2]. rewrite IH1 by assumption. now apply IH2.
  - now apply IH.
Qed.

Lemma search_needs (r : regex) (fuel pos : nat) (s : string) :
  needs q r -> lacks q s = true -> search r fuel pos s = None.
Proof.
  intros N. revert fuel pos. induction s as [ | a s IH ]; intros fuel pos L.
  - destruct fuel; simpl; unfold match_here; now rewrite (rmatch_needs r N).
  - destruct fuel; simpl; unfold match_here; rewrite (rmatch_needs r N) by exact L.
    + reflexivity.
    + simpl in L. apply andb_prop in L. now apply IH.
Qed.

Lemma matchAll_needs (r : regex) (s : string) :
  needs q r -> lacks q s = true -> matchAll r s = [].
Proof.
  intros N L. unfold matchAll. simpl. now rewrite (search_needs r _ _ s N L).
Qed.

End Engine.

Lemma starLoop_class (p : ascii -> bool) (A : Type)
  (k : string -> captures -> option A) (c : captures) (fuel : nat) (s : string) :
  (String.length s <= fuel)%nat ->
  starLoop true (Chr p) A k fuel s c = greedyRun p A (fun s' => k s' c) s.
Proof.
  revert s. induction fuel as [ | fuel IH ]; intros s L.
  - destruct s; [ reflexivity | simpl in L; lia ].
  - rewrite starLoop_S. cbv zeta. destruct s as [ | a s ]; [ reflexivity | ].
    simpl rmatch. simpl greedyRun.
    destruct (p a); [ | reflexivity ].
    assert (T : (String.length s <? S (String.length s))%nat = true)
      by (apply Nat.ltb_lt; lia).
    cbn [String.length]. rewrite T, IH by (simpl in L; lia). reflexivity.
Qed.

Lemma star_class (p : ascii -> bool) (A : Type) (s : string) (c : captures)
  (k : string -> captures -> option A) :
  rmatch (Star true (Chr p)) A s c k = greedyRun p A (fun s' => k s' c) s.
Proof. rewrite star_unfold. now apply starLoop_class. Qed.

Lemma restOf_refl (s : string) : restOf s s.
Proof. now exists "". Qed.

Lemma restOf_trans (a b c : string) : restOf a b -> restOf b c -> restOf a c.
Proof.
  intros (p & ->) (p' & ->). exists (p' ++ p).
  induction p' as [ | x p' IH ]; simpl; [ reflexivity | now rewrite IH ].
Qed.

Lemma restOf_tail (a : ascii) (s : string) : restOf s (String a s).
Proof. now exists (String a ""). Qed.

(** The matcher only moves forward: its continuation is reached on a
    rest of the input. *)
Lemma rmatch_rest (r : regex) :
  forall (A : Type) (s : string) (c : captures) (k : string -> captures -> option A)
         (x : A),
    rmatch r A s c k = Some x ->
    exists s' c', restOf s' s /\ k s' c' = Some x.
Proof.
  induction r as [ | p | r1 IH1 r2 IH2 | r1 IH1 r2 IH2 | g r IH | n r IH | r IH ];
    intros A s c k x E.
  - exists s, c. split; [ apply restOf_refl | exact E ].
  - destruct s as [ | a s ]; simpl in E; [ discriminate | ].
    destruct (p a); [ | discriminate ].
    exists s, c. split; [ apply restOf_tail | exact E ].
  - simpl in E. apply IH1 in E. destruct E as (s1 & c1 & R1 & E).
    apply IH2 in E. destruct E as (s2 & c2 & R2 & E).
    exists s2, c2. split; [ exact (restOf_trans _ _ _ R2 R1) | exact E ].
  - simpl in E. destruct (rmatch r1 A s c k) eqn:E1.
    + injection E as <-. now apply IH1 in E1.
    + now apply IH2 in E.
  - rewrite star_unfold in E. revert E. generalize (String.length s). intros fuel.
    revert s c x. induction fuel as [ | fuel IHf ]; intros s c x E.
    + exists s, c. split; [ apply restOf_refl | exact E ].
    + rewrite starLoop_S in E. cbv zeta in E.
      assert (G : forall y,
                 rmatch r A s c
                   (fun s1 c1 =>
                      if (String.length s1 <? String.length s)%nat
                      then starLoop g r A k fuel s1 c1 else None) = Some y ->
                 exists s' c', restOf s' s /\ k s' c' = Some y).
      { intros y Ey. apply IH in Ey. destruct Ey as (s1 & c1 & R1 & Ey).
        destruct (String.length s1 <? String.length s)%nat; [ | discriminate ].
        apply IHf in Ey. destruct Ey as (s2 & c2 & R2 & Ey).
        exists s2, c2. split; [ exact (restOf_trans _ _ _ R2 R1) | exact Ey ]. }
      destruct g.
      * destruct (rmatch r A s c _) eqn:Ea.
        -- injection E as <-. now apply G.
        -- exists s, c. split; [ apply restOf_refl | exact E ].
      * destruct (k s c) eqn:Ek.
        -- injection E as <-. exists s, c. split; [ apply restOf_refl | exact Ek ].
        -- now apply G.
  - simpl in E. apply IH in E. destruct E as (s1 & c1 & R1 & E).
    exists s1. eexists. split; [ exact R1 | exact E ].
  - simpl in E. destruct (rmatch r unit s c (fun _ _ => Some tt)); [ discriminate | ].
    exists s, c. split; [ apply restOf_refl | exact E ].
Qed.

Lemma take_front (p r : string) :
  take (String.length (p ++ r) - String.length r) (p ++ r) = p.
Proof.
  rewrite length_append, Nat.add_sub.
  induction p as [ | x p IH ]; simpl; [ | rewrite IH ]; reflexivity.
Qed.

(** A match splits the input into the matched text and the rest. *)
Lemma match_here_splits (r : regex) (s txt rest : string) (c : captures) :
  match_here r s = Some (txt, c, rest) -> s = txt ++ rest.
Proof.
  unfold match_here. intros E. apply rmatch_rest in E.
  destruct E as (s' & c' & (p & ->) & E).
  rewrite take_front in E. now injection E as <- _ <-.
Qed.

(* ================================================================== *)
(** ** Texts without digits or markup *)
(* ================================================================== *)

Section MoreCandidateProperties.
Context {H : Host}.

Lemma noDigit_lacks (s : string) : noDigit s = lacks is_digit s.
Proof. induction s as [ | a s IH ]; simpl; [ | rewrite IH ]; reflexivity. Qed.

Lemma lacks_app (q : ascii -> bool) (a b : string) :
  lacks q (a ++ b) = lacks q a && lacks q b.
Proof.
  induction a as [ | x a IH ]; simpl; [ reflexivity | ].
  now rewrite IH, andb_assoc.
Qed.

(** Finds, in a pattern, the character class every match has to take in. *)
Ltac find_class :=
  simpl;
  solve [ intros a E; exact E
        | left; find_class
        | right; find_class ].

Lemma datePatterns_need_a_digit : Forall (needs is_digit) datePatterns.
Proof.
  unfold datePatterns.
  repeat (apply Forall_cons; [ find_class | ]). apply Forall_nil.
Qed.

Lemma inTextDate_none (currentYear : Z) (patterns : list regex) (text : string) :
  Forall (needs is_digit) patterns -> lacks is_digit text = true ->
  inTextDate currentYear patterns text = None.
Proof.
  intros N L. induction N as [ | p patterns Np _ IH ]; simpl; [ reflexivity | ].
  now rewrite (matchAll_needs is_digit p text Np L).
Qed.

(** X1.  A title and a description without any digit carry no date: the
    heuristic answers from the published-date hint alone, and answers
    none when there is no hint. *)
Theorem no_digit_no_date (now : Z) (title description pubDate : string) :
  noDigit title = true -> noDigit description = true ->
  extractEventDate now title description pubDate = extractEventDate now "" "" pubDate
  /\ extractEventDate now title description "" = None.
Proof.
  intros T D.
  assert (L : lacks is_digit (toLowerCase (title ++ " " ++ description)) = true).
  { rewrite <- noDigit_lacks, noDigit_toLowerCase, noDigit_lacks, !lacks_app,
      <- !noDigit_lacks, T, D. reflexivity. }
  unfold extractEventDate.
  rewrite (inTextDate_none _ _ _ datePatterns_need_a_digit L).
  rewrite (inTextDate_none _ _ (toLowerCase ("" ++ " " ++ ""))
             datePatterns_need_a_digit eq_refl).
  split; reflexivity.
Qed.

Lemma chr_eq_ci_lt (a : ascii) : chr_eq_ci "<" a = chr_eq "<" a.
Proof. destruct a as [[|] [|] [|] [|] [|] [|] [|] [|]]; reflexivity. Qed.

Lemma includes_lt (s : string) : includes s "<" = negb (lacks isLt s).
Proof.
  induction s as [ | a s IH ]; [ reflexivity | ].
  change (includes (String a s) "<") with ((chr_eq "<" a && true) || includes s "<").
  rewrite IH. cbn [lacks]. change (isLt a) with (chr_eq "<" a).
  destruct (chr_eq "<" a); reflexivity.
Qed.

Lemma itemRegex_needs_lt : needs isLt itemRegex.
Proof.
  unfold itemRegex. simpl. left. left. intros a E.
  unfold isLt. now rewrite <- chr_eq_ci_lt.
Qed.

Lemma parseXML_plain (xmlString : string) :
  lacks isLt xmlString = true -> parseXML xmlString = [].
Proof.
  intros L. unfold parseXML.
  now rewrite (matchAll_needs isLt itemRegex xmlString itemRegex_needs_lt L).
Qed.

(** X2.  A payload without any opening angle bracket has no item blocks:
    the parser returns the empty sequence and the builder no candidate. *)
Theorem text_without_markup_yields_nothing (now : Z)
  (rssXml sourceUrl sourceName : string) (startDate endDate : option Z) :
  includes rssXml "<" = false ->
  parseXML rssXml = []
  /\ extractRSSEvents now rssXml sourceUrl sourceName startDate endDate = [].
Proof.
  intros I. rewrite includes_lt in I. apply negb_false_iff in I.
  unfold extractRSSEvents. rewrite (parseXML_plain _ I). split; reflexivity.
Qed.

(** X3.  When either end of the date window is not a valid date, the
    range test rejects every date.  So every item from which the
    heuristic derives a date contributes no candidate, and from the own
    title, description and published-date hint of a candidate the builder
    does produce the heuristic derives no date: the candidate is undated
    because it has no date, not because its date was dropped. *)
Theorem invalid_window_keeps_only_undated (now : Z)
  (rssXml sourceUrl sourceName : string) (startDate endDate : option Z) :
  startDate = None \/ endDate = None ->
  (forall d, isEventInDateRange d startDate endDate = false)
  /\ (forall item d,
        orUndefined
          (extractEventDate now (clean (opt_or (item_title item) ""))
             (clean (opt_or (item_description item) ""))
             (opt_or (item_pubDate item) "")) = Some d ->
        eventOfItem now sourceUrl sourceName startDate endDate item = None)
  /\ (forall ev,
        In ev (extractRSSEvents now rssXml sourceUrl sourceName startDate endDate) ->
        event_date ev = None
        /\ orUndefined
             (extractEventDate now (title ev) (description ev) (published ev))
           = None).
Proof.
  intros W.
  assert (Out : forall d, isEventInDateRange d startDate endDate = false).
  { intros d. unfold isEventInDateRange.
    destruct W as [ -> | -> ]; [ reflexivity | ].
    destruct (date_le startDate (Date_parse d)); [ | reflexivity ].
    now destruct (Date_parse d). }
  split; [ exact Out | ]. split.
  - intros item d D. unfold eventOfItem.
    destruct (truthy _ && _); [ | reflexivity ].
    now rewrite D, Out.
  - intros ev I. unfold extractRSSEvents in I.
    apply collect_In in I. destruct I as (item & _ & E).
    pose proof (eventOfItem_date _ _ _ _ _ _ _ E) as Link.
    apply eventOfItem_Some in E. destruct E as (_ & _ & [ N | (d & _ & R) ]).
    + split; [ exact N | ]. now rewrite <- Link.
    + now rewrite Out in R.
Qed.

Lemma collect_length {A B : Type} (f : A -> option B) (l : list A) :
  (List.length (collect f l) <= List.length l)%nat.
Proof.
  induction l as [ | x l IH ]; simpl; [ lia | ].
  destruct (f x); simpl; lia.
Qed.

Lemma extractRSSEvents_length (now : Z) (rssXml sourceUrl sourceName : string)
  (startDate endDate : option Z) :
  (List.length (extractRSSEvents now rssXml sourceUrl sourceName startDate endDate)
   <= 100)%nat.
Proof.
  unfold extractRSSEvents.
  etransitivity; [ apply collect_length | apply firstn_le_length ].
Qed.

Lemma inlineEvents_app (now : Z) (startDate endDate : option Z)
  (raw raw' : list RawData) :
  inlineEvents now startDate endDate (raw ++ raw')
  = (inlineEvents now startDate endDate raw
     ++ inlineEvents now startDate endDate raw')%list.
Proof.
  induction raw as [ | x raw IH ]; simpl; [ reflexivity | ].
  now rewrite IH, app_assoc.
Qed.

(** X4.  One feed contributes at most 100 candidates, so a request with
    inline payloads has at most 100 candidates per payload. *)
Theorem at_most_hundred_per_feed (now : Z) (startDate endDate : option Z)
  (raw : list RawData) :
  (List.length (inlineEvents now startDate endDate raw)
   <= 100 * List.length raw)%nat.
Proof.
  induction raw as [ | x raw IH ]; simpl; [ lia | ].
  rewrite length_app.
  assert (B : (List.length
                 match sourceNameOf (rd_source_url x) with
                 | Some sourceName =>
                     extractRSSEvents now (raw_content x) (rd_source_url x)
                                      sourceName startDate endDate
                 | None => []
                 end <= 100)%nat).
  { destruct (sourceNameOf (rd_source_url x));
      [ apply extractRSSEvents_length | simpl; lia ]. }
  lia.
Qed.

(** X5.  A payload whose source label cannot be resolved (its address is
    not that of a known source and does not parse) is skipped: the
    candidates of the run are those of the other payloads, in order. *)
Theorem unresolvable_payload_is_skipped (now : Z) (startDate endDate : option Z)
  (before after : list RawData) (bad : RawData) :
  sourceNameOf (rd_source_url bad) = None ->
  inlineEvents now startDate endDate (before ++ bad :: after)
  = inlineEvents now startDate endDate (before ++ after).
Proof.
  intros B. rewrite !inlineEvents_app. simpl. now rewrite B.
Qed.

Lemma trimStart_head (s : string) : startsWithSpace (trimStart s) = false.
Proof.
  induction s as [ | a s IH ]; simpl; [ reflexivity | ].
  destruct (is_space a) eqn:E; [ exact IH | simpl; exact E ].
Qed.

Lemma trimEnd_last (s : string) : endsWithSpace (trimEnd s) = false.
Proof.
  induction s as [ | a s IH ]; simpl; [ reflexivity | ].
  destruct (trimEnd s) as [ | b t ] eqn:E.
  - destruct (is_space a) eqn:Sa; simpl; [ reflexivity | exact Sa ].
  - simpl in *. exact IH.
Qed.

Lemma trimEnd_head (s : string) :
  startsWithSpace s = false -> startsWithSpace (trimEnd s) = false.
Proof.
  destruct s as [ | a s ]; simpl; [ reflexivity | ]. intros E.
  destruct (trimEnd s); [ rewrite E | ]; simpl; auto.
Qed.

Lemma trim_ends (s : string) :
  startsWithSpace (trim s) = false /\ endsWithSpace (trim s) = false.
Proof.
  unfold trim. split; [ apply trimEnd_head, trimStart_head | apply trimEnd_last ].
Qed.

End MoreCandidateProperties.

Lemma no_digit_no_date_witness :
  extractEventDate (H := Runtime.utc) noon "Harvest Market" "Live music" "2025-06-01"
  = extractEventDate (H := Runtime.utc) noon "" "" "2025-06-01"
  /\ extractEventDate (H := Runtime.utc) noon "Harvest Market" "Live music" "" = None.
Proof.
  apply (no_digit_no_date (H := Runtime.utc) noon "Harvest Market" "Live music"
           "2025-06-01"); reflexivity.
Defined.

Lemma text_without_markup_yields_nothing_witness :
  parseXML "Title: Loudoun County Fair" = []
  /\ extractRSSEvents (H := Runtime.utc) noon "Title: Loudoun County Fair"
       "https://visitloudoun.org/fair" "Visit Loudoun Events" None None = [].
Proof.
  apply (text_without_markup_yields_nothing (H := Runtime.utc) noon
           "Title: Loudoun County Fair"). reflexivity.
Defined.

Lemma invalid_window_keeps_only_undated_witness :
  eventOfItem (H := Runtime.utc) noon "https://visitloudoun.org/feed"
    "Visit Loudoun Events" None None galaItem = None
  /\ event_date harvestMarket = None
  /\ orUndefined
       (extractEventDate (H := Runtime.utc) noon (title harvestMarket)
          (description harvestMarket) (published harvestMarket)) = None.
Proof.
  destruct (invalid_window_keeps_only_undated (H := Runtime.utc) noon festivalFeed
              "https://visitloudoun.org/feed" "Visit Loudoun Events" None None
              (or_introl eq_refl)) as (_ & Items & Candidates).
  split.
  - apply (Items galaItem "2025-12-31T00:00:00.000Z"). vm_compute. reflexivity.
  - apply Candidates. vm_compute. left. reflexivity.
Defined.

Lemma unresolvable_payload_is_skipped_witness :
  inlineEvents (H := Runtime.utc) noon None None ([feedPayload] ++ strayPayload :: [])
  = inlineEvents (H := Runtime.utc) noon None None ([feedPayload] ++ []).
Proof.
  apply (unresolvable_payload_is_skipped (H := Runtime.utc) noon None None
           [feedPayload] [] strayPayload).
  vm_compute. reflexivity.
Defined.

(* ================================================================== *)
(** ** The cleaning of titles and descriptions *)
(* ================================================================== *)

Section Cleaning.
Context {H : Host}.

Lemma replace_from_S (r : regex) (by_ : string) (fuel : nat) (s : string) :
  replace_from r by_ (S fuel) s
  = match match_here r s with
    | Some (String _ _, _, rest) => by_ ++ replace_from r by_ fuel rest
    | _ =>
        match s with
        | String a s' => String a (replace_from r by_ fuel s')
        | EmptyString => EmptyString
        end
    end.
Proof. reflexivity. Qed.

Lemma lacks_rest (q : ascii -> bool) (s' s : string) :
  restOf s' s -> lacks q s = true -> lacks q s' = true.
Proof.
  intros (p & ->) L. rewrite lacks_app in L. now apply andb_prop in L.
Qed.

Lemma match_here_rest (r : regex) (s txt rest : string) (c : captures) :
  match_here r s = Some (txt, c, rest) -> restOf rest s.
Proof. intros E. exists txt. exact (match_here_splits _ _ _ _ _ E). Qed.

Lemma match_here_shorter (r : regex) (s rest : string) (c : captures)
  (a : ascii) (txt : string) :
  match_here r s = Some (String a txt, c, rest) ->
  (String.length rest < String.length s)%nat.
Proof.
  intros E. rewrite (match_here_splits _ _ _ _ _ E). simpl.
  rewrite length_append. lia.
Qed.

(** A replacement brings in no character that neither the input nor the
    replacement text has. *)
Lemma replace_from_lacks (q : ascii -> bool) (r : regex) (by_ : string) (fuel : nat) :
  lacks q by_ = true ->
  forall s, lacks q s = true -> lacks q (replace_from r by_ fuel s) = true.
Proof.
  intros B. induction fuel as [ | fuel IH ]; intros s L; [ exact L | ].
  rewrite replace_from_S.
  assert (C : lacks q match s with
                      | String a s' => String a (replace_from r by_ fuel s')
                      | EmptyString => EmptyString
                      end = true).
  { destruct s as [ | a s' ]; [ reflexivity | ].
    simpl in *. apply andb_prop in L. destruct L as [La Ls].
    now rewrite La, IH. }
  destruct (match_here r s) as [ [[txt c] rest] | ] eqn:M; [ | exact C ].
  destruct txt as [ | x txt ]; [ exact C | ].
  rewrite lacks_app, B. apply IH.
  exact (lacks_rest q _ _ (match_here_rest _ _ _ _ _ M) L).
Qed.

Lemma eqb_swap (a b : ascii) : chr_eq a b = chr_eq b a.
Proof. unfold chr_eq. apply Ascii.eqb_sym. Qed.

(** The tag pattern at the head of a string that opens with an angle
    bracket: the search for the closing one. *)
Lemma tag_at_bracket (a : ascii) (s' : string) :
  isLt a = true ->
  match_here tagRegex (String a s')
  = greedyRun (fun b => negb (chr_eq b ">")) _
      (fun s1 =>
         match s1 with
         | String b r =>
             if chr_eq ">" b
             then Some (take (String.length (String a s') - String.length r)
                             (String a s'), [], r)
             else None
         | EmptyString => None
         end) s'.
Proof.
  intros L. unfold match_here, tagRegex. cbn [seqs].
  change (rmatch (Seq (ch "<") (Seq (Star true ScanLocalEvents.not_gt) (ch ">"))) _ (String a s') []
            (fun rest c =>
               Some (take (String.length (String a s') - String.length rest)
                          (String a s'), c, rest)))
    with (if chr_eq "<" a
          then rmatch (Star true ScanLocalEvents.not_gt) _ s' []
                 (fun s1 c1 =>
                    rmatch (ch ">") _ s1 c1
                      (fun rest c =>
                         Some (take (String.length (String a s') - String.length rest)
                                    (String a s'), c, rest)))
          else None).
  unfold isLt in L. rewrite L. unfold ScanLocalEvents.not_gt. rewrite star_class. reflexivity.
Qed.

Lemma tag_not_at_bracket (a : ascii) (s' : string) :
  isLt a = false -> match_here tagRegex (String a s') = None.
Proof.
  intros L. unfold match_here, tagRegex. cbn [seqs].
  change (rmatch (Seq (ch "<") (Seq (Star true ScanLocalEvents.not_gt) (ch ">"))) _ (String a s') []
            (fun rest c =>
               Some (take (String.length (String a s') - String.length rest)
                          (String a s'), c, rest)))
    with (if chr_eq "<" a
          then rmatch (Star true ScanLocalEvents.not_gt) _ s' []
                 (fun s1 c1 =>
                    rmatch (ch ">") _ s1 c1
                      (fun rest c =>
                         Some (take (String.length (String a s') - String.length rest)
                                    (String a s'), c, rest)))
          else None).
  unfold isLt in L. now rewrite L.
Qed.

Lemma greedy_no_gt (X : Type) (f : string -> X) (s : string) :
  lacks isGt s = true ->
  greedyRun (fun b => negb (chr_eq b ">")) X
    (fun s1 => match s1 with
               | String b r => if chr_eq ">" b then Some (f r) else None
               | EmptyString => None
               end) s = None.
Proof.
  induction s as [ | b s IH ]; intros L; [ reflexivity | ].
  simpl in L. apply andb_prop in L. destruct L as [Lb Ls].
  unfold isGt in Lb. apply negb_true_iff in Lb.
  cbn [greedyRun]. rewrite (eqb_swap b ">"), Lb. cbn [negb].
  now rewrite (IH Ls).
Qed.

Lemma greedy_finds_gt (X : Type) (f : string -> X) (s : string) :
  lacks isGt s = false ->
  exists r,
    restOf r s /\ (String.length r < String.length s)%nat
    /\ greedyRun (fun b => negb (chr_eq b ">")) X
         (fun s1 => match s1 with
                    | String b r => if chr_eq ">" b then Some (f r) else None
                    | EmptyString => None
                    end) s = Some (f r).
Proof.
  induction s as [ | b s IH ]; intros L; [ discriminate | ].
  cbn [lacks] in L. unfold isGt in L at 1.
  cbn [greedyRun]. rewrite (eqb_swap b ">").
  destruct (chr_eq ">" b) eqn:E; cbn [negb].
  - exists s. split; [ apply restOf_tail | ].
    split; [ simpl; lia | reflexivity ].
  - cbn [negb andb] in L. destruct (IH L) as (r & R & Len & G).
    exists r. split; [ exact (restOf_trans _ _ _ R (restOf_tail b s)) | ].
    split; [ simpl; lia | ]. now rewrite G.
Qed.

Lemma tagRegex_shorter (s txt rest : string) (c : captures) (x : ascii) :
  match_here tagRegex s = Some (String x txt, c, rest) ->
  (String.length rest < String.length s)%nat.
Proof. apply match_here_shorter. Qed.

(** Stripping the tags leaves no tag. *)
Lemma strip_tagFree (fuel : nat) :
  forall s, (String.length s <= fuel)%nat ->
            tagFree (replace_from tagRegex "" fuel s) = true.
Proof.
  induction fuel as [ | fuel IH ]; intros s L.
  - destruct s; [ reflexivity | simpl in L; lia ].
  - rewrite replace_from_S.
    destruct (match_here tagRegex s) as [ [[txt c] rest] | ] eqn:M.
    + destruct txt as [ | x txt ].
      * (* an empty match does not occur: the pattern takes in a bracket *)
        destruct s as [ | a s' ]; [ reflexivity | ].
        destruct (isLt a) eqn:A; [ | now rewrite (tag_not_at_bracket _ _ A) in M ].
        rewrite (tag_at_bracket _ _ A) in M.
        destruct (lacks isGt s') eqn:G.
        -- now rewrite greedy_no_gt in M.
        -- destruct (greedy_finds_gt _
                       (fun r => (take (String.length (String a s') - String.length r)
                                       (String a s'), @nil (nat * string), r)) s' G)
             as (r & _ & Len & F).
           rewrite F in M.
           replace (String.length (String a s') - String.length r)%nat
             with (S (String.length s' - String.length r)) in M
             by (cbn [String.length]; lia).
           cbn [take] in M. discriminate M.
      * simpl append. apply IH.
        pose proof (tagRegex_shorter _ _ _ _ _ M). lia.
    + destruct s as [ | a s' ]; [ reflexivity | ].
      cbn [tagFree]. rewrite IH by (simpl in L; lia). rewrite andb_true_r.
      destruct (isLt a) eqn:A; [ | reflexivity ]. simpl.
      rewrite (tag_at_bracket _ _ A) in M.
      destruct (lacks isGt s') eqn:G.
      * now apply replace_from_lacks.
      * destruct (greedy_finds_gt _
                    (fun r => (take (String.length (String a s') - String.length r)
                                    (String a s'), @nil (nat * string), r)) s' G)
          as (r & _ & _ & F).
        rewrite F in M. discriminate M.
Qed.

Lemma tagFree_rest (s' s : string) : restOf s' s -> tagFree s = true -> tagFree s' = true.
Proof.
  intros (p & ->). induction p as [ | a p IH ]; simpl; [ auto | ].
  intros T. apply andb_prop in T. now apply IH.
Qed.

Lemma tagFree_prepend (p x : string) :
  lacks isLt p = true -> tagFree x = true -> tagFree (p ++ x) = true.
Proof.
  intros L T. induction p as [ | b p IH ]; [ exact T | ].
  simpl in *. apply andb_prop in L. destruct L as [Lb L].
  rewrite Lb. simpl. now apply IH.
Qed.

(** A replacement by text without angle brackets keeps a string free of
    tags. *)
Lemma replace_from_tagFree (r : regex) (by_ : string) (fuel : nat) :
  lacks isLt by_ = true -> lacks isGt by_ = true ->
  forall s, tagFree s = true -> tagFree (replace_from r by_ fuel s) = true.
Proof.
  intros BL BG. induction fuel as [ | fuel IH ]; intros s T; [ exact T | ].
  rewrite replace_from_S.
  assert (C : tagFree match s with
                      | String a s' => String a (replace_from r by_ fuel s')
                      | EmptyString => EmptyString
                      end = true).
  { destruct s as [ | a s' ]; [ reflexivity | ].
    simpl in T. apply andb_prop in T. destruct T as [Ta Ts].
    cbn [tagFree]. rewrite (IH _ Ts), andb_true_r.
    destruct (isLt a); [ | reflexivity ]. simpl in *.
    now apply replace_from_lacks. }
  destruct (match_here r s) as [ [[txt c] rest] | ] eqn:M; [ | exact C ].
  destruct txt as [ | x txt ]; [ exact C | ].
  apply tagFree_prepend; [ exact BL | ].
  exact (IH rest (tagFree_rest _ _ (match_here_rest _ _ _ _ _ M) T)).
Qed.

Lemma trimStart_rest (s : string) : restOf (trimStart s) s.
Proof.
  induction s as [ | a s IH ]; simpl; [ apply restOf_refl | ].
  destruct (is_space a); [ | apply restOf_refl ].
  exact (restOf_trans _ _ _ IH (restOf_tail a s)).
Qed.

Lemma trimEnd_lacks (q : ascii -> bool) (s : string) :
  lacks q s = true -> lacks q (trimEnd s) = true.
Proof.
  induction s as [ | a s IH ]; simpl; [ auto | ]. intros L.
  apply andb_prop in L. destruct L as [La Ls]. specialize (IH Ls).
  destruct (trimEnd s) as [ | b t ].
  - destruct (is_space a); simpl; [ reflexivity | now rewrite La ].
  - cbn [lacks] in *. now rewrite La, IH.
Qed.

Lemma trimEnd_tagFree (s : string) : tagFree s = true -> tagFree (trimEnd s) = true.
Proof.
  induction s as [ | a s IH ]; simpl; [ auto | ]. intros T.
  apply andb_prop in T. destruct T as [Ta Ts]. specialize (IH Ts).
  destruct (trimEnd s) as [ | b t ] eqn:E.
  - destruct (is_space a); simpl; [ reflexivity | ].
    now rewrite orb_true_r.
  - change (tagFree (String a (String b t)))
      with ((negb (isLt a) || lacks isGt (String b t)) && tagFree (String b t)).
    rewrite IH, andb_true_r.
    destruct (isLt a); [ | reflexivity ]. cbn [negb orb] in *.
    rewrite <- E. now apply trimEnd_lacks.
Qed.

Lemma clean_tagFree (s : string) : tagFree (clean s) = true.
Proof.
  unfold clean, trim, replace.
  apply trimEnd_tagFree.
  apply (tagFree_rest _ _ (trimStart_rest _)).
  apply replace_from_tagFree; [ reflexivity | reflexivity | ].
  apply strip_tagFree. lia.
Qed.

(** In a string free of tags the tag pattern finds nothing. *)
Lemma tagFree_no_match (s : string) :
  tagFree s = true -> exec tagRegex s = None.
Proof.
  intros T. unfold exec.
  assert (S : forall fuel pos, search tagRegex fuel pos s = None).
  { induction s as [ | a s IH ]; intros fuel pos.
    - destruct fuel; reflexivity.
    - simpl in T. apply andb_prop in T. destruct T as [Ta Ts].
      assert (M : match_here tagRegex (String a s) = None).
      { destruct (isLt a) eqn:A; [ | now apply tag_not_at_bracket ].
        rewrite (tag_at_bracket _ _ A). simpl in Ta. now apply greedy_no_gt. }
      destruct fuel; unfold search; fold search; rewrite M; [ reflexivity | ].
      now apply IH. }
  now rewrite S.
Qed.

Lemma eventOfItem_fields (now : Z) (sourceUrl sourceName : string)
  (startDate endDate : option Z) (item : Item) (ev : PotentialEvent) :
  eventOfItem now sourceUrl sourceName startDate endDate item = Some ev ->
  title ev = clean (opt_or (item_title item) "")
  /\ description ev = clean (opt_or (item_description item) "")
  /\ link ev = opt_or (item_link item) sourceUrl
  /\ source_name ev = sourceName /\ source_url ev = sourceUrl.
Proof.
  unfold eventOfItem.
  destruct (truthy _ && _); [ | discriminate ].
  destruct (orUndefined _) as [ d | ].
  - destruct (isEventInDateRange d startDate endDate); [ | discriminate ].
    intros [= <-]. simpl. auto.
  - intros [= <-]. simpl. auto.
Qed.

(** X6.  The title and the description of every candidate are free of
    markup tags (the tag pattern finds no match in them) and carry no
    white space at either end; the link is never empty when the feed has
    an address. *)
Theorem candidates_are_clean (now : Z) (rssXml sourceUrl sourceName : string)
  (startDate endDate : option Z) (ev : PotentialEvent) :
  In ev (extractRSSEvents now rssXml sourceUrl sourceName startDate endDate) ->
  exec tagRegex (title ev) = None
  /\ exec tagRegex (description ev) = None
  /\ startsWithSpace (title ev) = false /\ endsWithSpace (title ev) = false
  /\ startsWithSpace (description ev) = false
  /\ endsWithSpace (description ev) = false
  /\ (sourceUrl <> "" -> link ev <> "").
Proof.
  unfold extractRSSEvents. intros I.
  apply collect_In in I. destruct I as (item & _ & E).
  apply eventOfItem_fields in E. destruct E as (-> & -> & -> & _ & _).
  repeat split; try (apply tagFree_no_match, clean_tagFree);
    try apply trim_ends.
  intros U. unfold opt_or, or_else.
  destruct (item_link item) as [ l | ]; [ | exact U ].
  destruct l; simpl; [ exact U | discriminate ].
Qed.

End Cleaning.

Lemma candidates_are_clean_witness :
  exec tagRegex (title harvestMarket) = None
  /\ exec tagRegex (description harvestMarket) = None
  /\ startsWithSpace (title harvestMarket) = false
  /\ endsWithSpace (title harvestMarket) = false
  /\ startsWithSpace (description harvestMarket) = false
  /\ endsWithSpace (description harvestMarket) = false
  /\ ("https://visitloudoun.org/feed" <> "" -> link harvestMarket <> "").
Proof.
  apply (candidates_are_clean (H := Runtime.utc) noon festivalFeed
           "https://visitloudoun.org/feed" "Visit Loudoun Events" None None
           harvestMarket).
  vm_compute. left. reflexivity.
Defined.

(* ================================================================== *)
(** ** What a run stores and when it fails *)
(* ================================================================== *)

Section MoreRunProperties.
Context {H : Host}.

Lemma insertedBriefs_app (ops ops' : list DbOp) :
  insertedBriefs (ops ++ ops') = (insertedBriefs ops ++ insertedBriefs ops')%list.
Proof.
  induction ops as [ | o ops IH ]; simpl; [ reflexivity | ].
  destruct o as [ | | | b [ | | ] ]; simpl; now rewrite IH.
Qed.

Lemma insertedBriefs_none (ops : list DbOp) :
  attempts ops = 0%nat -> insertedBriefs ops = [].
Proof.
  unfold attempts. induction ops as [ | o ops IH ]; simpl; [ reflexivity | ].
  destruct o; simpl; auto. discriminate.
Qed.

Lemma insertedBriefs_created (ops : list DbOp) :
  List.length (insertedBriefs ops) = created ops.
Proof.
  unfold created. induction ops as [ | o ops IH ]; simpl; [ reflexivity | ].
  destruct o as [ | | | b [ | | ] ]; simpl; now rewrite ?IH.
Qed.

Lemma appends_refl (st : FanOut) : appends st st.
Proof.
  exists []. rewrite !app_nil_r. repeat split; auto. unfold len. simpl. lia.
Qed.

Lemma appends_trans (st1 st2 st3 : FanOut) :
  appends st1 st2 -> appends st2 st3 -> appends st1 st3.
Proof.
  intros (t1 & S1 & F1 & B1 & C1) (t2 & S2 & F2 & B2 & C2).
  exists (t1 ++ t2)%list. repeat split.
  - now rewrite S2, S1, app_assoc.
  - apply Forall_app. auto.
  - now rewrite B2, B1, insertedBriefs_app, app_assoc.
  - rewrite C2, C1, insertedBriefs_app. unfold len. rewrite length_app. lia.
Qed.

Lemma fanOutPair_appends (w : World) (ds : string) (startDate endDate : option Z)
  (event : FilteredEvent) (st : FanOut) (winery : Winery) :
  appends st (fanOutPair w ds startDate endDate event st winery).
Proof.
  unfold fanOutPair.
  destruct (wineryBrief w ds startDate endDate event winery) as [ b | ];
    [ | apply appends_refl ].
  cbv zeta.
  destruct (insertBrief w (attempts (sent st)) b) eqn:R.
  - exists [InsertBrief b Inserted]. simpl.
    split; [ reflexivity | ]. split; [ repeat constructor | ].
    split; [ reflexivity | ]. unfold len. simpl. lia.
  - exists [InsertBrief b Rejected]. simpl.
    split; [ reflexivity | ]. split; [ repeat constructor | ].
    split; [ now rewrite app_nil_r | ]. unfold len. simpl. lia.
  - exists [InsertBrief b Threw]. simpl.
    split; [ reflexivity | ]. split; [ repeat constructor | ].
    split; [ now rewrite app_nil_r | ]. unfold len. simpl. lia.
Qed.

Lemma fanOut_appends (w : World) (ds : string) (startDate endDate : option Z)
  (finalEvents : list FilteredEvent) (wineries : list Winery) (st : FanOut) :
  appends st (fanOut w ds startDate endDate finalEvents wineries st).
Proof.
  unfold fanOut. revert st.
  induction finalEvents as [ | e es IH ]; intros st; simpl; [ apply appends_refl | ].
  eapply appends_trans; [ | apply IH ].
  unfold fanOutEvent. generalize st. clear IH.
  induction wineries as [ | y ys IHy ]; intros st0; simpl; [ apply appends_refl | ].
  eapply appends_trans; [ apply fanOutPair_appends | apply IHy ].
Qed.

Lemma classifyAndFanOut_briefs (w : World) (db : Store) (requestBody : RequestPayload)
  (startDate endDate : option Z) (all : list PotentialEvent) (ds : string)
  (table : list RawEvent) (ops : list DbOp) :
  attempts ops = 0%nat ->
  let run := classifyAndFanOut w db requestBody startDate endDate all ds table ops in
  research_briefs (store run)
  = (research_briefs db ++ insertedBriefs (statements run))%list
  /\ forall body k,
       response run = Ok body -> briefs_created body = Some k ->
       k = len (insertedBriefs (statements run)).
Proof.
  intros NI. pose proof (insertedBriefs_none _ NI) as N0.
  assert (N1 : insertedBriefs (ops ++ [SelectWineries]) = []).
  { rewrite insertedBriefs_app, N0. reflexivity. }
  unfold classifyAndFanOut.
  destruct all as [ | c cs ].
  { simpl. rewrite N0, app_nil_r. split; [ reflexivity | ].
    intros body k R. apply respond_Ok in R. destruct R as (d & _ & ->). discriminate. }
  destruct (gatekeeper w (c :: cs)) as [ | f fs ].
  { simpl. rewrite N0, app_nil_r. split; [ reflexivity | ].
    intros body k R. apply respond_Ok in R. destruct R as (d & _ & ->). discriminate. }
  destruct (enrichment w (f :: fs)) as [ | e es ].
  { simpl. rewrite N0, app_nil_r. split; [ reflexivity | ].
    intros body k R. apply respond_Ok in R. destruct R as (d & _ & ->). discriminate. }
  destruct (wineries_error w) as [ msg | ].
  { cbv zeta. cbn [store statements response research_briefs].
    rewrite N1, app_nil_r. split; [ reflexivity | ]. intros body k R. discriminate R. }
  destruct (winery_profiles w) as [ | y ys ].
  { cbv zeta. cbn [store statements response research_briefs].
    rewrite N1, app_nil_r. split; [ reflexivity | ].
    intros body k R. apply respond_Ok in R. destruct R as (d & _ & ->). discriminate. }
  cbv zeta. cbn [store statements response research_briefs].
  destruct (fanOut_appends w ds startDate endDate (e :: es) (y :: ys)
              {| briefsCreatedCount := 0; briefs := research_briefs db;
                 sent := (ops ++ [SelectWineries])%list |})
    as (tail & S & _ & B & C).
  set (st := fanOut w ds startDate endDate (e :: es) (y :: ys) _) in *.
  clearbody st. cbn [sent briefs briefsCreatedCount] in S, B, C.
  rewrite S, B, insertedBriefs_app, N1. split; [ reflexivity | ].
  intros body k R. apply respond_Ok in R. destruct R as (d & _ & ->).
  intros E. unfold completeBody in E. cbn [briefs_created] in E.
  injection E as E. rewrite <- E, C. simpl app. lia.
Qed.

(** X7.  Whatever the request, a run only ever appends to the briefs:
    those stored before are all still there, in place, followed by exactly
    the briefs whose insertion succeeded; and a response that reports
    [briefs_created] reports the number of briefs appended. *)
Theorem briefs_are_only_appended (w : World) (db : Store) (req : Request) :
  research_briefs (store (serve w db req))
  = (research_briefs db ++ insertedBriefs (statements (serve w db req)))%list
  /\ forall body k,
       response (serve w db req) = Ok body -> briefs_created body = Some k ->
       k = len (insertedBriefs (statements (serve w db req))).
Proof.
  unfold serve.
  destruct (String.eqb (method req) "OPTIONS").
  { simpl. rewrite app_nil_r. split; [ reflexivity | discriminate ]. }
  destruct (negb (String.eqb (method req) "POST")).
  { simpl. rewrite app_nil_r. split; [ reflexivity | discriminate ]. }
  destruct (json req) as [ requestBody | ].
  2:{ simpl. rewrite app_nil_r. split; [ reflexivity | discriminate ]. }
  pose proof (gathered_no_inserts w db requestBody) as NI.
  unfold gathered in NI.
  destruct (resolveDateRange (now w) requestBody) as [startDate endDate].
  cbn [fst snd] in NI.
  destruct (gatherEvents w requestBody startDate endDate (raw_events db))
    as [[[all ds] table] ops].
  cbn [snd] in NI.
  exact (classifyAndFanOut_briefs w db requestBody startDate endDate all ds table ops NI).
Qed.

Lemma dateRangeOut_valid (withDuration : bool) (a b : Z) :
  exists d, dateRangeOut withDuration (Some a) (Some b) = Some d.
Proof. unfold dateRangeOut. eauto. Qed.

Lemma dateRangeOut_invalid (withDuration : bool) (startDate endDate : option Z) :
  startDate = None \/ endDate = None ->
  dateRangeOut withDuration startDate endDate = None.
Proof.
  intros [ -> | -> ]; unfold dateRangeOut; [ reflexivity | ].
  now destruct startDate.
Qed.

(** X8.  Two failures and one success of a POST request with a readable
    body.  With an end of the window that is not a date the response is
    an error (status 500), whatever was found.  When the run gets to read
    the tenant profiles and that read fails, the response is the error of
    that read.  And a run that consults no service (no credential) and is
    given no inline payload, so that it reads neither a reply nor a
    payload item, succeeds with status 200 whenever the window is valid
    and the profiles are readable if it gets to read them, also when
    nothing is found.  (Nothing is stated about the success of a run that
    reads a reply of the service or an inline payload.) *)
Theorem scan_failures_and_keyless_success (w : World) (db : Store) (req : Request)
  (requestBody : RequestPayload) :
  method req = "POST" -> json req = Some requestBody ->
  (hasKey w = false -> raw_data requestBody = None ->
   validWindow w requestBody ->
   (readsWineries w db requestBody -> wineries_error w = None) ->
   exists body,
     response (serve w db req) = Ok body /\ success body = true
     /\ status (response (serve w db req)) = 200)
  /\ (fst (resolveDateRange (now w) requestBody) = None
      \/ snd (resolveDateRange (now w) requestBody) = None ->
      exists why,
        response (serve w db req) = InternalError why
        /\ status (response (serve w db req)) = 500)
  /\ (forall msg,
         readsWineries w db requestBody -> wineries_error w = Some msg ->
         response (serve w db req) = InternalError (WineriesUnreadable msg)).
Proof.
  intros M J. rewrite (serve_post _ _ _ _ M J).
  unfold readsWineries, finalEventsOf.
  set (all := candidatesOf w db requestBody).
  set (ds := dataSourceOf w db requestBody).
  set (table := tableOf w db requestBody).
  set (ops := snd (gathered w db requestBody)).
  set (startDate := fst (resolveDateRange (now w) requestBody)).
  set (endDate := snd (resolveDateRange (now w) requestBody)).
  unfold classifyAndFanOut.
  split; [ | split ].
  - intros _ _ (a & b & V) WE.
    assert (Es : startDate = Some a) by (unfold startDate; now rewrite V).
    assert (Ee : endDate = Some b) by (unfold endDate; now rewrite V).
    rewrite Es, Ee.
    destruct all as [ | c cs ].
    { cbn [response]. destruct (dateRangeOut_valid true a b) as (d & ->).
      simpl. eauto. }
    destruct (gatekeeper w (c :: cs)) as [ | f fs ].
    { cbn [response]. destruct (dateRangeOut_valid false a b) as (d & ->).
      simpl. eauto. }
    destruct (enrichment w (f :: fs)) as [ | e es ].
    { cbn [response]. destruct (dateRangeOut_valid false a b) as (d & ->).
      simpl. eauto. }
    rewrite WE by (repeat split; discriminate).
    destruct (winery_profiles w) as [ | y ys ].
    { cbn [response]. destruct (dateRangeOut_valid false a b) as (d & ->).
      simpl. eauto. }
    cbv zeta. cbn [response]. destruct (dateRangeOut_valid true a b) as (d & ->).
    simpl. eauto.
  - intros W.
    destruct all as [ | c cs ].
    { cbn [response]. rewrite (dateRangeOut_invalid _ _ _ W). simpl. eauto. }
    destruct (gatekeeper w (c :: cs)) as [ | f fs ].
    { cbn [response]. rewrite (dateRangeOut_invalid _ _ _ W). simpl. eauto. }
    destruct (enrichment w (f :: fs)) as [ | e es ].
    { cbn [response]. rewrite (dateRangeOut_invalid _ _ _ W). simpl. eauto. }
    destruct (wineries_error w) as [ msg | ]; [ simpl; eauto | ].
    destruct (winery_profiles w) as [ | y ys ].
    { cbn [response]. rewrite (dateRangeOut_invalid _ _ _ W). simpl. eauto. }
    cbv zeta. cbn [response]. rewrite (dateRangeOut_invalid _ _ _ W). simpl. eauto.
  - intros msg (C & G & F) WE.
    destruct all as [ | c cs ]; [ contradiction | ].
    destruct (gatekeeper w (c :: cs)) as [ | f fs ]; [ contradiction | ].
    destruct (enrichment w (f :: fs)) as [ | e es ]; [ contradiction | ].
    rewrite WE. reflexivity.
Qed.

(** X9.  A request with inline payloads never touches the stored feeds:
    the table of raw events is left as it was, no update is sent, and
    every successful response carries the tag of the inline path. *)
Theorem inline_payloads_leave_stored_rows (w : World) (db : Store) (req : Request)
  (requestBody : RequestPayload) (raw : list RawData) :
  method req = "POST" -> json req = Some requestBody ->
  raw_data requestBody = Some raw ->
  raw_events (store (serve w db req)) = raw_events db
  /\ updatesOf (statements (serve w db req)) = []
  /\ forall body,
       response (serve w db req) = Ok body ->
       data_source body = "google_apps_script_direct".
Proof.
  intros M J R. rewrite (serve_post _ _ _ _ M J).
  rewrite classifyAndFanOut_updates.
  pose proof (classifyAndFanOut_reports w db requestBody
                (fst (resolveDateRange (now w) requestBody))
                (snd (resolveDateRange (now w) requestBody))
                (candidatesOf w db requestBody) (dataSourceOf w db requestBody)
                (tableOf w db requestBody) (snd (gathered w db requestBody))) as Rep.
  cbv zeta in Rep. destruct Rep as [T B].
  assert (G : gathered w db requestBody
              = (inlineEvents (now w) (fst (resolveDateRange (now w) requestBody))
                   (snd (resolveDateRange (now w) requestBody)) raw,
                 "google_apps_script_direct", raw_events db, [])).
  { unfold gathered, gatherEvents. now rewrite R. }
  split; [ | split ].
  - rewrite T. unfold tableOf. now rewrite G.
  - now rewrite G.
  - intros body E. destruct (B body E) as [D _]. rewrite D.
    unfold dataSourceOf. now rewrite G.
Qed.

End MoreRunProperties.

Lemma briefs_are_only_appended_witness :
  List.length (research_briefs (store (serve (H := Runtime.utc) quietWorld emptyStore
                                         scanFestival))) = 3%nat
  /\ len (insertedBriefs (statements (serve (H := Runtime.utc) quietWorld emptyStore
                                        scanFestival))) = 3.
Proof.
  destruct (briefs_are_only_appended (H := Runtime.utc) quietWorld emptyStore
              scanFestival) as [E K].
  split.
  - vm_compute. reflexivity.
  - symmetry. eapply K; vm_compute; reflexivity.
Defined.

Lemma scan_failures_and_keyless_success_witness :
  exists body,
    response (serve (H := Runtime.utc) quietWorld twoRows scanStored) = Ok body
    /\ success body = true
    /\ status (response (serve (H := Runtime.utc) quietWorld twoRows scanStored)) = 200.
Proof.
  apply (proj1 (scan_failures_and_keyless_success (H := Runtime.utc) quietWorld
                  twoRows scanStored scanStoredBody eq_refl eq_refl)).
  - reflexivity.
  - reflexivity.
  - exists 1750000000000, 1757948800000. vm_compute. reflexivity.
  - intros _. reflexivity.
Defined.

Lemma inline_payloads_leave_stored_rows_witness :
  raw_events (store (serve (H := Runtime.utc) quietWorld twoRows scanFestival))
  = raw_events twoRows
  /\ updatesOf (statements (serve (H := Runtime.utc) quietWorld twoRows scanFestival))
     = []
  /\ forall body,
       response (serve (H := Runtime.utc) quietWorld twoRows scanFestival) = Ok body ->
       data_source body = "google_apps_script_direct".
Proof.
  apply (inline_payloads_leave_stored_rows (H := Runtime.utc) quietWorld twoRows
           scanFestival festivalPayload [feedPayload]); reflexivity.
Defined.

(* ================================================================== *)
(** ** The contents of the fan-out, and what the push stores *)
(* ================================================================== *)

Section FanOutContents.
Context {H : Host}.

Lemma collect_app {A B : Type} (f : A -> option B) (l l' : list A) :
  collect f (l ++ l') = (collect f l ++ collect f l')%list.
Proof.
  induction l as [ | x l IH ]; simpl; [ reflexivity | ].
  destruct (f x); simpl; now rewrite IH.
Qed.

Lemma fanOutEvent_briefs (w : World) (ds : string) (startDate endDate : option Z)
  (wineries : list Winery) (event : FilteredEvent) :
  allInserted w ->
  forall st,
    briefs (fanOutEvent w ds startDate endDate wineries st event)
    = (briefs st
       ++ collect (fun b => b)
            (map (wineryBrief w ds startDate endDate event) wineries))%list.
Proof.
  intros A. unfold fanOutEvent.
  induction wineries as [ | y ys IH ]; intros st; simpl.
  - now rewrite app_nil_r.
  - rewrite IH. unfold fanOutPair.
    destruct (wineryBrief w ds startDate endDate event y) as [ b | ]; [ | reflexivity ].
    cbv zeta. rewrite A. simpl. now rewrite <- app_assoc.
Qed.

Lemma fanOut_briefs (w : World) (ds : string) (startDate endDate : option Z)
  (finalEvents : list FilteredEvent) (wineries : list Winery) :
  allInserted w ->
  forall st,
    briefs (fanOut w ds startDate endDate finalEvents wineries st)
    = (briefs st
       ++ collect (fun b => b)
            (pairBriefs w ds startDate endDate finalEvents wineries))%list.
Proof.
  intros A. unfold fanOut, pairBriefs.
  induction finalEvents as [ | e es IH ]; intros st; simpl.
  - now rewrite app_nil_r.
  - rewrite IH, (fanOutEvent_briefs _ _ _ _ _ _ A), collect_app.
    now rewrite app_assoc.
Qed.

(** X10.  When every insertion succeeds, a run that reaches the fan-out
    stores, after the briefs already there, exactly one brief for each
    pair of a final event and a tenant profile whose brief can be built:
    event by event and, within an event, profile by profile. *)
Theorem one_brief_per_pair (w : World) (db : Store) (req : Request)
  (requestBody : RequestPayload) :
  method req = "POST" -> json req = Some requestBody ->
  reachesFanOut w db requestBody ->
  allInserted w ->
  research_briefs (store (serve w db req))
  = (research_briefs db
     ++ collect (fun b => b)
          (pairBriefs w (dataSourceOf w db requestBody)
             (fst (resolveDateRange (now w) requestBody))
             (snd (resolveDateRange (now w) requestBody))
             (finalEventsOf w db requestBody) (winery_profiles w)))%list.
Proof.
  intros M J (C & G & F & WE & WP) A.
  rewrite (serve_post _ _ _ _ M J). unfold finalEventsOf in *.
  unfold classifyAndFanOut.
  destruct (candidatesOf w db requestBody) as [ | c cs ]; [ contradiction | ].
  destruct (gatekeeper w (c :: cs)) as [ | f fs ]; [ contradiction | ].
  destruct (enrichment w (f :: fs)) as [ | e es ]; [ contradiction | ].
  rewrite WE.
  destruct (winery_profiles w) as [ | y ys ]; [ contradiction | ].
  cbv zeta. cbn [store research_briefs].
  now rewrite (fanOut_briefs _ _ _ _ _ _ A).
Qed.

Lemma storedEvents_plain (applied : string -> bool) (now : Z)
  (startDate endDate : option Z) (rows table : list RawEvent) :
  Forall (fun r => lacks isLt (re_raw_content r) = true) rows ->
  fst (fst (storedEvents applied now startDate endDate rows table)) = [].
Proof.
  intros P. revert table. induction P as [ | r rows Pr _ IH ]; intros table; simpl.
  - reflexivity.
  - set (table1 := if applied (id r) then markProcessed (id r) table else table).
    specialize (IH table1).
    destruct (storedEvents applied now startDate endDate rows table1)
      as [[events table2] ops].
    simpl in *. subst events. unfold extractRSSEvents.
    now rewrite (parseXML_plain _ Pr).
Qed.

(** X11.  Stored rows whose content holds no opening angle bracket are
    consumed without effect: a run on the stored-data path over such rows
    sends the update for each of them and answers, with a valid window,
    that it found no events; no brief is stored. *)
Theorem plain_text_rows_are_consumed_for_nothing (w : World) (db : Store)
  (req : Request) (requestBody : RequestPayload) :
  method req = "POST" -> json req = Some requestBody ->
  raw_data requestBody = None ->
  raw_events_readable w = true ->
  validWindow w requestBody ->
  (exists r, In r (raw_events db) /\ is_processed r = false) ->
  (forall r, In r (raw_events db) -> is_processed r = false ->
             includes (re_raw_content r) "<" = false) ->
  updatesOf (statements (serve w db req)) = map id (selectUnprocessed (raw_events db))
  /\ research_briefs (store (serve w db req)) = research_briefs db
  /\ exists body,
       response (serve w db req) = Ok body
       /\ data_source body = "database_stored"
       /\ events_extracted body = Some 0
       /\ summary_message body = "No events found in the specified date range".
Proof.
  intros M J R A (a & b & V) (r0 & I0 & P0) Plain.
  assert (Rows : Forall (fun r => lacks isLt (re_raw_content r) = true)
                        (selectUnprocessed (raw_events db))).
  { apply Forall_forall. intros r I.
    apply (Permutation_in _ (selectUnprocessed_perm _)) in I.
    apply filter_In in I. destruct I as [I P]. apply negb_true_iff in P.
    specialize (Plain r I P). rewrite includes_lt in Plain.
    now apply negb_false_iff in Plain. }
  assert (NE : selectUnprocessed (raw_events db) <> []).
  { intros E.
    assert (X : In r0 (selectUnprocessed (raw_events db))).
    { apply (Permutation_in _ (Permutation_sym (selectUnprocessed_perm _))).
      apply filter_In. rewrite P0. auto. }
    rewrite E in X. contradiction. }
  assert (G : exists table',
             gathered w db requestBody
             = ([], "database_stored", table',
                SelectUnprocessed
                  :: map (fun r => UpdateProcessed (id r))
                         (selectUnprocessed (raw_events db)))).
  { unfold gathered, gatherEvents. rewrite R, A, V. simpl fst. simpl snd.
    destruct (selectUnprocessed (raw_events db)) as [ | x rows ] eqn:E;
      [ contradiction | ].
    pose proof (storedEvents_plain (updateProcessed w) (now w) (Some a) (Some b)
                  (x :: rows) (raw_events db) Rows) as Ev.
    pose proof (storedEvents_statements (updateProcessed w) (now w) (Some a) (Some b)
                  (x :: rows) (raw_events db)) as St.
    destruct (storedEvents (updateProcessed w) (now w) (Some a) (Some b) (x :: rows)
                (raw_events db))
      as [[events table'] ops].
    simpl in Ev, St. subst events ops. eauto. }
  destruct G as (table' & G).
  rewrite (serve_post _ _ _ _ M J).
  unfold candidatesOf, dataSourceOf, tableOf. rewrite G, V. simpl fst. simpl snd.
  unfold classifyAndFanOut. cbn [statements store response research_briefs].
  split; [ | split; [ reflexivity | ] ].
  - change (updatesOf (SelectUnprocessed
                         :: map (fun r => UpdateProcessed (id r))
                                (selectUnprocessed (raw_events db))))
      with (updatesOf (map (fun r => UpdateProcessed (id r))
                           (selectUnprocessed (raw_events db)))).
    apply updatesOf_updates.
  - eexists. split; [ reflexivity | ]. repeat split.
Qed.

End FanOutContents.

Section IngestProperties.
Context {H : Host}.

Lemma rowOf_Some (now : Z) (e : IngestRawEvents.GoogleAppsScriptEvent)
  (row : IngestRawEvents.NewRawEvent) :
  IngestRawEvents.rowOf now e = Some row ->
  accepted e
  /\ IngestRawEvents.is_processed row = false
  /\ IngestRawEvents.source_url row
     = or_else (IngestRawEvents.link e) "https://google-apps-script-source"
  /\ IngestRawEvents.raw_content row
     = "Title: " ++ IngestRawEvents.title e ++ IngestRawEvents.newline
       ++ "Description: " ++ IngestRawEvents.description e ++ IngestRawEvents.newline
       ++ "Link: " ++ or_else (IngestRawEvents.link e) "No link provided"
       ++ IngestRawEvents.newline
       ++ "Published: " ++ or_else (IngestRawEvents.pubDate e) "No date provided".
Proof.
  unfold IngestRawEvents.rowOf, accepted.
  destruct (truthy (IngestRawEvents.title e)) eqn:T; [ | discriminate ].
  destruct (truthy (IngestRawEvents.description e)) eqn:D; [ | discriminate ].
  simpl.
  destruct (String.length (IngestRawEvents.title e) <? 5)%nat eqn:L1; [ discriminate | ].
  destruct (500 <? String.length (IngestRawEvents.title e))%nat eqn:L2;
    [ discriminate | ].
  simpl. intros [= <-]. simpl.
  apply Nat.ltb_ge in L1, L2. apply truthy_iff in T, D.
  repeat split; auto.
Qed.

Lemma rowOf_accepted (now : Z) (e : IngestRawEvents.GoogleAppsScriptEvent) :
  accepted e -> exists row, IngestRawEvents.rowOf now e = Some row.
Proof.
  intros (T & D & L1 & L2). unfold IngestRawEvents.rowOf.
  apply truthy_iff in T, D. rewrite T, D. simpl.
  replace (String.length (IngestRawEvents.title e) <? 5)%nat with false
    by (symmetry; apply Nat.ltb_ge; lia).
  replace (500 <? String.length (IngestRawEvents.title e))%nat with false
    by (symmetry; apply Nat.ltb_ge; lia).
  simpl. eauto.
Qed.

Lemma rowsOf_In (now : Z) (events : list IngestRawEvents.GoogleAppsScriptEvent)
  (row : IngestRawEvents.NewRawEvent) :
  In row (IngestRawEvents.rowsOf now events)
  <-> exists e, In e events /\ IngestRawEvents.rowOf now e = Some row.
Proof.
  induction events as [ | e events IH ]; simpl.
  - split; [ tauto | intros (e & [] & _) ].
  - destruct (IngestRawEvents.rowOf now e) as [ r | ] eqn:E; simpl; rewrite IH; split.
    + intros [ <- | (x & I & F) ]; [ exists e | exists x ]; auto.
    + intros (x & [ <- | I ] & F).
      * left. congruence.
      * right. exists x. auto.
    + intros (x & I & F). exists x. auto.
    + intros (x & [ <- | I ] & F); [ congruence | exists x; auto ].
Qed.

Lemma insertBatches_grows (w : IngestRawEvents.World) (fuel : nat) :
  forall k rows table inserted,
  exists added,
    IngestRawEvents.insertBatches w fuel k rows table inserted
    = ((table ++ added)%list, (inserted ++ added)%list)
    /\ forall row, In row added -> In row rows.
Proof.
  induction fuel as [ | fuel IH ]; intros k rows table inserted.
  - exists []. simpl. rewrite !app_nil_r. split; [ reflexivity | tauto ].
  - destruct rows as [ | r rows ].
    + exists []. simpl. rewrite !app_nil_r. split; [ reflexivity | tauto ].
    + cbn [IngestRawEvents.insertBatches].
      set (batch := firstn IngestRawEvents.batchSize (r :: rows)).
      set (rest := skipn IngestRawEvents.batchSize (r :: rows)).
      assert (Ib : forall x, In x batch -> In x (r :: rows)).
      { intros x I. rewrite <- (firstn_skipn IngestRawEvents.batchSize (r :: rows)).
        apply in_or_app. now left. }
      assert (Ir : forall x, In x rest -> In x (r :: rows)).
      { intros x I. rewrite <- (firstn_skipn IngestRawEvents.batchSize (r :: rows)).
        apply in_or_app. now right. }
      destruct (IngestRawEvents.insertBatch w k batch).
      * destruct (IH (S k) rest (table ++ batch)%list (inserted ++ batch)%list)
          as (added & E & Sub).
        exists (batch ++ added)%list. rewrite E, !app_assoc. split; [ reflexivity | ].
        intros x I. apply in_app_or in I. destruct I; auto.
      * destruct (IH (S k) rest table inserted) as (added & E & Sub).
        exists added. split; [ exact E | ]. auto.
      * destruct (IH (S k) rest table inserted) as (added & E & Sub).
        exists added. split; [ exact E | ]. auto.
Qed.

Lemma insertBatches_all (w : IngestRawEvents.World) (fuel : nat) :
  allStored w ->
  forall k rows table inserted,
    (List.length rows <= fuel)%nat ->
    IngestRawEvents.insertBatches w fuel k rows table inserted
    = ((table ++ rows)%list, (inserted ++ rows)%list).
Proof.
  intros A. induction fuel as [ | fuel IH ]; intros k rows table inserted L.
  - destruct rows; [ | simpl in L; lia ]. simpl. now rewrite !app_nil_r.
  - destruct rows as [ | r rows ]; [ simpl; now rewrite !app_nil_r | ].
    cbn [IngestRawEvents.insertBatches]. rewrite A.
    rewrite IH.
    + rewrite <- !app_assoc.
      now rewrite (firstn_skipn IngestRawEvents.batchSize (r :: rows)).
    + rewrite length_skipn. simpl in *. lia.
Qed.

Lemma distinct_spec (names seen : list string) :
  NoDup (IngestRawEvents.distinct names seen)
  /\ forall n, In n (IngestRawEvents.distinct names seen)
               <-> In n names /\ ~ In n seen.
Proof.
  revert seen. induction names as [ | x names IH ]; intros seen; simpl.
  - split; [ constructor | intros n; tauto ].
  - destruct (existsb (String.eqb x) seen) eqn:E.
    + destruct (IH seen) as [N I]. split; [ exact N | ].
      intros n. rewrite I.
      apply existsb_exists in E. destruct E as (y & Iy & Ey).
      apply String.eqb_eq in Ey. subst y.
      split; [ tauto | ]. intros [[ <- | In' ] NS]; [ contradiction | tauto ].
    + destruct (IH (x :: seen)) as [N I]. split.
      * constructor; [ | exact N ]. rewrite I. simpl. tauto.
      * intros n. simpl. rewrite I. simpl.
        assert (NS : ~ In x seen).
        { intros Ix. apply not_true_iff_false in E. apply E.
          apply existsb_exists. exists x. split; [ exact Ix | apply String.eqb_refl ]. }
        split.
        -- intros [ <- | (In' & NS') ]; [ tauto | tauto ].
        -- intros ([ <- | In' ] & NS'); [ tauto | ].
           destruct (string_dec x n) as [ <- | D ]; [ tauto | ]. right. tauto.
Qed.

(** X12.  Whatever the request, the ingestion push only appends to the
    table of raw events: the rows stored before are all still there, in
    place; every row it adds is unprocessed and stems from an event of
    the payload that passed the validation (non-empty title and
    description, title of 5 to 500 characters); and a successful response
    reports as [events_processed] the number of rows added. *)
Theorem push_only_appends_valid_rows (w : IngestRawEvents.World)
  (table : list IngestRawEvents.NewRawEvent) (req : IngestRawEvents.Request) :
  exists added,
    snd (IngestRawEvents.serve w table req) = (table ++ added)%list
    /\ (forall row, In row added ->
          IngestRawEvents.is_processed row = false
          /\ exists events e,
               IngestRawEvents.json req = Some (IngestRawEvents.Events events)
               /\ In e events /\ accepted e
               /\ IngestRawEvents.rowOf (IngestRawEvents.now w) e = Some row)
    /\ (forall body,
          fst (IngestRawEvents.serve w table req) = IngestRawEvents.Ok body ->
          IngestRawEvents.events_processed body = IngestRawEvents.len added).
Proof.
  unfold IngestRawEvents.serve.
  assert (Nothing : forall r : IngestRawEvents.Response,
             (forall body, r = IngestRawEvents.Ok body ->
                           IngestRawEvents.events_processed body = 0) ->
             exists added,
               snd (r, table) = (table ++ added)%list
               /\ (forall row, In row added ->
                     IngestRawEvents.is_processed row = false
                     /\ exists events e,
                          IngestRawEvents.json req
                          = Some (IngestRawEvents.Events events)
                          /\ In e events /\ accepted e
                          /\ IngestRawEvents.rowOf (IngestRawEvents.now w) e = Some row)
               /\ (forall body, fst (r, table) = IngestRawEvents.Ok body ->
                     IngestRawEvents.events_processed body
                     = IngestRawEvents.len added)).
  { intros r Z0. exists []. simpl. rewrite app_nil_r.
    split; [ reflexivity | ]. split; [ tauto | exact Z0 ]. }
  destruct (String.eqb (IngestRawEvents.method req) "OPTIONS");
    [ apply Nothing; discriminate | ].
  destruct (negb (String.eqb (IngestRawEvents.method req) "POST"));
    [ apply Nothing; discriminate | ].
  destruct (IngestRawEvents.json req) as [ [ | | events ] | ] eqn:J;
    try (apply Nothing; discriminate).
  destruct events as [ | e0 events ];
    [ apply Nothing; now intros body [= <-] | ].
  destruct (IngestRawEvents.rowsOf (IngestRawEvents.now w) (e0 :: events))
    as [ | r rows ] eqn:R;
    [ apply Nothing; now intros body [= <-] | ].
  destruct (insertBatches_grows w (List.length (r :: rows)) 0 (r :: rows) table [])
    as (added & E & Sub).
  rewrite E. exists added. cbn [fst snd]. split; [ reflexivity | ]. split.
  - intros row I. apply Sub in I. rewrite <- R in I. apply rowsOf_In in I.
    destruct I as (e & Ie & Re). pose proof (rowOf_Some _ _ _ Re) as (Acc & P & _).
    split; [ exact P | ]. exists (e0 :: events), e. auto.
  - intros body [= <-]. reflexivity.
Qed.

(** X13.  When the store accepts every batch, a push stores one row for
    every event of the payload that passes the validation, in the order
    of the payload, after the rows already there, whatever the number of
    batches this takes; the response reports their number. *)
Theorem push_stores_every_valid_event (w : IngestRawEvents.World)
  (table : list IngestRawEvents.NewRawEvent) (req : IngestRawEvents.Request)
  (events : list IngestRawEvents.GoogleAppsScriptEvent) :
  IngestRawEvents.method req = "POST" ->
  IngestRawEvents.json req = Some (IngestRawEvents.Events events) ->
  allStored w ->
  snd (IngestRawEvents.serve w table req)
  = (table ++ IngestRawEvents.rowsOf (IngestRawEvents.now w) events)%list
  /\ (forall e, In e events -> accepted e ->
        exists row,
          IngestRawEvents.rowOf (IngestRawEvents.now w) e = Some row
          /\ In row (snd (IngestRawEvents.serve w table req)))
  /\ exists body,
       fst (IngestRawEvents.serve w table req) = IngestRawEvents.Ok body
       /\ IngestRawEvents.events_processed body
          = IngestRawEvents.len (IngestRawEvents.rowsOf (IngestRawEvents.now w) events).
Proof.
  intros M J A.
  assert (S : snd (IngestRawEvents.serve w table req)
              = (table ++ IngestRawEvents.rowsOf (IngestRawEvents.now w) events)%list
              /\ exists body,
                   fst (IngestRawEvents.serve w table req) = IngestRawEvents.Ok body
                   /\ IngestRawEvents.events_processed body
                      = IngestRawEvents.len
                          (IngestRawEvents.rowsOf (IngestRawEvents.now w) events)).
  { unfold IngestRawEvents.serve. rewrite M, J. simpl String.eqb. cbn [negb].
    destruct events as [ | e0 events ].
    { simpl. rewrite app_nil_r. split; [ reflexivity | ]. eexists. split; reflexivity. }
    destruct (IngestRawEvents.rowsOf (IngestRawEvents.now w) (e0 :: events))
      as [ | r rows ] eqn:R.
    { simpl. rewrite app_nil_r. split; [ reflexivity | ]. eexists. split; reflexivity. }
    rewrite (insertBatches_all w _ A 0 (r :: rows) table []) by lia.
    cbn [fst snd]. split; [ reflexivity | ]. eexists. split; reflexivity. }
  destruct S as [S B]. split; [ exact S | ]. split; [ | exact B ].
  intros e I Acc. destruct (rowOf_accepted (IngestRawEvents.now w) e Acc) as (row & R).
  exists row. split; [ exact R | ]. rewrite S. apply in_or_app. right.
  apply rowsOf_In. eauto.
Qed.

(** X14.  The [sources_summary] of a response lists every source label of
    the rows the push added, each of them once. *)
Theorem sources_summary_is_distinct (w : IngestRawEvents.World)
  (table : list IngestRawEvents.NewRawEvent) (req : IngestRawEvents.Request)
  (body : IngestRawEvents.Body) (labels : list string) :
  fst (IngestRawEvents.serve w table req) = IngestRawEvents.Ok body ->
  IngestRawEvents.sources_summary body = Some labels ->
  NoDup labels
  /\ exists added,
       snd (IngestRawEvents.serve w table req) = (table ++ added)%list
       /\ forall n, In n labels <-> In n (map IngestRawEvents.source_name added).
Proof.
  unfold IngestRawEvents.serve.
  destruct (String.eqb (IngestRawEvents.method req) "OPTIONS"); [ discriminate | ].
  destruct (negb (String.eqb (IngestRawEvents.method req) "POST")); [ discriminate | ].
  destruct (IngestRawEvents.json req) as [ [ | | events ] | ]; try discriminate.
  destruct events as [ | e0 events ]; [ intros [= <-]; discriminate | ].
  destruct (IngestRawEvents.rowsOf (IngestRawEvents.now w) (e0 :: events))
    as [ | r rows ]; [ intros [= <-]; discriminate | ].
  destruct (insertBatches_grows w (List.length (r :: rows)) 0 (r :: rows) table [])
    as (added & E & _).
  rewrite E. cbn [fst snd]. intros [= <-]. cbn [IngestRawEvents.sources_summary].
  intros [= <-]. simpl app.
  destruct (distinct_spec (map IngestRawEvents.source_name added) []) as [N I].
  split; [ exact N | ]. exists added. split; [ reflexivity | ].
  intros n. rewrite I. simpl. tauto.
Qed.

Lemma lacks_or_else (q : ascii -> bool) (a b : string) :
  lacks q a = true -> lacks q b = true -> lacks q (or_else a b) = true.
Proof. unfold or_else. now destruct (truthy a). Qed.

Lemma includes_lt_false (s : string) : includes s "<" = false <-> lacks isLt s = true.
Proof. rewrite includes_lt. apply negb_false_iff. Qed.

(** X15.  What the ingestion push stores is not what the scan reads: a
    row stored from an event whose title, description, link and date
    hold no opening angle bracket yields no candidate when a scan later
    runs the candidate builder on its content. *)
Theorem ingested_row_yields_no_candidate (nowPush nowScan : Z)
  (e : IngestRawEvents.GoogleAppsScriptEvent) (row : IngestRawEvents.NewRawEvent)
  (sourceUrl sourceName : string) (startDate endDate : option Z) :
  IngestRawEvents.rowOf nowPush e = Some row ->
  includes (IngestRawEvents.title e) "<" = false ->
  includes (IngestRawEvents.description e) "<" = false ->
  includes (IngestRawEvents.link e) "<" = false ->
  includes (IngestRawEvents.pubDate e) "<" = false ->
  extractRSSEvents nowScan (IngestRawEvents.raw_content row) sourceUrl sourceName
                   startDate endDate = [].
Proof.
  intros R T D L P. apply rowOf_Some in R. destruct R as (_ & _ & _ & ->).
  apply includes_lt_false in T, D, L, P.
  unfold extractRSSEvents. rewrite parseXML_plain; [ reflexivity | ].
  rewrite !lacks_app, T, D, (lacks_or_else _ _ _ L), (lacks_or_else _ _ _ P);
    reflexivity.
Qed.

End IngestProperties.

Lemma one_brief_per_pair_witness :
  research_briefs (store (serve (H := Runtime.utc) quietWorld emptyStore scanFestival))
  = (research_briefs emptyStore
     ++ collect (fun b => b)
          (pairBriefs (H := Runtime.utc) quietWorld
             (dataSourceOf (H := Runtime.utc) quietWorld emptyStore festivalPayload)
             (fst (resolveDateRange (H := Runtime.utc) (now quietWorld) festivalPayload))
             (snd (resolveDateRange (H := Runtime.utc) (now quietWorld) festivalPayload))
             (finalEventsOf (H := Runtime.utc) quietWorld emptyStore festivalPayload)
             (winery_profiles quietWorld)))%list.
Proof.
  apply (one_brief_per_pair (H := Runtime.utc) quietWorld emptyStore scanFestival
           festivalPayload eq_refl eq_refl).
  - repeat split; vm_compute; discriminate || reflexivity.
  - intros k b. reflexivity.
Defined.

Lemma plain_text_rows_are_consumed_for_nothing_witness :
  updatesOf (statements (serve (H := Runtime.utc) quietWorld twoRows scanStored))
  = map id (selectUnprocessed (raw_events twoRows))
  /\ research_briefs (store (serve (H := Runtime.utc) quietWorld twoRows scanStored))
     = research_briefs twoRows
  /\ exists body,
       response (serve (H := Runtime.utc) quietWorld twoRows scanStored) = Ok body
       /\ data_source body = "database_stored"
       /\ events_extracted body = Some 0
       /\ summary_message body = "No events found in the specified date range".
Proof.
  apply (plain_text_rows_are_consumed_for_nothing (H := Runtime.utc) quietWorld
           twoRows scanStored scanStoredBody eq_refl eq_refl eq_refl eq_refl).
  - exists 1750000000000, 1757948800000. vm_compute. reflexivity.
  - exists pendingRow. split; [ right; left; reflexivity | reflexivity ].
  - intros r [ <- | [ <- | [] ] ] P; [ discriminate P | reflexivity ].
Defined.

Lemma push_only_appends_valid_rows_witness :
  exists added,
    snd (IngestRawEvents.serve (H := Runtime.utc) ingestWorld storedEarlier marketPush)
    = (storedEarlier ++ added)%list
    /\ (forall row, In row added ->
          IngestRawEvents.is_processed row = false
          /\ exists events e,
               IngestRawEvents.json marketPush = Some (IngestRawEvents.Events events)
               /\ In e events /\ accepted e
               /\ IngestRawEvents.rowOf (H := Runtime.utc)
                    (IngestRawEvents.now ingestWorld) e = Some row)
    /\ (forall body,
          fst (IngestRawEvents.serve (H := Runtime.utc) ingestWorld storedEarlier
                 marketPush) = IngestRawEvents.Ok body ->
          IngestRawEvents.events_processed body = IngestRawEvents.len added).
Proof.
  exact (push_only_appends_valid_rows (H := Runtime.utc) ingestWorld storedEarlier
           marketPush).
Defined.

Lemma push_stores_every_valid_event_witness :
  snd (IngestRawEvents.serve (H := Runtime.utc) ingestWorld storedEarlier marketPush)
  = (storedEarlier
     ++ IngestRawEvents.rowsOf (H := Runtime.utc) (IngestRawEvents.now ingestWorld)
          [marketEvent; shortEvent])%list
  /\ List.length (IngestRawEvents.rowsOf (H := Runtime.utc)
                    (IngestRawEvents.now ingestWorld) [marketEvent; shortEvent])
     = 1%nat.
Proof.
  split; [ | vm_compute; reflexivity ].
  apply (push_stores_every_valid_event (H := Runtime.utc) ingestWorld storedEarlier
           marketPush [marketEvent; shortEvent] eq_refl eq_refl).
  intros k batch. reflexivity.
Defined.

Lemma sources_summary_is_distinct_witness :
  exists body labels,
    fst (IngestRawEvents.serve (H := Runtime.utc) ingestWorld storedEarlier marketPush)
    = IngestRawEvents.Ok body
    /\ IngestRawEvents.sources_summary body = Some labels
    /\ NoDup labels.
Proof.
  eexists. eexists.
  assert (R : fst (IngestRawEvents.serve (H := Runtime.utc) ingestWorld storedEarlier
                     marketPush) = IngestRawEvents.Ok _)
    by (vm_compute; reflexivity).
  split; [ exact R | ]. split; [ reflexivity | ].
  apply (sources_summary_is_distinct (H := Runtime.utc) ingestWorld storedEarlier
           marketPush _ _ R eq_refl).
Defined.

Lemma ingested_row_yields_no_candidate_witness :
  exists row,
    IngestRawEvents.rowOf (H := Runtime.utc) noon marketEvent = Some row
    /\ extractRSSEvents (H := Runtime.utc) nextAutumn (IngestRawEvents.raw_content row)
         "https://visitloudoun.org/market" "Visit Loudoun Events" None None = [].
Proof.
  eexists.
  assert (R : IngestRawEvents.rowOf (H := Runtime.utc) noon marketEvent = Some _)
    by (vm_compute; reflexivity).
  split; [ exact R | ].
  apply (ingested_row_yields_no_candidate (H := Runtime.utc) noon nextAutumn
           marketEvent _ "https://visitloudoun.org/market" "Visit Loudoun Events"
           None None R); reflexivity.
Defined.

(* ================================================================== *)
(** ** The link of a brief and the text the scraper sends *)
(* ================================================================== *)

Section LinkProperties.
Context {H : Host}.
Import EventEngine.

Lemma rmatch_Seq (r1 r2 : regex) (A : Type) (s : string) (c : captures)
  (k : string -> captures -> option A) :
  rmatch (Seq r1 r2) A s c k = rmatch r1 A s c (fun s1 c1 => rmatch r2 A s1 c1 k).
Proof. reflexivity. Qed.

Lemma rmatch_opt (r : regex) (A : Type) (s : string) (c : captures)
  (k : string -> captures -> option A) :
  rmatch (opt r) A s c k
  = match rmatch r A s c k with Some x => Some x | None => k s c end.
Proof. reflexivity. Qed.

Lemma rmatch_Chr (p : ascii -> bool) (A : Type) (a : ascii) (s : string)
  (c : captures) (k : string -> captures -> option A) :
  rmatch (Chr p) A (String a s) c k = if p a then k s c else None.
Proof. reflexivity. Qed.

(** A literal at the head of the input is taken in. *)
Lemma rmatch_lit (p : string) (A : Type) (s : string) (c : captures)
  (k : string -> captures -> option A) :
  rmatch (lit p) A (p ++ s) c k = k s c.
Proof.
  induction p as [ | a p IH ]; [ reflexivity | ].
  destruct p as [ | b p ].
  - simpl. unfold chr_eq. now rewrite Ascii.eqb_refl.
  - change (lit (String a (String b p))) with (Seq (ch a) (lit (String b p))).
    rewrite rmatch_Seq.
    change (rmatch (ch a) A (String a (String b p) ++ s) c
              (fun s1 c1 => rmatch (lit (String b p)) A s1 c1 k))
      with (if chr_eq a a then rmatch (lit (String b p)) A (String b p ++ s) c k
            else None).
    unfold chr_eq at 1. now rewrite Ascii.eqb_refl.
Qed.

Lemma greedy_takes_all (p : ascii -> bool) (X : Type) (f : string -> X) (s : string) :
  lacks (fun a => negb (p a)) s = true ->
  greedyRun p X (fun r => Some (f r)) s = Some (f "").
Proof.
  induction s as [ | a s IH ]; intros L; [ reflexivity | ].
  simpl in L. apply andb_prop in L. destruct L as [La Ls].
  rewrite negb_involutive in La. cbn [greedyRun]. now rewrite La, (IH Ls).
Qed.

Lemma take_all (s : string) : take (String.length s - 0) s = s.
Proof.
  rewrite Nat.sub_0_r. induction s as [ | a s IH ]; simpl; [ | rewrite IH ]; reflexivity.
Qed.

(** The address pattern at the head of an address that runs to the end
    of the input takes all of it. *)
Lemma match_here_url (scheme body : string) :
  scheme = "http" \/ scheme = "https" ->
  body <> "" -> lacks is_space body = true ->
  match_here urlRegex (scheme ++ "://" ++ body)
  = Some (scheme ++ "://" ++ body, [], "").
Proof.
  intros S B L. destruct body as [ | b body ]; [ contradiction | ].
  simpl in L. apply andb_prop in L. destruct L as [Lb L].
  assert (Tail : forall whole,
             rmatch (Seq (lit "://") (plus non_space)) _ ("://" ++ String b body) []
               (fun rest c =>
                  Some (take (String.length whole - String.length rest) whole, c, rest))
             = Some (whole, [], "")).
  { intros whole. rewrite rmatch_Seq, rmatch_lit. unfold plus. rewrite rmatch_Seq.
    unfold non_space. rewrite rmatch_Chr, Lb. cbv beta.
    rewrite star_class.
    rewrite (greedy_takes_all (fun a => negb (is_space a)) _
               (fun r => (take (String.length whole - String.length r) whole,
                          @nil (nat * string), r))).
    - cbn [String.length]. now rewrite take_all.
    - clear -L. induction body as [ | a body IH ]; [ reflexivity | ].
      simpl in *. apply andb_prop in L. destruct L as [La L].
      now rewrite negb_involutive, La, IH. }
  unfold match_here, urlRegex. cbn [seqs]. rewrite rmatch_Seq.
  destruct S as [ -> | -> ].
  - change ("http" ++ "://" ++ String b body)
      with ("http" ++ ("://" ++ String b body)) at 1.
    rewrite rmatch_lit, rmatch_Seq, rmatch_opt.
    change (rmatch (ch "s") _ ("://" ++ String b body) [] _) with (@None (string * captures * string)).
    apply Tail.
  - change ("https" ++ "://" ++ String b body)
      with ("http" ++ ("s" ++ ("://" ++ String b body))) at 1.
    rewrite rmatch_lit, rmatch_Seq, rmatch_opt.
    change (ch "s") with (lit "s"). rewrite rmatch_lit.
    now rewrite Tail.
Qed.

Lemma match_here_not_h (a : ascii) (s : string) :
  isH a = false -> match_here urlRegex (String a s) = None.
Proof.
  intros N. unfold match_here, urlRegex. cbn [seqs]. rewrite rmatch_Seq.
  change (lit "http") with (Seq (ch "h") (lit "ttp")). rewrite rmatch_Seq.
  unfold ch at 1. rewrite rmatch_Chr. unfold isH in N. now rewrite N.
Qed.

(** The search for an address skips a label without the letter h. *)
Lemma search_skips_label (label s : string) (pos : nat) :
  lacks isH label = true ->
  option_map (fun x => m_text (fst x))
    (search urlRegex (String.length (label ++ s)) pos (label ++ s))
  = option_map (fun x => m_text (fst x))
      (search urlRegex (String.length s) (pos + String.length label) s).
Proof.
  revert pos. induction label as [ | a label IH ]; intros pos L.
  - simpl. now rewrite Nat.add_0_r.
  - simpl in L. apply andb_prop in L. destruct L as [La L].
    apply negb_true_iff in La.
    change (String.length (String a label ++ s))
      with (S (String.length (label ++ s))).
    change (String a label ++ s) with (String a (label ++ s)).
    unfold search; fold search. rewrite (match_here_not_h _ _ La).
    rewrite (IH (S pos) L). simpl String.length. now rewrite Nat.add_succ_r.
Qed.

Lemma search_text_pos (r : regex) (fuel : nat) (s : string) (pos pos' : nat) :
  option_map (fun x => m_text (fst x)) (search r fuel pos s)
  = option_map (fun x => m_text (fst x)) (search r fuel pos' s).
Proof.
  revert s pos pos'. induction fuel as [ | fuel IH ]; intros s pos pos'.
  - unfold search. now destruct (match_here r s) as [ [[txt c] rest] | ].
  - unfold search; fold search.
    destruct (match_here r s) as [ [[txt c] rest] | ]; [ reflexivity | ].
    destruct s as [ | a s ]; [ reflexivity | apply IH ].
Qed.

Lemma url_of_point (label s : string) :
  lacks isH label = true ->
  option_map m_text (exec urlRegex (label ++ s))
  = option_map m_text (exec urlRegex s).
Proof.
  intros L. unfold exec.
  pose proof (search_skips_label label s 0 L) as E.
  rewrite (search_text_pos _ _ s _ 0) in E.
  destruct (search urlRegex (String.length (label ++ s)) 0 (label ++ s)) as [ [m r] | ];
    destruct (search urlRegex (String.length s) 0 s) as [ [m' r'] | ];
    simpl in *; congruence.
Qed.

Lemma mentionsUrl_labelled (s : string) :
  mentionsUrl ("Event: " ++ s) = mentionsUrl s
  /\ mentionsUrl ("Date: " ++ s) = mentionsUrl s
  /\ mentionsUrl ("Location: " ++ s) = mentionsUrl s
  /\ mentionsUrl ("Summary: " ++ s) = mentionsUrl s
  /\ mentionsUrl ("Event URL: " ++ s) = true.
Proof.
  unfold mentionsUrl. repeat split; simpl; try reflexivity.
  now rewrite orb_true_r.
Qed.

Lemma getEventUrl_of_brief (w : World) (ds : string) (startDate endDate : option Z)
  (event : FilteredEvent) (winery : Winery) (brief : WineryBrief) :
  wineryBrief w ds startDate endDate event winery = Some brief ->
  mentionsUrl (event_name event) = false ->
  mentionsUrl (fe_event_date event) = false ->
  mentionsUrl (event_location event) = false ->
  mentionsUrl (event_summary event) = false ->
  getEventUrl brief = option_map m_text (exec urlRegex (event_url event)).
Proof.
  intros B N D L S. unfold wineryBrief in B.
  destruct (localEventDate event) as [ date | ]; [ | discriminate ].
  injection B as <-. unfold getEventUrl. cbn [key_points find].
  destruct (mentionsUrl_labelled (event_name event)) as (E1 & _).
  destruct (mentionsUrl_labelled (fe_event_date event)) as (_ & E2 & _).
  destruct (mentionsUrl_labelled (event_location event)) as (_ & _ & E3 & _).
  destruct (mentionsUrl_labelled (event_summary event)) as (_ & _ & _ & E4 & _).
  destruct (mentionsUrl_labelled (event_url event)) as (_ & _ & _ & _ & E5).
  cbn [append] in E1, E2, E3, E4, E5. rewrite E1, E2, E3, E4, E5.
  rewrite N, D, L, S.
  rewrite <- (url_of_point "Event URL: " (event_url event)) by reflexivity.
  cbn [append].
  now destruct (exec urlRegex _).
Qed.

(** X16.  The link the dashboard shows for a brief of the fan-out is
    read from the event's address alone: when the name, date, location
    and summary of the event mention no address, it is the first match
    of the address pattern in [event_url], or none if there is no match;
    the source address of the brief is never consulted. *)
Theorem link_comes_from_event_url (w : World) (ds : string)
  (startDate endDate : option Z) (event : FilteredEvent) (winery : Winery)
  (brief : WineryBrief) :
  wineryBrief w ds startDate endDate event winery = Some brief ->
  mentionsUrl (event_name event) = false ->
  mentionsUrl (fe_event_date event) = false ->
  mentionsUrl (event_location event) = false ->
  mentionsUrl (event_summary event) = false ->
  getEventUrl brief = option_map m_text (exec urlRegex (event_url event))
  /\ (lacks isH (event_url event) = true -> getEventUrl brief = None).
Proof.
  intros B N D L S. pose proof (getEventUrl_of_brief _ _ _ _ _ _ _ B N D L S) as E.
  split; [ exact E | ]. intros NoH. rewrite E. unfold exec.
  rewrite (search_needs isH urlRegex); [ reflexivity | | exact NoH ].
  unfold urlRegex. simpl. left. left. intros a Q. exact Q.
Qed.

(** X17.  Round trip of an event's address through the fan-out and the
    dashboard: when the event's address is an http or https address
    without white space and the name, date, location and summary mention
    no address, the dashboard's link for the brief is that address. *)
Theorem event_url_round_trip (w : World) (ds : string)
  (startDate endDate : option Z) (event : FilteredEvent) (winery : Winery)
  (brief : WineryBrief) (scheme body : string) :
  wineryBrief w ds startDate endDate event winery = Some brief ->
  mentionsUrl (event_name event) = false ->
  mentionsUrl (fe_event_date event) = false ->
  mentionsUrl (event_location event) = false ->
  mentionsUrl (event_summary event) = false ->
  event_url event = scheme ++ "://" ++ body ->
  scheme = "http" \/ scheme = "https" ->
  body <> "" -> lacks is_space body = true ->
  getEventUrl brief = Some (event_url event).
Proof.
  intros B N D L S U Sc Bn Bs.
  rewrite (getEventUrl_of_brief _ _ _ _ _ _ _ B N D L S), U. unfold exec.
  destruct (String.length (scheme ++ "://" ++ body));
    unfold search; fold search; now rewrite (match_here_url _ _ Sc Bn Bs).
Qed.

End LinkProperties.

Section ScraperProperties.
Import EventScraper.

Lemma greedy_skips_spaces (X : Type) (f : string -> X) (s : string) :
  greedyRun is_space X (fun r => Some (f r)) s = Some (f (trimStart s)).
Proof.
  induction s as [ | a s IH ]; [ reflexivity | ].
  cbn [greedyRun trimStart]. destruct (is_space a); [ now rewrite IH | reflexivity ].
Qed.

Lemma trimStart_length (s : string) :
  (String.length (trimStart s) <= String.length s)%nat.
Proof.
  destruct (trimStart_rest s) as (p & E). rewrite E at 2.
  rewrite length_append. lia.
Qed.

(** The white-space pattern at a white-space character takes the whole
    run; elsewhere it does not match. *)
Lemma spaces_at (a : ascii) (s' : string) :
  match_here (plus space) (String a s')
  = if is_space a
    then Some (String a (take (String.length s' - String.length (trimStart s')) s'),
               [], trimStart s')
    else None.
Proof.
  unfold match_here, plus. rewrite rmatch_Seq. unfold space. rewrite rmatch_Chr.
  destruct (is_space a); [ | reflexivity ]. cbv beta.
  rewrite star_class.
  rewrite (greedy_skips_spaces _
             (fun r => (take (String.length (String a s') - String.length r)
                             (String a s'), @nil (nat * string), r))).
  pose proof (trimStart_length s') as L.
  replace (String.length (String a s') - String.length (trimStart s'))%nat
    with (S (String.length s' - String.length (trimStart s')))
    by (cbn [String.length]; lia).
  reflexivity.
Qed.

Lemma collapse_singleSpaced (fuel : nat) :
  forall s, (String.length s <= fuel)%nat ->
    singleSpaced (replace_from (plus space) " " fuel s) = true
    /\ (startsWithSpace s = false ->
        startsWithSpace (replace_from (plus space) " " fuel s) = false).
Proof.
  induction fuel as [ | fuel IH ]; intros s L.
  - destruct s; [ split; reflexivity | simpl in L; lia ].
  - rewrite replace_from_S. destruct s as [ | a s' ]; [ split; reflexivity | ].
    rewrite spaces_at. destruct (is_space a) eqn:A.
    + assert (Lt : (String.length (trimStart s') <= fuel)%nat).
      { pose proof (trimStart_length s'). simpl in L. lia. }
      destruct (IH _ Lt) as [S1 S2]. specialize (S2 (trimStart_head s')).
      split.
      * change (" " ++ replace_from (plus space) " " fuel (trimStart s'))
          with (String " " (replace_from (plus space) " " fuel (trimStart s'))).
        cbn [singleSpaced]. rewrite S1, S2. reflexivity.
      * simpl. intros F. congruence.
    + assert (Ls : (String.length s' <= fuel)%nat) by (simpl in L; lia).
      destruct (IH _ Ls) as [S1 _]. split.
      * cbn [singleSpaced]. now rewrite A, S1.
      * intros _. exact A.
Qed.

Lemma singleSpaced_rest (s' s : string) :
  restOf s' s -> singleSpaced s = true -> singleSpaced s' = true.
Proof.
  intros (p & ->). induction p as [ | a p IH ]; simpl; [ auto | ].
  intros T. apply andb_prop in T. now apply IH.
Qed.

Lemma trimEnd_keeps_head (s t : string) (b : ascii) :
  trimEnd s = String b t -> startsWithSpace s = is_space b.
Proof.
  destruct s as [ | a s ]; simpl; [ discriminate | ].
  destruct (trimEnd s).
  - destruct (is_space a) eqn:A; [ discriminate | ]. intros [= <- _]. now rewrite A.
  - now intros [= <- _].
Qed.

Lemma trimEnd_singleSpaced (s : string) :
  singleSpaced s = true -> singleSpaced (trimEnd s) = true.
Proof.
  induction s as [ | a s IH ]; [ auto | ]. cbn [singleSpaced trimEnd]. intros T.
  apply andb_prop in T. destruct T as [Ta Ts]. specialize (IH Ts).
  destruct (trimEnd s) as [ | b t ] eqn:E.
  - destruct (is_space a) eqn:A; [ reflexivity | ]. cbn [singleSpaced]. now rewrite A.
  - change (singleSpaced (String a (String b t)))
      with ((negb (is_space a) || (chr_eq " " a && negb (is_space b)))
            && singleSpaced (String b t)).
    rewrite IH, andb_true_r. now rewrite <- (trimEnd_keeps_head _ _ _ E).
Qed.

(** X18.  The text the scraper sends is normalised: it has no white
    space at either end, and every white-space character in it is a
    single space between two other characters.  (The pass that strips
    the tags runs before the entities are decoded, so the result can
    still hold a tag; it is the white space that is normal.) *)
Theorem cleanText_is_single_spaced (text : string) :
  singleSpaced (cleanText text) = true
  /\ startsWithSpace (cleanText text) = false
  /\ endsWithSpace (cleanText text) = false.
Proof.
  unfold cleanText. destruct (negb (truthy text)); [ repeat split | ].
  cbv zeta. split; [ | apply trim_ends ].
  unfold trim. apply trimEnd_singleSpaced.
  apply (singleSpaced_rest _ _ (trimStart_rest _)).
  unfold replace at 1. apply collapse_singleSpaced. lia.
Qed.

(** The cleaning is not idempotent, and its result is not free of tags:
    an escaped tag comes out as a tag. *)
Example cleanText_decodes_into_a_tag :
  cleanText "&lt;b&gt;" = "<b>"
  /\ cleanText (cleanText "&lt;b&gt;") = ""
  /\ cleanText "&amp;lt;" = "<".
Proof. repeat split; vm_compute; reflexivity. Qed.

End ScraperProperties.

Lemma link_comes_from_event_url_witness :
  exists brief,
    wineryBrief (H := Runtime.utc) quietWorld "database_stored" None None noLink
      stoneTower = Some brief
    /\ In "Source: https://visitloudoun.org/feed" (key_points brief)
    /\ EventEngine.getEventUrl brief = None.
Proof.
  eexists.
  assert (B : wineryBrief (H := Runtime.utc) quietWorld "database_stored" None None
                noLink stoneTower = Some _) by (vm_compute; reflexivity).
  split; [ exact B | ]. split; [ simpl; tauto | ].
  apply (proj2 (link_comes_from_event_url (H := Runtime.utc) quietWorld
                  "database_stored" None None noLink stoneTower _ B
                  eq_refl eq_refl eq_refl eq_refl)).
  reflexivity.
Defined.

Lemma event_url_round_trip_witness :
  exists brief,
    wineryBrief (H := Runtime.utc) quietWorld "database_stored" None None lowScore
      stoneTower = Some brief
    /\ EventEngine.getEventUrl brief
       = Some "https://visitloudoun.org/events/wine-food-festival".
Proof.
  eexists.
  assert (B : wineryBrief (H := Runtime.utc) quietWorld "database_stored" None None
                lowScore stoneTower = Some _) by (vm_compute; reflexivity).
  split; [ exact B | ].
  apply (event_url_round_trip (H := Runtime.utc) quietWorld "database_stored" None None
           lowScore stoneTower _ "https" "visitloudoun.org/events/wine-food-festival"
           B eq_refl eq_refl eq_refl eq_refl eq_refl);
    [ right; reflexivity | discriminate | reflexivity ].
Defined.

(* ================================================================== *)
(** ** The title of a generated draft *)
(* ================================================================== *)

Section TitleProperties.
Import SommelierWriter.

Lemma split_line (l rest : string) :
  lacks isLineFeed l = true ->
  split lineFeed (l ++ String lineFeed rest) = l :: split lineFeed rest.
Proof.
  induction l as [ | a l IH ]; intros L.
  - reflexivity.
  - simpl in L. apply andb_prop in L. destruct L as [La L].
    apply negb_true_iff in La. unfold isLineFeed in La.
    change (split lineFeed (String a l ++ String lineFeed rest))
      with (if chr_eq lineFeed a
            then EmptyString :: split lineFeed (l ++ String lineFeed rest)
            else match split lineFeed (l ++ String lineFeed rest) with
                 | x :: ls => String a x :: ls
                 | [] => [String a EmptyString]
                 end).
    now rewrite La, (IH L).
Qed.

Lemma trimEnd_fixed (s : string) : endsWithSpace s = false -> trimEnd s = s.
Proof.
  induction s as [ | a s IH ]; [ reflexivity | ].
  destruct s as [ | b s ].
  - simpl. now intros ->.
  - intros E. change (endsWithSpace (String a (String b s)))
      with (endsWithSpace (String b s)) in E.
    change (trimEnd (String a (String b s)))
      with (match trimEnd (String b s) with
            | EmptyString => if is_space a then EmptyString else String a EmptyString
            | t => String a t
            end).
    now rewrite (IH E).
Qed.

Lemma trimStart_fixed (s : string) : startsWithSpace s = false -> trimStart s = s.
Proof. destruct s as [ | a s ]; simpl; [ reflexivity | now intros -> ]. Qed.

Lemma trimEnd_blank_tail (s : string) : trimEnd (s ++ " ") = trimEnd s.
Proof.
  induction s as [ | a s IH ]; [ reflexivity | ].
  change (trimEnd (String a s ++ " "))
    with (match trimEnd (s ++ " ") with
          | EmptyString => if is_space a then EmptyString else String a EmptyString
          | t => String a t
          end).
  now rewrite IH.
Qed.

Lemma endsWithSpace_app (p t : string) :
  t <> "" -> endsWithSpace (p ++ t) = endsWithSpace t.
Proof.
  intros N. induction p as [ | a p IH ]; [ reflexivity | ].
  change (String a p ++ t) with (String a (p ++ t)).
  destruct (p ++ t) as [ | b u ] eqn:E.
  - destruct p; [ simpl in E; contradiction | discriminate ].
  - change (endsWithSpace (String a (String b u))) with (endsWithSpace (String b u)).
    exact IH.
Qed.

Lemma append_empty (s : string) : s ++ "" = s.
Proof. induction s as [ | a s IH ]; simpl; [ | rewrite IH ]; reflexivity. Qed.

Lemma hashes_plain (n : nat) :
  lacks isLineFeed (repeat_string "#" n) = true
  /\ endsWithSpace (repeat_string "#" (S n)) = false.
Proof.
  induction n as [ | n [IH1 IH2] ]; [ split; reflexivity | ]. split.
  - simpl. exact IH1.
  - exact IH2.
Qed.

(** The run of hashes at the head of the input is taken in whole when
    what follows it is accepted. *)
Lemma greedy_hashes (X : Type) (k : string -> option X) (n : nat) (tail : string)
  (x : X) :
  startsWith "#" tail = false -> k tail = Some x ->
  greedyRun (chr_eq "#") X k (repeat_string "#" n ++ tail) = Some x.
Proof.
  intros T K. induction n as [ | n IH ].
  - destruct tail as [ | a tail ]; [ exact K | ].
    change (startsWith "#" (String a tail)) with (chr_eq "#" a && true) in T.
    rewrite andb_true_r in T. cbn [repeat_string append greedyRun].
    now rewrite T.
  - cbn [repeat_string append greedyRun]. now rewrite IH.
Qed.

Lemma hashesRegex_at_heading (n : nat) (tail : string) :
  startsWith "#" tail = false ->
  replace_head hashesRegex "" (repeat_string "#" (S n) ++ tail) = trimStart tail.
Proof.
  intros T. unfold replace_head, match_here, hashesRegex, plus.
  rewrite !rmatch_Seq. unfold ch at 1. cbn [repeat_string append].
  rewrite rmatch_Chr. cbn [chr_eq Ascii.eqb Bool.eqb andb]. cbv beta.
  unfold ch. rewrite star_class.
  rewrite (greedy_hashes _ _ n tail
             (take (String.length (String "#" (repeat_string "#" n ++ tail))
                    - String.length (trimStart tail))
                   (String "#" (repeat_string "#" n ++ tail)),
              @nil (nat * string), trimStart tail) T).
  - reflexivity.
  - unfold space. rewrite star_class.
    exact (greedy_skips_spaces _
             (fun r => (take (String.length (String "#" (repeat_string "#" n ++ tail))
                              - String.length r)
                             (String "#" (repeat_string "#" n ++ tail)),
                        @nil (nat * string), r)) tail).
Qed.

Lemma contentTitle_first_line (primary_topic line rest : string) :
  lacks isLineFeed line = true -> truthy (trim line) = true ->
  contentTitle primary_topic (line ++ String lineFeed rest)
  = let firstLine := trim line in
    if startsWith "#" firstLine then replace_head hashesRegex "" firstLine
    else
      match exec headingRegex firstLine with
      | Some m => opt_or (grp m 1) ""
      | None =>
          if ((10 <? String.length firstLine)
              && (String.length firstLine <? 100))%nat
          then firstLine
          else primary_topic
      end.
Proof.
  intros L T. unfold contentTitle. rewrite (split_line _ _ L).
  cbn [filter]. now rewrite T.
Qed.

Lemma startsWith_hash (n : nat) (x : string) :
  startsWith "#" (repeat_string "#" (S n) ++ x) = true.
Proof. reflexivity. Qed.

(** X19.  Round trip of a heading: when the generated text opens with a
    line of one or more hashes, a space and a text without white space
    at its ends, the title of the stored draft is that text, whatever
    the topic of the request -- and the empty title when the text is
    empty. *)
Theorem markdown_heading_is_the_title (n : nat) (t rest primary_topic : string) :
  lacks isLineFeed t = true ->
  startsWithSpace t = false -> endsWithSpace t = false ->
  contentTitle primary_topic
    (repeat_string "#" (S n) ++ " " ++ t ++ String lineFeed rest) = t.
Proof.
  intros L S0 S1.
  assert (Line : trim (repeat_string "#" (S n) ++ " " ++ t)
                 = repeat_string "#" (S n) ++ (if truthy t then " " ++ t else "")).
  { unfold trim. cbn [repeat_string append trimStart].
    change (is_space "#") with false. cbv iota.
    change (String "#" (repeat_string "#" n ++ String " " t))
      with (repeat_string "#" (S n) ++ String " " t).
    destruct t as [ | b t ].
    - cbn [truthy]. rewrite trimEnd_blank_tail, append_empty.
      apply trimEnd_fixed, hashes_plain.
    - cbn [truthy]. apply trimEnd_fixed.
      change (String "#" (repeat_string "#" n ++ String " " (String b t)))
        with (repeat_string "#" (S n) ++ String " " (String b t)).
      rewrite endsWithSpace_app by discriminate. exact S1. }
  replace (repeat_string "#" (S n) ++ " " ++ t ++ String lineFeed rest)
    with ((repeat_string "#" (S n) ++ " " ++ t) ++ String lineFeed rest)
    by (now rewrite !append_assoc).
  set (line := repeat_string "#" (S n) ++ " " ++ t) in *.
  rewrite contentTitle_first_line.
  - rewrite Line. cbv zeta. rewrite startsWith_hash, hashesRegex_at_heading.
    + destruct t as [ | b t ]; [ reflexivity | ].
      cbn [truthy append].
      change (trimStart (String " " (String b t))) with (trimStart (String b t)).
      now apply trimStart_fixed.
    + now destruct t.
  - unfold line. rewrite !lacks_app, L.
    destruct (hashes_plain (S n)) as [-> _]. reflexivity.
  - rewrite Line. reflexivity.
Qed.

End TitleProperties.

Lemma markdown_heading_is_the_title_witness :
  SommelierWriter.contentTitle "Autumn releases"
    (repeat_string "#" 2 ++ " " ++ "Harvest Notes"
     ++ String SommelierWriter.lineFeed "The first grapes came in early.")
  = "Harvest Notes".
Proof.
  apply (markdown_heading_is_the_title 1 "Harvest Notes"
           "The first grapes came in early." "Autumn releases"); reflexivity.
Defined.

(* ================================================================== *)
(** ** Other first lines of a generated draft *)
(* ================================================================== *)

Section MoreTitleProperties.
Import SommelierWriter.

Lemma trim_fixed (s : string) :
  startsWithSpace s = false -> endsWithSpace s = false -> trim s = s.
Proof.
  intros S0 S1. unfold trim. rewrite (trimStart_fixed _ S0). now apply trimEnd_fixed.
Qed.

Lemma headingRegex_needs_lt : needs isLt headingRegex.
Proof. unfold headingRegex. simpl. left. intros a E. exact E. Qed.

(** X20.  A first line that is no heading is the title only when it has
    more than 10 and fewer than 100 characters; a shorter or longer line
    leaves the topic of the request as the title. *)
Theorem plain_first_line_is_the_title (line rest primary_topic : string) :
  line <> "" -> lacks isLineFeed line = true ->
  startsWithSpace line = false -> endsWithSpace line = false ->
  startsWith "#" line = false -> lacks isLt line = true ->
  contentTitle primary_topic (line ++ String lineFeed rest)
  = if ((10 <? String.length line) && (String.length line <? 100))%nat
    then line else primary_topic.
Proof.
  intros N L S0 S1 Hh Lt.
  rewrite contentTitle_first_line; rewrite ?(trim_fixed _ S0 S1).
  - cbv zeta. rewrite Hh. unfold exec.
    now rewrite (search_needs isLt headingRegex _ _ _ headingRegex_needs_lt Lt).
  - exact L.
  - destruct line; [ contradiction | reflexivity ].
Qed.

Lemma rmatch_ch (a : ascii) (A : Type) (s : string) (c : captures)
  (k : string -> captures -> option A) :
  rmatch (ch a) A (String a s) c k = k s c.
Proof. unfold ch. rewrite rmatch_Chr. unfold chr_eq. now rewrite Ascii.eqb_refl. Qed.

Lemma rmatch_chi (a : ascii) (A : Type) (s : string) (c : captures)
  (k : string -> captures -> option A) :
  rmatch (chi a) A (String a s) c k = k s c.
Proof. unfold chi. rewrite rmatch_Chr. unfold chr_eq_ci. now rewrite Ascii.eqb_refl. Qed.

Lemma rmatch_Group (n : nat) (r : regex) (A : Type) (s : string) (c : captures)
  (k : string -> captures -> option A) :
  rmatch (Group n r) A s c k
  = rmatch r A s c
      (fun s1 c1 => k s1 ((n, take (String.length s - String.length s1) s) :: c1)).
Proof. reflexivity. Qed.

(** The lazy star over the dot moves on, one character at a time, to the
    first place where the rest of the pattern is accepted, when that
    rest can only start at an opening angle bracket. *)
Lemma lazy_dots_until (A : Type) (k : string -> captures -> option A) (c : captures)
  (tail : string) (x : A) :
  (forall a s, isLt a = false -> k (String a s) c = None) ->
  k tail c = Some x ->
  forall t fuel,
    lacks isLt t = true -> lacks isTerminator t = true ->
    (String.length t <= fuel)%nat ->
    starLoop false (Chr is_dot) A k fuel (t ++ tail) c = Some x.
Proof.
  intros Fail Stop. induction t as [ | a t IH ]; intros fuel L T F.
  - destruct fuel; [ exact Stop | ]. rewrite starLoop_S. cbv zeta.
    change ("" ++ tail) with tail. now rewrite Stop.
  - destruct fuel as [ | fuel ]; [ simpl in F; lia | ].
    simpl in L, T. apply andb_prop in L. destruct L as [La L].
    apply andb_prop in T. destruct T as [Ta T].
    apply negb_true_iff in La. unfold isTerminator in Ta.
    rewrite negb_involutive in Ta.
    rewrite starLoop_S. cbv zeta.
    change (String a t ++ tail) with (String a (t ++ tail)).
    rewrite (Fail a _ La), rmatch_Chr, Ta.
    assert (Lt : (String.length (t ++ tail) <? String.length (String a (t ++ tail)))%nat
                 = true) by (apply Nat.ltb_lt; simpl; lia).
    rewrite Lt. apply IH; [ exact L | exact T | simpl in F; lia ].
Qed.

Lemma level_not_lt (d : ascii) : headingLevel d = true -> isLt d = false.
Proof.
  intros E. destruct (isLt d) eqn:X; [ | reflexivity ].
  unfold isLt, chr_eq in X. apply Ascii.eqb_eq in X. subst d. discriminate E.
Qed.

Lemma level_not_feed (d : ascii) : headingLevel d = true -> isLineFeed d = false.
Proof.
  intros E. destruct (isLineFeed d) eqn:X; [ | reflexivity ].
  unfold isLineFeed, chr_eq in X. apply Ascii.eqb_eq in X. subst d. discriminate E.
Qed.

Lemma level_not_space (d : ascii) : headingLevel d = true -> is_space d = false.
Proof.
  unfold headingLevel, is_space. intros E. apply andb_prop in E. destruct E as [A B].
  apply Nat.leb_le in A, B.
  repeat rewrite orb_false_iff. repeat split; apply Nat.eqb_neq; lia.
Qed.

Lemma terminator_free_line (t : string) :
  lacks isTerminator t = true -> lacks isLineFeed t = true.
Proof.
  induction t as [ | a t IH ]; [ reflexivity | ]. simpl. intros E.
  apply andb_prop in E. destruct E as [Ea E]. rewrite (IH E), andb_true_r.
  unfold isTerminator, is_dot in Ea. rewrite negb_involutive in Ea.
  apply negb_true_iff, orb_false_iff in Ea. destruct Ea as [Ea _].
  apply negb_true_iff. unfold isLineFeed, chr_eq.
  destruct (Ascii.eqb lineFeed a) eqn:X; [ | reflexivity ].
  apply Ascii.eqb_eq in X. subst a. discriminate Ea.
Qed.

(** The heading pattern on a heading element that fills the line. *)
Lemma rmatch_heading (A : Type) (K : string -> captures -> option A)
  (d d' : ascii) (t : string) :
  headingLevel d = true -> headingLevel d' = true ->
  lacks isLt t = true -> lacks isTerminator t = true ->
  K "" [(1%nat, t)] <> None ->
  rmatch headingRegex A
    (String "<" (String "h" (String d (String ">" (t ++ "</h" ++ String d' ">")))))
    [] K
  = K "" [(1%nat, t)].
Proof.
  intros D D' L T Ok. unfold headingRegex. cbn [seqs].
  rewrite rmatch_Seq, rmatch_ch, rmatch_Seq, rmatch_chi, rmatch_Seq.
  unfold one_to_six at 1. rewrite rmatch_Chr.
  change ((49 <=? code d)%nat && (code d <=? 54)%nat) with (headingLevel d).
  rewrite D, rmatch_Seq. unfold ScanLocalEvents.not_gt. rewrite star_class.
  cbn [greedyRun]. change (negb (chr_eq ">" ">")) with false. cbv iota.
  rewrite rmatch_Seq, rmatch_ch, rmatch_Seq, rmatch_Group. unfold dot.
  rewrite star_unfold.
  destruct (K "" [(1%nat, t)]) as [ x | ] eqn:E; [ | contradiction ].
  apply lazy_dots_until.
  - intros a s N. rewrite rmatch_Seq.
    change (lit "</") with (Seq (ch "<") (ch "/")). rewrite rmatch_Seq.
    change (ch "<") with (Chr (chr_eq "<")). rewrite rmatch_Chr.
    unfold isLt in N. now rewrite N.
  - rewrite rmatch_Seq.
    change ("</h" ++ String d' ">") with ("</" ++ String "h" (String d' ">")).
    rewrite rmatch_lit, rmatch_Seq, rmatch_chi, rmatch_Seq.
    unfold one_to_six. rewrite rmatch_Chr.
    change ((49 <=? code d')%nat && (code d' <=? 54)%nat) with (headingLevel d').
    rewrite D', rmatch_ch.
    rewrite (take_front t ("</" ++ String "h" (String d' ">"))).
    exact E.
  - exact L.
  - exact T.
  - rewrite length_append. lia.
Qed.

Lemma match_here_heading (d d' : ascii) (t : string) :
  headingLevel d = true -> headingLevel d' = true ->
  lacks isLt t = true -> lacks isTerminator t = true ->
  match_here headingRegex
    ("<h" ++ String d (">" ++ t ++ "</h" ++ String d' ">"))
  = Some ("<h" ++ String d (">" ++ t ++ "</h" ++ String d' ">"), [(1%nat, t)], "").
Proof.
  intros D D' L T. unfold match_here.
  change ("<h" ++ String d (">" ++ t ++ "</h" ++ String d' ">"))
    with (String "<" (String "h" (String d (String ">" (t ++ "</h" ++ String d' ">"))))).
  rewrite (rmatch_heading _ _ _ _ _ D D' L T); [ | discriminate ].
  now rewrite take_all.
Qed.

(** X21.  Round trip of a heading element: when the generated text opens
    with a line that is one element [h1] to [h6] around a text without
    opening angle bracket, the title of the stored draft is that text as
    it stands between the tags, white space included, whatever the topic
    of the request. *)
Theorem html_heading_is_the_title (d d' : ascii) (t rest primary_topic : string) :
  headingLevel d = true -> headingLevel d' = true ->
  lacks isLt t = true -> lacks isTerminator t = true ->
  contentTitle primary_topic
    (("<h" ++ String d (">" ++ t ++ "</h" ++ String d' ">")) ++ String lineFeed rest)
  = t.
Proof.
  intros D D' L T.
  set (line := "<h" ++ String d (">" ++ t ++ "</h" ++ String d' ">")).
  assert (Tr : trim line = line).
  { apply trim_fixed; [ reflexivity | ]. unfold line.
    change ("<h" ++ String d (">" ++ t ++ "</h" ++ String d' ">"))
      with (String "<" (String "h" (String d (String ">" (t ++ "</h" ++ String d' ">"))))).
    change (endsWithSpace (String "<" (String "h" (String d (String ">" (t ++ "</h" ++ String d' ">"))))))
      with (endsWithSpace (String ">" (t ++ "</h" ++ String d' ">"))).
    change (String ">" (t ++ "</h" ++ String d' ">"))
      with ((String ">" t) ++ ("</h" ++ String d' ">")).
    rewrite endsWithSpace_app by discriminate.
    change ("</h" ++ String d' ">") with (("</h" ++ String d' "") ++ ">").
    now rewrite endsWithSpace_app by discriminate. }
  rewrite contentTitle_first_line; rewrite ?Tr.
  - cbv zeta. change (startsWith "#" line) with false. cbv iota.
    unfold exec.
    assert (S : forall fuel,
               search headingRegex fuel 0 line
               = Some ({| m_index := 0; m_text := line; m_groups := [(1%nat, t)] |}, "")).
    { intros fuel. destruct fuel; unfold search; fold search;
        unfold line; now rewrite (match_here_heading _ _ _ D D' L T). }
    rewrite S. cbn [option_map fst grp m_groups capture Nat.eqb opt_or].
    unfold or_else. now destruct t.
  - unfold line.
    change ("<h" ++ String d (">" ++ t ++ "</h" ++ String d' ">"))
      with ("<h" ++ (String d ">" ++ (t ++ ("</h" ++ String d' ">")))).
    rewrite !lacks_app. rewrite (terminator_free_line _ T).
    cbn [lacks append]. rewrite (level_not_feed _ D), (level_not_feed _ D').
    reflexivity.
  - unfold line. reflexivity.
Qed.

End MoreTitleProperties.

Lemma plain_first_line_is_the_title_witness :
  SommelierWriter.contentTitle "Autumn releases"
    ("Short line" ++ String SommelierWriter.lineFeed "The first grapes came in early.")
  = "Autumn releases"
  /\ SommelierWriter.contentTitle "Autumn releases"
       ("Harvest Notes" ++ String SommelierWriter.lineFeed "")
     = "Harvest Notes".
Proof.
  split.
  - apply (plain_first_line_is_the_title "Short line" "The first grapes came in early."
             "Autumn releases"); reflexivity || discriminate.
  - apply (plain_first_line_is_the_title "Harvest Notes" "" "Autumn releases");
      reflexivity || discriminate.
Defined.

Lemma html_heading_is_the_title_witness :
  SommelierWriter.contentTitle "Autumn releases"
    (("<h" ++ String "2" (">" ++ " Harvest Notes " ++ "</h" ++ String "2" ">"))
     ++ String SommelierWriter.lineFeed "The first grapes came in early.")
  = " Harvest Notes ".
Proof.
  apply (html_heading_is_the_title "2" "2" " Harvest Notes "
           "The first grapes came in early." "Autumn releases"); reflexivity.
Defined.
